(** * Multi-signal risk aggregation of [analyzer/apk_analyzer.py]

    A shallow embedding of the scoring engine: the allowlist cache
    ([load_safe_apps]), the permission model ([get_permission_risk],
    [calculate_permission_score]), the two string-pool scanners
    ([analyze_urls], [analyze_code_patterns]), the certificate evaluator
    ([calculate_certificate_risk]) and the aggregator ([analyze_apk]).

    Conventions.
    - Python [int] is [Z]; Python [float] is IEEE-754 binary64, taken from
      the Standard Library's executable specification [SpecFloat] at
      precision 53 and maximal exponent 1024 (round to nearest, ties to even).
    - Python [str] is [string]: a text whose characters have code points
      below 256.  Case folding, white space and the word characters of the
      regular expressions are those Python gives these code points.
    - An exception is a value of [exn]; a call that may raise returns an
      [outcome].  Module-level mutable state ([_safe_apps_cache],
      [_safe_apps_last_loaded]) is threaded explicitly, together with the
      log of the collaborator calls that were made.  What the functions
      print is left out. *)

From Stdlib Require Import ZArith List String Ascii Bool Lia QArith.
From Stdlib Require Import Floats.SpecFloat.
From stdpp Require Import base decidable option list gmap sets strings.
Import ListNotations.

Local Open Scope string_scope.
Local Open Scope Z_scope.

(** ** Exceptions and outcomes *)

Inductive exn_kind :=
| UnicodeDecodeError
| AttributeError
| TypeError
| OverflowError
| ValueError
| OSError
| OtherException.

Record exn := MkExn { exn_kind_of : exn_kind; exn_msg : string }.

Inductive outcome (A : Type) :=
| Ok (a : A)
| Raise (e : exn).
Arguments Ok {A} a.
Arguments Raise {A} e.

(** Sequencing stops at the first exception. *)
Global Instance outcome_ret : MRet outcome := fun A a => Ok a.
Global Instance outcome_bind : MBind outcome := fun A B k m =>
  match m with
  | Ok a => k a
  | Raise e => Raise e
  end.

Definition is_ok {A} (m : outcome A) : bool :=
  match m with Ok _ => true | Raise _ => false end.

(** ** Binary64 arithmetic as Python uses it *)

Module F64.

Definition prec : Z := 53.
Definition emax : Z := 1024.

Definition float := spec_float.

Definition mul : float -> float -> float := SFmul prec emax.
Definition add : float -> float -> float := SFadd prec emax.
Definition div : float -> float -> float := SFdiv prec emax.
Definition ltb : float -> float -> bool := SFltb.
Definition leb : float -> float -> bool := SFleb.

(** The double nearest to an integer (ties to even); an infinity when the
    integer is beyond the range. *)
Definition of_Z (z : Z) : float := binary_normalize prec emax z 0 false.

Definition is_finite (f : float) : bool :=
  match f with
  | S754_zero _ | S754_finite _ _ _ => true
  | S754_infinity _ | S754_nan => false
  end.

Definition is_nan (f : float) : bool :=
  match f with S754_nan => true | _ => false end.

(** [int * float], [int + float], [int > float]: the integer operand is
    converted first; CPython raises [OverflowError] when it does not fit. *)
Definition float_of_int (z : Z) : outcome float :=
  let f := of_Z z in
  if is_finite f then Ok f
  else Raise (MkExn OverflowError "int too large to convert to float").

(** [int(f)]: truncation toward zero. *)
Definition trunc (f : float) : outcome Z :=
  match f with
  | S754_zero _ => Ok 0
  | S754_finite s m e =>
      let a := match e with
               | Zneg p => Z.pos m / 2 ^ Z.pos p
               | _ => Z.pos m * 2 ^ e
               end in
      Ok (if s then - a else a)
  | S754_infinity _ =>
      Raise (MkExn OverflowError "cannot convert float infinity to integer")
  | S754_nan =>
      Raise (MkExn ValueError "cannot convert float NaN to integer")
  end.

(** The literals [0.2] and [0.3]: the doubles nearest to 2/10 and 3/10. *)
Definition lit_0_2 : float := S754_finite false 7205759403792794 (-55).
Definition lit_0_3 : float := S754_finite false 5404319552844595 (-54).

(** The rational a finite double denotes (0 for the other values). *)
Definition to_Q (f : float) : Q :=
  match f with
  | S754_finite s m e =>
      let n := if s then Z.neg m else Z.pos m in
      match e with
      | Zneg p => Qmake n (2 ^ p)%positive
      | _ => inject_Z (n * 2 ^ e)
      end
  | _ => 0%Q
  end.

End F64.

(** A Python number as the aggregator holds it: the total is an [int] until
    the discount turns it into a [float]. *)
Inductive pynum :=
| PyInt (z : Z)
| PyFloat (f : F64.float).

(** [x > c] for an integer literal [c] small enough to be a double. *)
Definition py_gt (x : pynum) (c : Z) : bool :=
  match x with
  | PyInt z => c <? z
  | PyFloat f => F64.ltb (F64.of_Z c) f
  end.

(** [x <= c], likewise. *)
Definition py_le (x : pynum) (c : Z) : bool :=
  match x with
  | PyInt z => z <=? c
  | PyFloat f => F64.leb f (F64.of_Z c)
  end.

(** [int(x)]. *)
Definition py_int (x : pynum) : outcome Z :=
  match x with
  | PyInt z => Ok z
  | PyFloat f => F64.trunc f
  end.

(** The rational a number denotes. *)
Definition py_value (x : pynum) : Q :=
  match x with
  | PyInt z => inject_Z z
  | PyFloat f => F64.to_Q f
  end.

(** ** Configuration tables *)

(** The entries of [PERMISSION_SCORES], in source order. *)
Definition permission_table : list (string * Z) :=
  [ ("android.permission.READ_SMS", 200);
    ("android.permission.SEND_SMS", 200);
    ("android.permission.RECEIVE_SMS", 200);
    ("android.permission.CALL_PHONE", 150);
    ("android.permission.READ_CONTACTS", 120);
    ("android.permission.WRITE_CONTACTS", 120);
    ("android.permission.READ_CALL_LOG", 150);
    ("android.permission.WRITE_CALL_LOG", 150);
    ("android.permission.PROCESS_OUTGOING_CALLS", 150);
    ("android.permission.GET_ACCOUNTS", 100);
    ("android.permission.AUTHENTICATE_ACCOUNTS", 100);
    ("android.permission.CAMERA", 80);
    ("android.permission.RECORD_AUDIO", 80);
    ("android.permission.ACCESS_FINE_LOCATION", 70);
    ("android.permission.ACCESS_COARSE_LOCATION", 70);
    ("android.permission.REQUEST_INSTALL_PACKAGES", 90);
    ("android.permission.SYSTEM_ALERT_WINDOW", 100);
    ("android.permission.WRITE_SETTINGS", 80);
    ("android.permission.WRITE_EXTERNAL_STORAGE", 50);
    ("android.permission.READ_EXTERNAL_STORAGE", 50);
    ("android.permission.INTERNET", 10);
    ("android.permission.ACCESS_NETWORK_STATE", 5);
    ("android.permission.VIBRATE", 2);
    ("android.permission.WAKE_LOCK", 5) ].

Definition PERMISSION_SCORES : gmap string Z := list_to_map permission_table.

(** The regular expressions are kept as their source text, in the
    insertion order of the dictionary, which is the order of iteration. *)
Definition MALICIOUS_PATTERNS : list (string * Z) :=
  [ ("exec\(", 200);
    ("runtime\.exec", 200);
    ("getRuntime\(\)\.exec", 200);
    ("su\b", 150);
    ("superuser", 150);
    ("root\b", 150);
    ("cryptography", 50);
    ("encrypt", 50);
    ("decrypt", 50);
    ("base64", 30);
    ("getDeviceId", 100);
    ("getSubscriberId", 100);
    ("getSimSerialNumber", 100);
    ("getLine1Number", 100) ].

Definition known_good_list : list string :=
  [ "google.com"; "googleapis.com"; "gstatic.com"; "firebase.com";
    "facebook.com"; "fbcdn.net"; "apple.com"; "icloud.com";
    "microsoft.com"; "azure.com"; "amazon.com"; "aws.com";
    "twitter.com"; "github.com"; "android.com"; "googletagmanager.com" ].

Definition known_bad_list : list string :=
  [ "malicious-domain.com"; "evil-server.net"; "data-stealer.org" ].

Definition KNOWN_GOOD_DOMAINS : gset string := list_to_set known_good_list.

Definition KNOWN_BAD_DOMAINS : gset string := list_to_set known_bad_list.

(** ** Permission risk model *)

Inductive risk_label := HighRisk | MediumRisk | LowRisk.

Definition risk_label_text (r : risk_label) : string :=
  match r with
  | HighRisk => "High Risk"
  | MediumRisk => "Medium Risk"
  | LowRisk => "Low Risk"
  end.

(** [PERMISSION_SCORES.get(permission, 0)] *)
Definition table_score (permission : string) : Z :=
  default 0 (PERMISSION_SCORES !! permission).

Definition get_permission_risk (permission : string) : risk_label :=
  let score := table_score permission in
  if 100 <=? score then HighRisk
  else if 50 <=? score then MediumRisk
  else LowRisk.

(** The loop of [calculate_permission_score]: one step per permission, on
    the pair of the running sum and the high-risk list. *)
Definition permission_step (acc : Z * list string) (perm : string)
  : Z * list string :=
  let '(score, high_risk_perms) := acc in
  let perm_score := table_score perm in
  (score + perm_score,
   if 100 <=? perm_score then (high_risk_perms ++ [perm])%list
   else high_risk_perms).

Definition calculate_permission_score (permissions : list string)
  : outcome (Z * list string) :=
  let '(score, high_risk_perms) :=
    fold_left permission_step permissions (0, []) in
  k ← F64.float_of_int (Z.of_nat (length high_risk_perms));
  one ← F64.float_of_int 1;
  let risk_multiplier := F64.add one (F64.mul k F64.lit_0_2) in
  s ← F64.float_of_int score;
  n ← F64.trunc (F64.mul s risk_multiplier);
  Ok (n, high_risk_perms).

(** ** Text helpers *)

Definition in_range (lo hi : N) (c : ascii) : bool :=
  let n := N_of_ascii c in (lo <=? n)%N && (n <=? hi)%N.

Definition is_upper (c : ascii) : bool := in_range 65 90 c.
Definition is_lower (c : ascii) : bool := in_range 97 122 c.
Definition is_digit (c : ascii) : bool := in_range 48 57 c.
Definition is_alnum (c : ascii) : bool := is_upper c || is_lower c || is_digit c.

(** [str.lower] on one character: the ASCII capitals and the accented
    capitals 192 to 222, the multiplication sign 215 apart. *)
Definition has_lower (c : ascii) : bool :=
  is_upper c || in_range 192 214 c || in_range 216 222 c.

Definition lower_char (c : ascii) : ascii :=
  if has_lower c then ascii_of_N (N_of_ascii c + 32) else c.

Fixpoint lower (s : string) : string :=
  match s with
  | EmptyString => EmptyString
  | String c r => String (lower_char c) (lower r)
  end.

(** The characters [str.strip] removes: tab to carriage return, the four
    separators 28 to 31, the space, next-line 133 and no-break space 160. *)
Definition is_space (c : ascii) : bool :=
  in_range 9 13 c || in_range 28 32 c || in_range 133 133 c
  || in_range 160 160 c.

Fixpoint lstrip (s : string) : string :=
  match s with
  | EmptyString => EmptyString
  | String c r => if is_space c then lstrip r else s
  end.

Definition strip (s : string) : string :=
  String.rev (lstrip (String.rev (lstrip s))).

(** [package.lower().strip()] *)
Definition normalize (package : string) : string := strip (lower package).

(** [s[len(p):]] when [s.startswith(p)]. *)
Fixpoint strip_prefix (p s : string) : option string :=
  match p, s with
  | EmptyString, _ => Some s
  | String a p', String b s' =>
      if Ascii.eqb a b then strip_prefix p' s' else None
  | String _ _, EmptyString => None
  end.

(** [part in s] *)
Fixpoint contains (part s : string) : bool :=
  match strip_prefix part s with
  | Some _ => true
  | None =>
      match s with
      | EmptyString => false
      | String _ r => contains part r
      end
  end.

(** ** The URL pattern [https?://([a-zA-Z0-9.-]+)[/?]] *)

Definition is_host_char (c : ascii) : bool :=
  is_alnum c || Ascii.eqb c "." || Ascii.eqb c "-".

Definition is_url_end (c : ascii) : bool :=
  Ascii.eqb c "/" || Ascii.eqb c "?".

(** The longest run of host characters at the head, and what follows it. *)
Fixpoint span_host (s : string) : string * string :=
  match s with
  | EmptyString => (EmptyString, EmptyString)
  | String c r =>
      if is_host_char c then
        let '(h, t) := span_host r in (String c h, t)
      else (EmptyString, s)
  end.

(** [https?://] at the head: what follows, and the length consumed. *)
Definition match_scheme (s : string) : option (string * nat) :=
  match strip_prefix "https://" s with
  | Some r => Some (r, 8%nat)
  | None =>
      match strip_prefix "http://" s with
      | Some r => Some (r, 7%nat)
      | None => None
      end
  end.

(** A match of the whole pattern at the head of [s]: the captured host and
    the length of the match.  The host run is greedy, and a shorter run can
    never be followed by [/] or [?] since those are not host characters, so
    backtracking finds nothing the longest run misses. *)
Definition match_url_at (s : string) : option (string * nat) :=
  match match_scheme s with
  | None => None
  | Some (r, n) =>
      match span_host r with
      | (EmptyString, _) => None
      | (host, String c _) =>
          if is_url_end c then Some (host, (n + String.length host + 1)%nat)
          else None
      | (_, EmptyString) => None
      end
  end.

(** [url_pattern.findall(text)]: leftmost matches, none overlapping; [skip]
    counts the characters of the last match still to be passed over. *)
Fixpoint findall_from (skip : nat) (s : string) : list string :=
  match s with
  | EmptyString => []
  | String _ r =>
      match skip with
      | S k => findall_from k r
      | O =>
          match match_url_at s with
          | Some (host, n) => host :: findall_from (Nat.pred n) r
          | None => findall_from 0 r
          end
      end
  end.

Definition findall (text : string) : list string := findall_from 0 text.

(** ** The catalogue patterns, searched with [re.IGNORECASE] *)

Inductive atom :=
| Lit (c : ascii)
| WordBoundary.

(** The fragment of the regular-expression syntax the catalogue uses:
    letters and digits, an escaped punctuation character, and [\b]. *)
Fixpoint compile (p : string) : option (list atom) :=
  match p with
  | EmptyString => Some []
  | String c r =>
      if Ascii.eqb c "\" then
        match r with
        | EmptyString => None
        | String d r' =>
            if Ascii.eqb d "b" then cons WordBoundary <$> compile r'
            else if is_alnum d then None
            else cons (Lit d) <$> compile r'
        end
      else if is_alnum c then cons (Lit c) <$> compile r
      else None
  end.

(** The characters [\w] matches in a [str] pattern. *)
Definition is_word_char (c : ascii) : bool :=
  is_alnum c || Ascii.eqb c "_"
  || in_range 170 170 c || in_range 178 179 c || in_range 181 181 c
  || in_range 185 186 c || in_range 188 190 c || in_range 192 214 c
  || in_range 216 246 c || in_range 248 255 c.

Definition is_word (o : option ascii) : bool :=
  match o with Some c => is_word_char c | None => false end.

Definition head_char (s : string) : option ascii :=
  match s with EmptyString => None | String c _ => Some c end.

(** The atoms match at the head of [s], [prev] being the character before. *)
Fixpoint match_atoms (prev : option ascii) (atoms : list atom) (s : string)
  : bool :=
  match atoms with
  | [] => true
  | Lit c :: atoms' =>
      match s with
      | EmptyString => false
      | String d r =>
          Ascii.eqb (lower_char c) (lower_char d)
          && match_atoms (Some d) atoms' r
      end
  | WordBoundary :: atoms' =>
      xorb (is_word prev) (is_word (head_char s))
      && match_atoms prev atoms' s
  end.

Fixpoint search_from (prev : option ascii) (atoms : list atom) (s : string)
  : bool :=
  match_atoms prev atoms s
  || match s with
     | EmptyString => false
     | String c r => search_from (Some c) atoms r
     end.

(** [re.search(pattern, text, re.IGNORECASE)] as a truth value; [None] when
    the pattern is outside the fragment. *)
Definition re_search (pattern text : string) : option bool :=
  (fun atoms => search_from None atoms text) <$> compile pattern.

(** ** What the package parser hands over *)

(** One entry of [apk.get_strings()], seen through the conversion the two
    scanners apply to it ([s.decode("utf-8", "ignore")] for [bytes], [str(s)]
    otherwise): it yields a text, or it raises. *)
Inductive pool_item :=
| Decoded (text : string)
| Undecoded (e : exn).

Definition certificate := string.

Record apk := MkApk {
  get_permissions : option (list string);
  get_app_name : option string;
  get_package : option string;
  get_androidversion_name : option string;
  get_androidversion_code : option string;
  get_strings : outcome (list pool_item);
  get_certificates : outcome (list certificate)
}.

(** [x or d] on an optional text: [None] and the empty text are false. *)
Definition or_default (x : option string) (d : string) : string :=
  match x with
  | Some (String c r) => String c r
  | _ => d
  end.

(** The handler [except (UnicodeDecodeError, AttributeError): continue]. *)
Definition is_skipped (e : exn) : bool :=
  match exn_kind_of e with
  | UnicodeDecodeError | AttributeError => true
  | _ => false
  end.

(** ** Domain reputation scanner *)

Record url_finding := MkUrl {
  url : string;
  reason : string;
  url_finding_score : Z
}.

(** The body of [for domain in urls]. *)
Definition domain_step (suspicious_urls : list url_finding) (domain : string)
  : list url_finding :=
  if (String.length domain <? 5)%nat then suspicious_urls
  else if bool_decide (domain ∈ KNOWN_BAD_DOMAINS) then
    (suspicious_urls ++ [MkUrl domain "Known malicious domain" 200])%list
  else if bool_decide (domain ∉ KNOWN_GOOD_DOMAINS) then
    if existsb (fun part => contains part domain) ["api"; "cloud"; "server"]
    then (suspicious_urls ++ [MkUrl domain "Suspicious external domain" 50])%list
    else suspicious_urls
  else suspicious_urls.

(** The loop over the string pool.  An entry whose conversion raises one of
    the two handled exceptions is passed over; any other exception reaches
    the outer handler, which keeps what was found so far. *)
Fixpoint urls_loop (pool : list pool_item) (suspicious_urls : list url_finding)
  : list url_finding :=
  match pool with
  | [] => suspicious_urls
  | Decoded text :: rest =>
      urls_loop rest (fold_left domain_step (findall text) suspicious_urls)
  | Undecoded e :: rest =>
      if is_skipped e then urls_loop rest suspicious_urls
      else suspicious_urls
  end.

Definition analyze_urls (a : apk) : list url_finding :=
  match get_strings a with
  | Ok pool => urls_loop pool []
  | Raise _ => []
  end.

(** ** Pattern signal scanner *)

Record pattern_finding := MkPattern {
  pattern : string;
  pattern_finding_score : Z;
  location : string
}.

(** [if re.search(pattern, text, re.IGNORECASE)] *)
Definition re_matches (pat text : string) : bool :=
  match re_search pat text with
  | Some b => b
  | None => false
  end.

(** The body of [for pattern, score in MALICIOUS_PATTERNS.items()]. *)
Definition pattern_step (text : string)
    (suspicious_patterns : list pattern_finding) (entry : string * Z)
  : list pattern_finding :=
  let '(pat, score) := entry in
  if re_matches pat text then
    (suspicious_patterns ++ [MkPattern pat score "APK strings"])%list
  else suspicious_patterns.

Fixpoint code_loop (pool : list pool_item)
    (suspicious_patterns : list pattern_finding) : list pattern_finding :=
  match pool with
  | [] => suspicious_patterns
  | Decoded text :: rest =>
      code_loop rest
        (fold_left (pattern_step text) MALICIOUS_PATTERNS suspicious_patterns)
  | Undecoded e :: rest =>
      if is_skipped e then code_loop rest suspicious_patterns
      else suspicious_patterns
  end.

(** [analyze_code_patterns(apk_path)] opens the package again: [opened] is
    the result of [APK(apk_path)]. *)
Definition analyze_code_patterns (opened : outcome apk) : list pattern_finding :=
  match opened with
  | Ok a =>
      match get_strings a with
      | Ok pool => code_loop pool []
      | Raise _ => []
      end
  | Raise _ => []
  end.

(** ** Certificate risk evaluator *)

Definition calculate_certificate_risk (a : apk) : Z * string :=
  match get_certificates a with
  | Ok (_ :: _) => (0, "Certificate found (basic check)")
  | Ok [] => (100, "No certificate found")
  | Raise e => (75, "Certificate analysis failed: " ++ exn_msg e)%string
  end.

(** ** Allowlist cache *)

(** The document [json.load] returns.  A number is kept as an integer:
    the loop only asks whether it is zero. *)
Local Unset Elimination Schemes.
Inductive json :=
| JNull
| JBool (b : bool)
| JNumber (z : Z)
| JString (s : string)
| JArray (items : list json)
| JObject (members : list (string * json)).
Local Set Elimination Schemes.

(** What reading [safeapps/safe_apps.json] comes to. *)
Inductive safe_apps_source :=
| FileMissing
| FileUnreadable (e : exn)
| FileJson (doc : json).

(** Truth value of a document, as [if package:] takes it. *)
Definition truthy (j : json) : bool :=
  match j with
  | JNull => false
  | JBool b => b
  | JNumber z => negb (z =? 0)
  | JString s => negb (String.eqb s "")
  | JArray items => match items with [] => false | _ => true end
  | JObject members => match members with [] => false | _ => true end
  end.

(** [app.get(key)] on a parsed object: of two members with one key the
    parser keeps the later. *)
Definition members_get (key : string) (members : list (string * json))
  : option json :=
  snd <$> find (fun kv => String.eqb (fst kv) key) (rev members).

(** [for app in safe_apps_json]: what the iteration yields. *)
Definition iterate (doc : json) : outcome (list json) :=
  match doc with
  | JArray items => Ok items
  | JObject members => Ok (map (fun kv => JString (fst kv)) members)
  | JString s =>
      Ok (map (fun c => JString (String c EmptyString)) (list_ascii_of_string s))
  | _ => Raise (MkExn TypeError "object is not iterable")
  end.

(** The body of the loop. *)
Definition safe_app_step (safe_apps : gset string) (app : json)
  : outcome (gset string) :=
  match app with
  | JObject members =>
      match members_get "package" members with
      | None => Ok safe_apps
      | Some package =>
          if truthy package then
            match package with
            | JString p => Ok ({[ normalize p ]} ∪ safe_apps)
            | _ => Raise (MkExn AttributeError "object has no attribute 'lower'")
            end
          else Ok safe_apps
      end
  | _ => Raise (MkExn AttributeError "object has no attribute 'get'")
  end.

Fixpoint safe_apps_loop (apps : list json) (safe_apps : gset string)
  : outcome (gset string) :=
  match apps with
  | [] => Ok safe_apps
  | app :: rest =>
      safe_apps' ← safe_app_step safe_apps app;
      safe_apps_loop rest safe_apps'
  end.

(** The calls of [analyze_apk] to its collaborators and stages. *)
Inductive call :=
| CallPathExists
| CallAPK
| CallHash
| CallLoadSafeApps
| CallPermissionScore
| CallAnalyzeUrls
| CallCodePatterns
| CallCertificateRisk.

(** The module's mutable state, the number of clock readings made, and the
    calls made so far. *)
Record machine := MkMachine {
  _safe_apps_cache : option (gset string);
  _safe_apps_last_loaded : option Z;
  clock_reads : nat;
  calls : list call
}.

(** What lies outside the program.  Times are in microseconds, the
    resolution of [datetime]; [now n] is the [n]-th reading of the clock. *)
Record world := MkWorld {
  now : nat -> Z;
  path_exists : string -> bool;
  open_apk : string -> outcome apk;
  file_sha256 : string -> outcome string;
  safe_apps_json : safe_apps_source
}.

Definition M (A : Type) : Type := machine -> outcome A * machine.

Global Instance M_ret : MRet M := fun A a m => (Ok a, m).
Global Instance M_bind : MBind M := fun A B k c m =>
  match c m with
  | (Ok a, m') => k a m'
  | (Raise e, m') => (Raise e, m')
  end.

Definition lift {A} (o : outcome A) : M A := fun m => (o, m).

Definition record_call (c : call) : M unit :=
  fun m =>
    (Ok tt, MkMachine (_safe_apps_cache m) (_safe_apps_last_loaded m)
              (clock_reads m) (calls m ++ [c])).

(** [datetime.now()] *)
Definition read_clock (w : world) : M Z :=
  fun m =>
    (Ok (now w (clock_reads m)),
     MkMachine (_safe_apps_cache m) (_safe_apps_last_loaded m)
       (S (clock_reads m)) (calls m)).

Definition store_cache (safe_apps : gset string) (t : Z) : M unit :=
  fun m => (Ok tt, MkMachine (Some safe_apps) (Some t) (clock_reads m) (calls m)).

(** Five minutes. *)
Definition ttl_microseconds : Z := 300 * 1000000.

(** The [try] block of [load_safe_apps]. *)
Definition refresh (w : world) : M (gset string) :=
  match safe_apps_json w with
  | FileMissing => mret ∅
  | FileUnreadable e => lift (Raise e)
  | FileJson doc =>
      safe_apps ← lift (apps ← iterate doc; safe_apps_loop apps ∅);
      t ← read_clock w;
      store_cache safe_apps t;;
      mret safe_apps
  end.

(** [except Exception as e: ... return set()] *)
Definition or_empty (c : M (gset string)) : M (gset string) :=
  fun m =>
    match c m with
    | (Raise _, m') => (Ok ∅, m')
    | r => r
    end.

(** The cached set is used while it is younger than [ttl_microseconds]; the
    clock is read only when both globals are set. *)
Definition load_safe_apps (w : world) : M (gset string) :=
  fun m =>
    match _safe_apps_cache m, _safe_apps_last_loaded m with
    | Some cache, Some loaded =>
        (t ← read_clock w;
         if t - loaded <? ttl_microseconds then mret cache
         else or_empty (refresh w)) m
    | _, _ => or_empty (refresh w) m
    end.

(** ** Risk aggregator *)

Inductive risk_level :=
| Dangerous
| PotentiallyRisky
| ModerateRisk
| LikelySafe.

Definition risk_level_text (r : risk_level) : string :=
  match r with
  | Dangerous => "Dangerous"
  | PotentiallyRisky => "Potentially Risky"
  | ModerateRisk => "Moderate Risk"
  | LikelySafe => "Likely Safe"
  end.

(** [max(0, x)] for a float [x]: the first argument is kept unless [x > 0]. *)
Definition max_0 (x : F64.float) : pynum :=
  if py_gt (PyFloat x) 0 then PyFloat x else PyInt 0.

(** The safe-app discount: the total and the note that goes with it. *)
Definition apply_discount (is_known_safe_app : bool) (total_score : Z)
  : outcome (pynum * string) :=
  if is_known_safe_app then
    t ← F64.float_of_int total_score;
    Ok (max_0 (F64.mul t F64.lit_0_3), "Known safe app (score reduced)")
  else Ok (PyInt total_score, "Unknown app").

Definition determine_risk_level (total_score : pynum) : risk_level :=
  if py_gt total_score 500 then Dangerous
  else if py_gt total_score 200 then PotentiallyRisky
  else if py_gt total_score 50 then ModerateRisk
  else LikelySafe.

Record scan_report := MkReport {
  app_name : string;
  package : string;
  version : string;
  apk_hash : string;
  permissions : list (string * risk_label);
  permission_score : Z;
  url_score : Z;
  code_analysis_score : Z;
  certificate_score : Z;
  certificate_notes : string;
  total_score : Z;
  overall_risk : risk_level;
  risk_note : string;
  high_risk_permissions : list string;
  suspicious_urls : list url_finding;
  suspicious_code_patterns : list pattern_finding;
  is_known_safe_app : bool;
  analysis_timestamp : Z;
  false_positive_reported : bool
}.

(** What [analyze_apk] returns: the report, or the dictionary with the one
    key ["error"]. *)
Inductive analysis :=
| Report (r : scan_report)
| ErrorRecord (error : string).

(** [sum(f['score'] for f in findings)] *)
Definition sum_scores {A} (score : A -> Z) (findings : list A) : Z :=
  fold_left (fun acc f => acc + score f) findings 0.

(** The body of the [try] block of [analyze_apk]. *)
Definition analyze_apk_body (w : world) (apk_path : string) : M analysis :=
  record_call CallPathExists;;
  if negb (path_exists w apk_path) then
    mret (ErrorRecord ("APK file not found: " ++ apk_path)%string)
  else
    a ← (record_call CallAPK;; lift (open_apk w apk_path));
    let permissions := default [] (get_permissions a) in
    let app_name := or_default (get_app_name a) "Unknown" in
    let package_name := or_default (get_package a) "Unknown" in
    let version_name := or_default (get_androidversion_name a) "Unknown" in
    let version_code := or_default (get_androidversion_code a) "Unknown" in
    if String.eqb package_name "Unknown" then
      mret (ErrorRecord "Could not extract package name from APK")
    else
      apk_hash ← (record_call CallHash;; lift (file_sha256 w apk_path));
      safe_apps ← (record_call CallLoadSafeApps;; load_safe_apps w);
      let normalized_package := normalize package_name in
      let is_known_safe_app := bool_decide (normalized_package ∈ safe_apps) in
      scored ← (record_call CallPermissionScore;;
                lift (calculate_permission_score permissions));
      let '(permission_score, high_risk_perms) := scored in
      suspicious_urls ← (record_call CallAnalyzeUrls;; mret (analyze_urls a));
      let url_score := sum_scores url_finding_score suspicious_urls in
      code_patterns ← (record_call CallCodePatterns;;
                       mret (analyze_code_patterns (open_apk w apk_path)));
      let code_score := sum_scores pattern_finding_score code_patterns in
      cert ← (record_call CallCertificateRisk;;
              mret (calculate_certificate_risk a));
      let '(cert_score, cert_reason) := cert in
      let total_score := permission_score + url_score + code_score + cert_score in
      discounted ← lift (apply_discount is_known_safe_app total_score);
      let '(total_score, risk_note) := discounted in
      let risk_level := determine_risk_level total_score in
      total_int ← lift (py_int total_score);
      timestamp ← read_clock w;
      mret (Report
        {| app_name := app_name;
           package := package_name;
           version := (version_name ++ " (" ++ version_code ++ ")")%string;
           apk_hash := apk_hash;
           permissions := map (fun p => (p, get_permission_risk p)) permissions;
           permission_score := permission_score;
           url_score := url_score;
           code_analysis_score := code_score;
           certificate_score := cert_score;
           certificate_notes := cert_reason;
           total_score := total_int;
           overall_risk := risk_level;
           risk_note := risk_note;
           high_risk_permissions := high_risk_perms;
           suspicious_urls := suspicious_urls;
           suspicious_code_patterns := code_patterns;
           is_known_safe_app := is_known_safe_app;
           analysis_timestamp := timestamp;
           false_positive_reported := false |}).

(** [analyze_apk]: an exception anywhere in the body becomes the error
    record carrying its message. *)
Definition analyze_apk (w : world) (apk_path : string) (m : machine)
  : analysis * machine :=
  match analyze_apk_body w apk_path m with
  | (Ok result, m') => (result, m')
  | (Raise e, m') => (ErrorRecord (exn_msg e), m')
  end.

(** ** The scanners as the specification words them *)

(** The texts a scan goes through: the entries whose conversion yields a
    text, up to the first entry whose conversion raises an exception the
    loop does not handle. *)
Fixpoint scanned_texts (pool : list pool_item) : list string :=
  match pool with
  | [] => []
  | Decoded text :: rest => text :: scanned_texts rest
  | Undecoded e :: rest => if is_skipped e then scanned_texts rest else []
  end.

(** The findings for one host, first match wins: too short, nothing; known
    bad, one finding of 200; not known good and with a suspicious
    substring, one finding of 50; nothing otherwise. *)
Definition classify_domain (domain : string) : list url_finding :=
  if (String.length domain <? 5)%nat then []
  else if bool_decide (domain ∈ KNOWN_BAD_DOMAINS) then
    [MkUrl domain "Known malicious domain" 200]
  else if bool_decide (domain ∉ KNOWN_GOOD_DOMAINS)
          && (contains "api" domain || contains "cloud" domain
              || contains "server" domain) then
    [MkUrl domain "Suspicious external domain" 50]
  else [].

(** Every character is one of [[a-zA-Z0-9.-]]. *)
Fixpoint all_host_chars (s : string) : bool :=
  match s with
  | EmptyString => true
  | String c r => is_host_char c && all_host_chars r
  end.

(** The findings one text contributes to the pattern scan: one for each
    catalogue pattern that matches it, in catalogue order. *)
Definition pattern_findings (text : string) : list pattern_finding :=
  map (fun entry => MkPattern (fst entry) (snd entry) "APK strings")
    (List.filter (fun entry => re_matches (fst entry) text) MALICIOUS_PATTERNS).

(** The calls of a run that ends with a report, in order. *)
Definition all_calls : list call :=
  [ CallPathExists; CallAPK; CallHash; CallLoadSafeApps;
    CallPermissionScore; CallAnalyzeUrls; CallCodePatterns;
    CallCertificateRisk ].

(** ** The permission score as the specification words it *)

(** The sum of the table scores. *)
Definition raw_sum (permissions : list string) : Z :=
  fold_right Z.add 0 (map table_score permissions).

(** The permissions of score at least 100, in the order of the input. *)
Definition high_risk (permissions : list string) : list string :=
  List.filter (fun p => 100 <=? table_score p) permissions.

(** [int(raw * (1 + 0.2 * k))], evaluated as Python evaluates it. *)
Definition amplified (raw k : Z) : outcome Z :=
  kf ← F64.float_of_int k;
  one ← F64.float_of_int 1;
  rf ← F64.float_of_int raw;
  F64.trunc (F64.mul rf (F64.add one (F64.mul F64.lit_0_2 kf))).

(** ** A refresh that fails *)

(** The refresh attempt fails: the file is missing, cannot be read or
    parsed, or the loop over the parsed document raises. *)
Definition refresh_fails (w : world) : Prop :=
  match safe_apps_json w with
  | FileMissing | FileUnreadable _ => True
  | FileJson doc => is_ok (apps ← iterate doc; safe_apps_loop apps ∅) = false
  end.

(** A cache loaded at time 0, and a world 400 seconds later in which the
    safe-apps file is gone. *)
Definition stale_machine : machine :=
  MkMachine (Some {[ "com.bank.app" ]}) (Some 0) 0 [].

Definition world_without_file : world :=
  MkWorld (fun _ => 400 * 1000000) (fun _ => false)
    (fun _ => Raise (MkExn OSError "no such file"))
    (fun _ => Raise (MkExn OSError "no such file"))
    FileMissing.

(** A package whose identifier the parser cannot give. *)
Definition nameless_apk : apk :=
  MkApk (Some ["android.permission.READ_SMS"]) (Some "Bank") None
    (Some "1.0") (Some "1") (Ok [Decoded "exec("]) (Ok []).

Definition world_with_nameless_apk : world :=
  MkWorld (fun _ => 0) (fun _ => true) (fun _ => Ok nameless_apk)
    (fun _ => Ok "00") FileMissing.

(** ** What rounding guarantees *)

(** The result of rounding the positive number [m * 2^e] that lies in the
    normal range: finite, no smaller in exponent, at most one and a half
    times the number, and the number itself when its mantissa already fits;
    or an infinity, when the exponent leaves the range. *)
Definition bra_post (m : positive) (e : Z) (r : spec_float) : Prop :=
  let d := Z.pos (digits2_pos m) in
  match r with
  | S754_finite s m' e' =>
      s = false /\ Z.pos (digits2_pos m') <= 53 /\ e <= e' <= 971
      /\ e' <= Z.max e (d + e - 52)
      /\ 2 * (Z.pos m' * 2 ^ (e' - e)) <= 3 * Z.pos m
      /\ (d <= 53 -> m' = m /\ e' = e)
  | S754_infinity s => s = false /\ 971 < Z.max e (d + e - 52)
  | _ => False
  end.

(** The double of a positive integer [T]: at most one and a half times
    [T], or an infinity when [T] is beyond the range. *)
Definition of_Z_post (T : Z) (x : spec_float) : Prop :=
  match x with
  | S754_finite s mx ex =>
      s = false /\ Z.pos (digits2_pos mx) <= 53 /\ -52 <= ex <= 971
      /\ 2 * (Z.pos mx * 2 ^ (ex + 52)) <= 3 * (T * 2 ^ 52)
  | S754_infinity s => 2 ^ 1023 <= T
  | _ => False
  end.

(** The product of the double [mx * 2^ex] by the double [c * 2^-54]. *)
Definition mul_post (mx : positive) (ex : Z) (c : positive) (r : spec_float)
  : Prop :=
  match r with
  | S754_finite s m' e' =>
      s = false /\ ex - 54 <= e' <= 971
      /\ 2 * (Z.pos m' * 2 ^ (e' - (ex - 54))) <= 3 * (Z.pos mx * Z.pos c)
  | _ => False
  end.

Definition py_is_nan (x : pynum) : bool :=
  match x with
  | PyInt _ => false
  | PyFloat f => F64.is_nan f
  end.

Definition py_is_finite (x : pynum) : bool :=
  match x with
  | PyInt _ => true
  | PyFloat f => F64.is_finite f
  end.

(** A positive finite double whose exponent is at least [lo] and whose
    magnitude (digits plus exponent) is at most [hi]. *)
Definition pos_fin (lo hi : Z) (f : spec_float) : Prop :=
  match f with
  | S754_finite false m e =>
      Z.pos (digits2_pos m) <= 53 /\ lo <= e /\ Z.pos (digits2_pos m) + e <= hi
  | _ => False
  end.

(** ** A sample run *)

(** A package with two SMS permissions, one suspicious URL, one undecodable
    pool entry, three pattern hits, and a signing block that cannot be read. *)
Definition sample_apk : apk :=
  MkApk
    (Some ["android.permission.READ_SMS"; "android.permission.SEND_SMS"])
    (Some "Bank") (Some " Com.Bank.App") (Some "1.0") (Some "7")
    (Ok [Decoded "http://api.example-server.com/data";
         Undecoded (MkExn UnicodeDecodeError "invalid start byte");
         Decoded "Runtime.exec(su)"])
    (Raise (MkExn ValueError "malformed signing block")).

(** The allowlist file lists the package, in another case and padded. *)
Definition sample_world : world :=
  MkWorld (fun n => Z.of_nat n) (fun _ => true) (fun _ => Ok sample_apk)
    (fun _ => Ok "9f86d081884c7d65")
    (FileJson (JArray [JObject [("package", JString "com.bank.APP  ")];
                       JObject [("name", JString "no package")]])).

Definition fresh_machine : machine := MkMachine None None 0 [].

(** ** The allowlist as a reader of the file sees it *)

(** An entry the loop of [load_safe_apps] gets through: an object whose
    ["package"], when present and true, is a text. *)
Definition entry_ok (app : json) : bool :=
  match app with
  | JObject members =>
      match members_get "package" members with
      | Some (JString _) | None => true
      | Some package => negb (truthy package)
      end
  | _ => false
  end.

(** [q] is the normal form of a non-empty ["package"] text of an entry. *)
Definition listed (apps : list json) (q : string) : Prop :=
  exists (members : list (string * json)) (p : string),
    In (JObject members) apps
    /\ members_get "package" members = Some (JString p)
    /\ p <> ""
    /\ q = normalize p.

(** The test [load_safe_apps] makes before it uses the cache, at the next
    reading of the clock. *)
Definition cache_valid (w : world) (m : machine) : bool :=
  match _safe_apps_cache m, _safe_apps_last_loaded m with
  | Some _, Some loaded => now w (clock_reads m) - loaded <? ttl_microseconds
  | _, _ => false
  end.

(** The two globals are set together. *)
Definition globals_paired (m : machine) : Prop :=
  is_Some (_safe_apps_cache m) <-> is_Some (_safe_apps_last_loaded m).

(** A world 100 seconds after the start in which the allowlist file is
    gone. *)
Definition world_without_file_later : world :=
  MkWorld (fun _ => 100 * 1000000) (fun _ => false)
    (fun _ => Raise (MkExn OSError "no such file"))
    (fun _ => Raise (MkExn OSError "no such file"))
    FileMissing.

(** Every character is one [str.strip] removes. *)
Fixpoint all_space (s : string) : bool :=
  match s with
  | EmptyString => true
  | String c r => is_space c && all_space r
  end.

(** The last character. *)
Fixpoint last_char (s : string) : option ascii :=
  match s with
  | EmptyString => None
  | String c EmptyString => Some c
  | String _ r => last_char r
  end.

(** No character is an ASCII capital. *)
Fixpoint no_upper (s : string) : bool :=
  match s with
  | EmptyString => true
  | String c r => negb (is_upper c) && no_upper r
  end.

(** ** Pools and packages for the scanners *)

(** The package with another string pool. *)
Definition with_strings (a : apk) (pool : outcome (list pool_item)) : apk :=
  MkApk (get_permissions a) (get_app_name a) (get_package a)
    (get_androidversion_name a) (get_androidversion_code a) pool
    (get_certificates a).


(** ** Reading a report *)

Definition is_high (label : risk_label) : bool :=
  match label with HighRisk => true | _ => false end.



(** ** Rounding to nearest, in full *)

(** The record holds [M] shifted right by [j] bits: the quotient, the bit
    shifted out last, and whether any bit below it was set. *)
Definition shifted (M j : Z) (mrs : shr_record) : Prop :=
  0 <= shr_m mrs
  /\ exists v : Z,
       2 * M = 2 * (shr_m mrs * 2 ^ j) + (if shr_r mrs then 2 ^ j else 0) + v
       /\ 0 <= v < 2 ^ j
       /\ (shr_s mrs = true <-> 0 < v).

(** The double nearest to [m * 2^e], for a mantissa of 53 digits or more in
    the normal range: a mantissa of exactly 53 digits, at most half a unit
    of the last kept place away. *)
Definition nearest (m : positive) (e : Z) (r : spec_float) : Prop :=
  let d := Z.pos (digits2_pos m) in
  match r with
  | S754_finite s m' e' =>
      s = false /\ Z.pos (digits2_pos m') = 53
      /\ (e' = e + d - 53 \/ e' = e + d - 52) /\ e' <= 971
      /\ 2 * Z.pos m - 2 ^ (d - 53) <= 2 * (Z.pos m' * 2 ^ (e' - e))
         <= 2 * Z.pos m + 2 ^ (d - 53)
  | S754_infinity s => s = false /\ 971 <= e + d - 53
  | _ => False
  end.

(** ** Signs *)

(** Zero, not a number, or a positive double or infinity. *)
Definition not_negative (f : F64.float) : bool :=
  match f with
  | S754_finite true _ _ | S754_infinity true => false
  | _ => true
  end.

(** The report of the sample run, and the machine it leaves. *)
Definition sample_report : scan_report :=
  {| app_name := "Bank";
     package := " Com.Bank.App";
     version := "1.0 (7)";
     apk_hash := "9f86d081884c7d65";
     permissions := [("android.permission.READ_SMS", HighRisk);
                     ("android.permission.SEND_SMS", HighRisk)];
     permission_score := 560;
     url_score := 50;
     code_analysis_score := 550;
     certificate_score := 75;
     certificate_notes :=
       "Certificate analysis failed: malformed signing block";
     total_score := 370;
     overall_risk := PotentiallyRisky;
     risk_note := "Known safe app (score reduced)";
     high_risk_permissions := ["android.permission.READ_SMS";
                               "android.permission.SEND_SMS"];
     suspicious_urls :=
       [MkUrl "api.example-server.com" "Suspicious external domain" 50];
     suspicious_code_patterns :=
       [MkPattern "exec\(" 200 "APK strings";
        MkPattern "runtime\.exec" 200 "APK strings";
        MkPattern "su\b" 150 "APK strings"];
     is_known_safe_app := true;
     analysis_timestamp := 1;
     false_positive_reported := false |}.

Definition sample_machine : machine :=
  snd (analyze_apk sample_world "bank.apk" fresh_machine).

(** An allowlisted package whose four scores sum to 1667: three low-risk
    permissions (17), one suspicious URL (50), eight texts that match
    [exec\(] (1600) and a certificate (0). *)
Definition boundary_apk : apk :=
  MkApk
    (Some ["android.permission.INTERNET";
           "android.permission.ACCESS_NETWORK_STATE";
           "android.permission.VIBRATE"])
    (Some "Bank") (Some "com.bank.app") (Some "1.0") (Some "7")
    (Ok (Decoded "http://api.example-server.com/data"
         :: repeat (Decoded "exec(") 8))
    (Ok ["certificate"]).

Definition boundary_world : world :=
  MkWorld (fun n => Z.of_nat n) (fun _ => true) (fun _ => Ok boundary_apk)
    (fun _ => Ok "9f86d081884c7d65")
    (FileJson (JArray [JObject [("package", JString "com.bank.app")]])).

(** The reported total agrees with the comparisons the tier was computed
    from, up to the fraction [int] drops. *)
Definition agrees (total : pynum) (n : Z) : Prop :=
  forall c : Z,
    c = 500 \/ c = 200 \/ c = 50 ->
    (py_gt total c = true -> c <= n) /\ (c < n -> py_gt total c = true).

(** ** Proof steps *)

(** One step through the body of [analyze_apk], the stages left folded. *)
Ltac step_run :=
  cbn -[analyze_code_patterns sum_scores calculate_certificate_risk
        apply_discount py_int determine_risk_level analyze_urls normalize
        calculate_permission_score String.eqb or_default].

(** Unfold the sequencing of the state monad. *)
Ltac unfold_run :=
  unfold mbind, M_bind, mret, M_ret, lift, record_call.

(** * Properties *)

Example lit_0_2_nearest : F64.div (F64.of_Z 2) (F64.of_Z 10) = F64.lit_0_2.
Proof. vm_compute. reflexivity. Qed.

Example lit_0_3_nearest : F64.div (F64.of_Z 3) (F64.of_Z 10) = F64.lit_0_3.
Proof. vm_compute. reflexivity. Qed.

Example sms_pair_score :
  calculate_permission_score
    ["android.permission.READ_SMS"; "android.permission.SEND_SMS"]
  = Ok (560, ["android.permission.READ_SMS"; "android.permission.SEND_SMS"]).
Proof. vm_compute. reflexivity. Qed.

Example findall_two :
  findall "see http://api.example-server.com/data and https://a.b?x http://x y"
  = ["api.example-server.com"; "a.b"].
Proof. vm_compute. reflexivity. Qed.

Example search_su :
  (re_search "su\b" "sudo", re_search "su\b" "run SU now",
   re_search "exec\(" "Runtime.EXEC(cmd)", re_search "a|b" "a")
  = (Some false, Some true, Some true, None).
Proof. vm_compute. reflexivity. Qed.

Example normalize_ex : normalize "  Com.Bank.App " = "com.bank.app".
Proof. vm_compute. reflexivity. Qed.

(** ** Permission tiers *)

Lemma table_score_absent (p : string) :
  PERMISSION_SCORES !! p = None -> table_score p = 0.
Proof. unfold table_score. intros ->. reflexivity. Qed.

(** C10.  The annotation [get_permission_risk] gives a permission is
    "High Risk" exactly when its table score is at least 100, "Medium Risk"
    exactly when the score is at least 50 and below 100, and "Low Risk"
    exactly when it is below 50; a permission the table does not list scores
    0 and is "Low Risk". *)
Theorem get_permission_risk_thresholds (p : string) :
  (risk_label_text (get_permission_risk p) = "High Risk"
     <-> 100 <= table_score p)
  /\ (risk_label_text (get_permission_risk p) = "Medium Risk"
     <-> 50 <= table_score p < 100)
  /\ (risk_label_text (get_permission_risk p) = "Low Risk"
     <-> table_score p < 50)
  /\ (PERMISSION_SCORES !! p = None ->
      table_score p = 0 /\ get_permission_risk p = LowRisk).
Proof.
  unfold get_permission_risk.
  split; [|split; [|split]].
  4: { intros Habs. rewrite (table_score_absent p Habs). split; reflexivity. }
  all: generalize (table_score p); intros z;
    destruct (Z.leb_spec 100 z); destruct (Z.leb_spec 50 z);
    cbn [risk_label_text]; split; intros Hx;
    try discriminate; try lia; try reflexivity.
Qed.

Example get_permission_risk_samples :
  map get_permission_risk
    ["android.permission.GET_ACCOUNTS"; "android.permission.REQUEST_INSTALL_PACKAGES";
     "android.permission.READ_EXTERNAL_STORAGE"; "android.permission.INTERNET";
     "com.example.UNLISTED"]
  = [HighRisk; MediumRisk; MediumRisk; LowRisk; LowRisk].
Proof. vm_compute. reflexivity. Qed.

(** ** Certificate risk *)

Lemma append_nil_l (s : string) : ("" ++ s)%string = s.
Proof. reflexivity. Qed.

Lemma append_cons (c : ascii) (q s : string) :
  (String c q ++ s)%string = String c (q ++ s).
Proof. reflexivity. Qed.

Lemma append_nil_r (s : string) : (s ++ "")%string = s.
Proof.
  induction s as [|c s IH]; [reflexivity|].
  rewrite append_cons, IH. reflexivity.
Qed.

Lemma strip_prefix_app (p r : string) : strip_prefix p (p ++ r) = Some r.
Proof.
  induction p as [|c p IH].
  - rewrite append_nil_l. destruct r; reflexivity.
  - rewrite append_cons. simpl. rewrite Ascii.eqb_refl. exact IH.
Qed.

Lemma contains_unfold (p s : string) :
  contains p s =
  match strip_prefix p s with
  | Some _ => true
  | None => match s with EmptyString => false | String _ r => contains p r end
  end.
Proof. destruct s; reflexivity. Qed.

Lemma contains_later (p q r : string) : contains p (q ++ p ++ r) = true.
Proof.
  induction q as [|c q IH].
  - rewrite append_nil_l, contains_unfold, strip_prefix_app. reflexivity.
  - rewrite append_cons, contains_unfold.
    destruct (strip_prefix p (String c (q ++ p ++ r))); auto.
Qed.

Lemma contains_suffix (p q : string) : contains p (q ++ p) = true.
Proof.
  rewrite <- (append_nil_r p) at 2. apply contains_later.
Qed.

(** C5.  [calculate_certificate_risk] returns one of three results,
    decided by the certificate state alone: score 0 with the note
    "Certificate found (basic check)" when there is a certificate, score 100
    with "No certificate found" when the list is empty, and score 75 with a
    note that contains the failure reason when the extraction raises.  It
    returns in each case: the exception does not leave the function. *)
Theorem calculate_certificate_risk_cases (a : apk) :
  match get_certificates a with
  | Ok (_ :: _) =>
      calculate_certificate_risk a = (0, "Certificate found (basic check)")
  | Ok [] => calculate_certificate_risk a = (100, "No certificate found")
  | Raise e =>
      fst (calculate_certificate_risk a) = 75
      /\ contains (exn_msg e) (snd (calculate_certificate_risk a)) = true
  end.
Proof.
  unfold calculate_certificate_risk.
  destruct (get_certificates a) as [[|c cs]|e]; try reflexivity.
  split; [reflexivity|]. cbn [snd]. apply contains_suffix.
Qed.

(** ** Domain reputation scanner *)

Lemma domain_step_classify (acc : list url_finding) (d : string) :
  domain_step acc d = (acc ++ classify_domain d)%list.
Proof.
  unfold domain_step, classify_domain.
  destruct (String.length d <? 5)%nat; [now rewrite List.app_nil_r|].
  destruct (bool_decide (d ∈ KNOWN_BAD_DOMAINS)); [reflexivity|].
  destruct (bool_decide (d ∉ KNOWN_GOOD_DOMAINS)); cbn [andb existsb].
  - rewrite orb_false_r, orb_assoc.
    destruct (contains "api" d || contains "cloud" d || contains "server" d);
      [reflexivity|now rewrite List.app_nil_r].
  - now rewrite List.app_nil_r.
Qed.

Lemma fold_domain_step (ds : list string) (acc : list url_finding) :
  fold_left domain_step ds acc = (acc ++ flat_map classify_domain ds)%list.
Proof.
  revert acc. induction ds as [|d ds IH]; intros acc; cbn [fold_left flat_map].
  - now rewrite List.app_nil_r.
  - rewrite IH, domain_step_classify, <- List.app_assoc. reflexivity.
Qed.

Lemma urls_loop_flat_map (pool : list pool_item) (acc : list url_finding) :
  urls_loop pool acc
  = (acc ++ flat_map (fun text => flat_map classify_domain (findall text))
              (scanned_texts pool))%list.
Proof.
  revert acc. induction pool as [|[text|e] rest IH]; intros acc;
    cbn [urls_loop scanned_texts flat_map].
  - now rewrite List.app_nil_r.
  - rewrite IH, fold_domain_step, <- List.app_assoc. reflexivity.
  - destruct (is_skipped e); [apply IH|now rewrite List.app_nil_r].
Qed.





Lemma append_assoc' (s1 s2 s3 : string) :
  ((s1 ++ s2) ++ s3)%string = (s1 ++ s2 ++ s3)%string.
Proof.
  induction s1 as [|c s1 IH]; [reflexivity|].
  rewrite !append_cons, IH. reflexivity.
Qed.




Lemma elem_of_known_good (d : string) :
  d ∈ KNOWN_GOOD_DOMAINS <-> d ∈ known_good_list.
Proof. unfold KNOWN_GOOD_DOMAINS. apply elem_of_list_to_set. Qed.

Lemma elem_of_known_bad (d : string) :
  d ∈ KNOWN_BAD_DOMAINS <-> d ∈ known_bad_list.
Proof. unfold KNOWN_BAD_DOMAINS. apply elem_of_list_to_set. Qed.

Lemma known_lists_disjoint :
  Forall (fun x : string => x ∉ known_bad_list) known_good_list.
Proof. apply (bool_decide_unpack _). vm_compute. exact I. Qed.

Lemma known_sets_disjoint : KNOWN_GOOD_DOMAINS ## KNOWN_BAD_DOMAINS.
Proof.
  apply elem_of_disjoint. intros d Hg Hb.
  apply elem_of_known_good in Hg. apply elem_of_known_bad in Hb.
  exact (proj1 (Forall_forall _ _) known_lists_disjoint d Hg Hb).
Qed.

Lemma classify_domain_url (d : string) (f : url_finding) :
  In f (classify_domain d) ->
  url f = d /\ (d ∈ KNOWN_BAD_DOMAINS \/ d ∉ KNOWN_GOOD_DOMAINS).
Proof.
  unfold classify_domain.
  destruct (String.length d <? 5)%nat; [intros []|].
  destruct (bool_decide (d ∈ KNOWN_BAD_DOMAINS)) eqn:Hb.
  - intros [<-|[]]. apply bool_decide_eq_true in Hb. auto.
  - destruct (bool_decide (d ∉ KNOWN_GOOD_DOMAINS)) eqn:Hg; cbn [andb].
    + apply bool_decide_eq_true in Hg.
      destruct (contains "api" d || contains "cloud" d || contains "server" d).
      * intros [<-|[]]. auto.
      * intros [].
    + intros [].
Qed.

Lemma analyze_urls_flat_map (a : apk) (pool : list pool_item) :
  get_strings a = Ok pool ->
  analyze_urls a
  = flat_map (fun text => flat_map classify_domain (findall text))
      (scanned_texts pool).
Proof.
  unfold analyze_urls. intros ->. now rewrite urls_loop_flat_map.
Qed.


Example analyze_urls_scenario :
  analyze_urls
    (MkApk None None None None None
       (Ok [Decoded "http://api.example-server.com/data";
            Decoded "https://evil-server.net/x http://a.io/ http://www.googleapis.com?k";
            Decoded "ftp://api.example.com/ http://googleapis.com/v1"])
       (Ok []))
  = [MkUrl "api.example-server.com" "Suspicious external domain" 50;
     MkUrl "evil-server.net" "Known malicious domain" 200;
     MkUrl "www.googleapis.com" "Suspicious external domain" 50].
Proof. vm_compute. reflexivity. Qed.

(** C7.  The known-good and known-bad sets are disjoint, so a host of the
    known-good set leaves the findings as they were, whatever substrings it
    contains (googleapis.com contains "api"), and no finding the scanner
    returns names a host of the known-good set. *)
Theorem known_good_never_flagged :
  KNOWN_GOOD_DOMAINS ## KNOWN_BAD_DOMAINS
  /\ (forall (acc : list url_finding) (d : string),
      d ∈ KNOWN_GOOD_DOMAINS -> domain_step acc d = acc)
  /\ (forall (a : apk) (f : url_finding),
      In f (analyze_urls a) -> url f ∉ KNOWN_GOOD_DOMAINS)
  /\ ("googleapis.com" ∈ KNOWN_GOOD_DOMAINS
      /\ contains "api" "googleapis.com" = true
      /\ domain_step [] "googleapis.com" = []).
Proof.
  assert (Hd := known_sets_disjoint).
  split; [exact Hd|]. split; [|split].
  - intros acc d Hg. unfold domain_step.
    destruct (String.length d <? 5)%nat; [reflexivity|].
    rewrite bool_decide_eq_false_2.
    + rewrite bool_decide_eq_false_2; [reflexivity|]. intros Hn. exact (Hn Hg).
    + intros Hb. exact (proj1 (elem_of_disjoint _ _) Hd d Hg Hb).
  - intros a f Hin Hg. unfold analyze_urls in Hin.
    destruct (get_strings a) as [pool|e]; [|destruct Hin].
    rewrite urls_loop_flat_map in Hin. cbn [app] in Hin.
    apply in_flat_map in Hin as (text & _ & Hin).
    apply in_flat_map in Hin as (d & _ & Hin).
    apply classify_domain_url in Hin as (<- & [Hb | Hn]).
    + exact (proj1 (elem_of_disjoint _ _) Hd _ Hg Hb).
    + exact (Hn Hg).
  - split; [|split].
    + apply elem_of_known_good. apply (bool_decide_unpack _). vm_compute. exact I.
    + vm_compute. reflexivity.
    + vm_compute. reflexivity.
Qed.

(** ** Pattern signal scanner *)

Lemma fold_pattern_step (text : string) (catalogue : list (string * Z))
    (acc : list pattern_finding) :
  fold_left (pattern_step text) catalogue acc
  = (acc ++ map (fun entry => MkPattern (fst entry) (snd entry) "APK strings")
             (List.filter (fun entry => re_matches (fst entry) text) catalogue))%list.
Proof.
  revert acc. induction catalogue as [|[pat score] rest IH]; intros acc.
  - cbn. now rewrite List.app_nil_r.
  - cbn [fold_left pattern_step]. rewrite IH. cbn [List.filter fst snd].
    destruct (re_matches pat text); [|reflexivity].
    cbn [map fst snd]. now rewrite <- List.app_assoc.
Qed.

Lemma code_loop_flat_map (pool : list pool_item) (acc : list pattern_finding) :
  code_loop pool acc
  = (acc ++ flat_map pattern_findings (scanned_texts pool))%list.
Proof.
  revert acc. induction pool as [|[text|e] rest IH]; intros acc;
    cbn [code_loop scanned_texts flat_map].
  - now rewrite List.app_nil_r.
  - rewrite IH, fold_pattern_step, <- List.app_assoc. reflexivity.
  - destruct (is_skipped e); [apply IH|now rewrite List.app_nil_r].
Qed.

(** Every pattern of the catalogue lies in the fragment [compile] reads. *)
Lemma catalogue_compiles :
  forallb (fun entry => match compile (fst entry) with Some _ => true | None => false end)
    MALICIOUS_PATTERNS = true.
Proof. vm_compute. reflexivity. Qed.



(** ** The aggregator, run by run *)

Lemma load_safe_apps_returns (w : world) (m : machine) :
  exists (safe_apps : gset string) (m' : machine),
    load_safe_apps w m = (Ok safe_apps, m') /\ calls m' = calls m.
Proof.
  unfold load_safe_apps, or_empty, refresh.
  destruct (safe_apps_json w) as [|e|doc];
    destruct (_safe_apps_cache m), (_safe_apps_last_loaded m).
  all: unfold mbind, M_bind, read_clock, mret, M_ret, lift, store_cache; cbn.
  all: repeat match goal with
       | |- context [if ?b then _ else _] => destruct b
       | |- context [match ?x with Ok _ => _ | Raise _ => _ end] => destruct x
       end; cbn; eauto.
Qed.

(** What a run that ends with a report went through. *)
Lemma analyze_apk_report_inv (w : world) (path : string) (m m' : machine)
    (r : scan_report) :
  analyze_apk w path m = (Report r, m') ->
  exists (a : apk) (total : pynum),
    path_exists w path = true
    /\ open_apk w path = Ok a
    /\ package r = or_default (get_package a) "Unknown"
    /\ package r <> "Unknown"
    /\ calculate_permission_score (default [] (get_permissions a))
       = Ok (permission_score r, high_risk_permissions r)
    /\ suspicious_urls r = analyze_urls a
    /\ url_score r = sum_scores url_finding_score (suspicious_urls r)
    /\ suspicious_code_patterns r = analyze_code_patterns (Ok a)
    /\ code_analysis_score r
       = sum_scores pattern_finding_score (suspicious_code_patterns r)
    /\ calculate_certificate_risk a = (certificate_score r, certificate_notes r)
    /\ apply_discount (is_known_safe_app r)
         (permission_score r + url_score r + code_analysis_score r
          + certificate_score r)
       = Ok (total, risk_note r)
    /\ overall_risk r = determine_risk_level total
    /\ py_int total = Ok (total_score r)
    /\ permissions r
       = map (fun p => (p, get_permission_risk p)) (default [] (get_permissions a))
    /\ calls m' = (calls m ++ all_calls)%list.
Proof.
  unfold analyze_apk, analyze_apk_body. unfold_run. step_run.
  destruct (path_exists w path); step_run; [|discriminate].
  destruct (open_apk w path) as [a|e] eqn:Hopen; step_run; [|discriminate].
  destruct (String.eqb _ "Unknown") eqn:Hpkg; [discriminate|].
  destruct (file_sha256 w path) as [h|e] eqn:Hh; step_run; [|discriminate].
  match goal with
  | |- context [load_safe_apps w ?m0] =>
      destruct (load_safe_apps_returns w m0) as (sa & m1 & Hl & Hcalls);
      rewrite Hl
  end.
  step_run.
  destruct (calculate_permission_score _) as [[ps hi]|e] eqn:Hp; step_run;
    [|discriminate].
  destruct (calculate_certificate_risk a) as [cs cr] eqn:Hc.
  destruct (apply_discount _ _) as [[total note]|e] eqn:Hd; [|discriminate].
  destruct (py_int total) as [ti|e] eqn:Hi; [|discriminate].
  intros Heq. injection Heq as <- <-. exists a, total.
  cbn [package permission_score high_risk_permissions suspicious_urls
       url_score suspicious_code_patterns code_analysis_score
       certificate_score certificate_notes is_known_safe_app risk_note
       overall_risk total_score permissions calls].
  apply String.eqb_neq in Hpkg.
  rewrite Hcalls. cbn [calls]. unfold all_calls.
  repeat split; auto.
  rewrite <- !List.app_assoc. reflexivity.
Qed.

(** ** Case-insensitive search *)

Lemma lower_char_idem (c : ascii) : lower_char (lower_char c) = lower_char c.
Proof. destruct c as [[] [] [] [] [] [] [] []]; reflexivity. Qed.








Example pattern_scanner_scenario :
  analyze_code_patterns
    (Ok (MkApk None None None None None
           (Ok [Decoded "Runtime.getRuntime().EXEC(cmd)";
                Undecoded (MkExn UnicodeDecodeError "invalid start byte");
                Decoded "sudo"; Decoded "su"; Decoded "exec("])
           (Ok [])))
  = [MkPattern "exec\(" 200 "APK strings";
     MkPattern "getRuntime\(\)\.exec" 200 "APK strings";
     MkPattern "su\b" 150 "APK strings";
     MkPattern "exec\(" 200 "APK strings"].
Proof. vm_compute. reflexivity. Qed.

(** ** All or nothing *)

(** C8.  A run of [analyze_apk] ends with a report or with an error record.
    A report comes only after every stage was called, in order.  When the
    package exists and opens but gives no package identifier, the run ends
    with the error record "Could not extract package name from APK" after
    the existence test and the opening alone: no hash, no allowlist lookup
    and no scoring call is made, the clock is not read and the cache is as
    it was. *)
Theorem analyze_apk_all_or_nothing (w : world) (path : string) (m : machine) :
  ((exists r : scan_report,
       fst (analyze_apk w path m) = Report r
       /\ calls (snd (analyze_apk w path m)) = (calls m ++ all_calls)%list)
   \/ (exists msg : string, fst (analyze_apk w path m) = ErrorRecord msg))
  /\ (forall a : apk,
      path_exists w path = true ->
      open_apk w path = Ok a ->
      or_default (get_package a) "Unknown" = "Unknown" ->
      analyze_apk w path m
      = (ErrorRecord "Could not extract package name from APK",
         MkMachine (_safe_apps_cache m) (_safe_apps_last_loaded m)
           (clock_reads m) (calls m ++ [CallPathExists; CallAPK]))).
Proof.
  split.
  - destruct (analyze_apk w path m) as [[r|msg] m'] eqn:Hrun.
    + left. exists r. split; [reflexivity|].
      apply analyze_apk_report_inv in Hrun
        as (a & total & H). cbn [snd]. apply H.
    + right. exists msg. reflexivity.
  - intros a Hex Hopen Hpkg.
    unfold analyze_apk, analyze_apk_body. unfold_run.
    step_run. rewrite Hex. step_run. rewrite Hopen. step_run.
    rewrite Hpkg. cbn. now rewrite <- List.app_assoc.
Qed.

Lemma analyze_apk_all_or_nothing_witness :
  analyze_apk world_with_nameless_apk "bank.apk" stale_machine
  = (ErrorRecord "Could not extract package name from APK",
     MkMachine (Some {[ "com.bank.app" ]}) (Some 0) 0 [CallPathExists; CallAPK]).
Proof.
  exact (proj2 (analyze_apk_all_or_nothing world_with_nameless_apk "bank.apk"
                  stale_machine)
           nameless_apk eq_refl eq_refl eq_refl).
Defined.

Example analyze_apk_sample_run :
  fst (analyze_apk sample_world "bank.apk" fresh_machine)
  = Report
      {| app_name := "Bank";
         package := " Com.Bank.App";
         version := "1.0 (7)";
         apk_hash := "9f86d081884c7d65";
         permissions := [("android.permission.READ_SMS", HighRisk);
                         ("android.permission.SEND_SMS", HighRisk)];
         permission_score := 560;
         url_score := 50;
         code_analysis_score := 550;
         certificate_score := 75;
         certificate_notes :=
           "Certificate analysis failed: malformed signing block";
         total_score := 370;
         overall_risk := PotentiallyRisky;
         risk_note := "Known safe app (score reduced)";
         high_risk_permissions := ["android.permission.READ_SMS";
                                   "android.permission.SEND_SMS"];
         suspicious_urls :=
           [MkUrl "api.example-server.com" "Suspicious external domain" 50];
         suspicious_code_patterns :=
           [MkPattern "exec\(" 200 "APK strings";
            MkPattern "runtime\.exec" 200 "APK strings";
            MkPattern "su\b" 150 "APK strings"];
         is_known_safe_app := true;
         analysis_timestamp := 1;
         false_positive_reported := false |}.
Proof. vm_compute. reflexivity. Qed.

(** ** Allowlist cache on a failed refresh *)

(** What [load_safe_apps] does when the cache is set, has expired, and the
    refresh fails. *)
Lemma load_safe_apps_expired_failure (w : world) (m : machine)
    (cache : gset string) (loaded : Z) :
  _safe_apps_cache m = Some cache ->
  _safe_apps_last_loaded m = Some loaded ->
  ttl_microseconds <= now w (clock_reads m) - loaded ->
  refresh_fails w ->
  load_safe_apps w m
  = (Ok ∅, MkMachine (Some cache) (Some loaded) (S (clock_reads m)) (calls m)).
Proof.
  intros Hc Hl Hexp Hfail. unfold load_safe_apps. rewrite Hc, Hl.
  unfold mbind, M_bind, read_clock. cbn [fst snd].
  rewrite Hc, Hl.
  destruct (Z.ltb_spec (now w (clock_reads m) - loaded) ttl_microseconds) as [Hlt|_];
    [lia|].
  unfold or_empty, refresh, refresh_fails in *.
  destruct (safe_apps_json w) as [|e|doc]; try reflexivity.
  unfold mbind, M_bind, outcome_bind, lift in *.
  destruct (iterate doc) as [apps|e]; [|reflexivity].
  destruct (safe_apps_loop apps ∅) as [s|e]; [discriminate|reflexivity].
Qed.

(** C1, as stated, fails: with a cached set, an expired cache and the
    safe-apps file missing, the call returns the empty set, not the cached
    one. *)
Lemma load_safe_apps_returns_empty_not_cache :
  ~ (forall (w : world) (m : machine) (cache : gset string) (loaded : Z),
        _safe_apps_cache m = Some cache ->
        _safe_apps_last_loaded m = Some loaded ->
        ttl_microseconds <= now w (clock_reads m) - loaded ->
        refresh_fails w ->
        fst (load_safe_apps w m) = Ok cache).
Proof.
  intros H.
  specialize (H world_without_file stale_machine {[ "com.bank.app" ]} 0
                eq_refl eq_refl).
  assert (Hexp : ttl_microseconds
                 <= now world_without_file (clock_reads stale_machine) - 0).
  { vm_compute. discriminate. }
  specialize (H Hexp I).
  rewrite (load_safe_apps_expired_failure world_without_file stale_machine
             {[ "com.bank.app" ]} 0 eq_refl eq_refl Hexp I) in H.
  cbn [fst] in H.
  apply (f_equal (fun o : outcome (gset string) =>
                    match o with
                    | Ok s => bool_decide ("com.bank.app" ∈ s)
                    | Raise _ => false
                    end)) in H.
  vm_compute in H. discriminate.
Qed.

(** C1, amended.  When a cached set exists, the cache has expired and the
    refresh attempt fails (file missing, unreadable or malformed), the call
    returns the empty set; the cached set and its time stamp stay stored as
    they were. *)
Theorem load_safe_apps_failed_refresh (w : world) (m : machine)
    (cache : gset string) (loaded : Z) :
  _safe_apps_cache m = Some cache ->
  _safe_apps_last_loaded m = Some loaded ->
  ttl_microseconds <= now w (clock_reads m) - loaded ->
  refresh_fails w ->
  fst (load_safe_apps w m) = Ok ∅
  /\ _safe_apps_cache (snd (load_safe_apps w m)) = Some cache
  /\ _safe_apps_last_loaded (snd (load_safe_apps w m)) = Some loaded.
Proof.
  intros Hc Hl Hexp Hfail.
  rewrite (load_safe_apps_expired_failure w m cache loaded Hc Hl Hexp Hfail).
  repeat split.
Qed.

Lemma load_safe_apps_failed_refresh_witness :
  fst (load_safe_apps world_without_file stale_machine) = Ok ∅
  /\ _safe_apps_cache (snd (load_safe_apps world_without_file stale_machine))
     = Some {[ "com.bank.app" ]}
  /\ _safe_apps_last_loaded (snd (load_safe_apps world_without_file stale_machine))
     = Some 0.
Proof.
  apply (load_safe_apps_failed_refresh world_without_file stale_machine
           {[ "com.bank.app" ]} 0 eq_refl eq_refl).
  - vm_compute. discriminate.
  - exact I.
Defined.

(** ** Rounding to binary64 *)

Lemma digits2_pos_bounds (m : positive) :
  2 ^ (Z.pos (digits2_pos m) - 1) <= Z.pos m < 2 ^ Z.pos (digits2_pos m).
Proof.
  induction m as [m [IHlo IHhi]|m [IHlo IHhi]|]; cbn [digits2_pos].
  - rewrite Pos2Z.inj_succ, (Pos2Z.inj_xI m).
    replace (Z.succ (Z.pos (digits2_pos m)) - 1)
      with (Z.succ (Z.pos (digits2_pos m) - 1)) by lia.
    rewrite !Z.pow_succ_r by lia. lia.
  - rewrite Pos2Z.inj_succ, (Pos2Z.inj_xO m).
    replace (Z.succ (Z.pos (digits2_pos m)) - 1)
      with (Z.succ (Z.pos (digits2_pos m) - 1)) by lia.
    rewrite !Z.pow_succ_r by lia. lia.
  - cbn. lia.
Qed.

Lemma digits2_pos_unique (m : positive) (k : Z) :
  2 ^ (k - 1) <= Z.pos m < 2 ^ k -> Z.pos (digits2_pos m) = k.
Proof.
  intros [Hlo Hhi]. pose proof (digits2_pos_bounds m) as [Dlo Dhi].
  set (d := Z.pos (digits2_pos m)) in *.
  assert (Hk : 0 < k).
  { destruct (Z.ltb_spec 0 k) as [|Hle]; [assumption|].
    assert (2 ^ k <= 2 ^ 0) by (apply Z.pow_le_mono_r; lia).
    change (2 ^ 0) with 1 in *. lia. }
  destruct (Z.lt_trichotomy d k) as [Hlt | [Heq | Hgt]]; [|assumption|].
  - assert (2 ^ d <= 2 ^ (k - 1)) by (apply Z.pow_le_mono_r; lia). lia.
  - assert (2 ^ k <= 2 ^ (d - 1)) by (apply Z.pow_le_mono_r; lia). lia.
Qed.

Lemma shr_1_m (r : shr_record) :
  0 <= shr_m r -> shr_m (shr_1 r) = shr_m r / 2.
Proof.
  destruct r as [m rb sb]. cbn [shr_m]. intros Hm.
  rewrite <- Z.div2_div.
  destruct m as [|[p|p|]|p]; try reflexivity; lia.
Qed.

Lemma iter_shr_m (p : positive) (r : shr_record) :
  0 <= shr_m r -> shr_m (@SpecFloat.iter_pos shr_record shr_1 p r) = shr_m r / 2 ^ Z.pos p.
Proof.
  revert r. induction p as [p IH|p IH|]; intros r Hr; cbn [SpecFloat.iter_pos].
  - assert (H1 : 0 <= shr_m (shr_1 r)).
    { rewrite shr_1_m by assumption. apply Z.div_pos; lia. }
    assert (H2 : 0 <= shr_m (@SpecFloat.iter_pos shr_record shr_1 p (shr_1 r))).
    { rewrite IH by assumption. apply Z.div_pos; [assumption|]. apply Z.pow_pos_nonneg; lia. }
    rewrite IH, IH, shr_1_m by assumption.
    rewrite !Z.div_div by (try apply Z.pow_pos_nonneg; lia).
    f_equal. rewrite (Pos2Z.inj_xI p).
    replace (2 * Z.pos p + 1) with (1 + Z.pos p + Z.pos p) by lia.
    rewrite !Z.pow_add_r by lia. change (2 ^ 1) with 2. lia.
  - assert (H2 : 0 <= shr_m (@SpecFloat.iter_pos shr_record shr_1 p r)).
    { rewrite IH by assumption. apply Z.div_pos; [assumption|]. apply Z.pow_pos_nonneg; lia. }
    rewrite IH, IH by assumption.
    rewrite !Z.div_div by (try apply Z.pow_pos_nonneg; lia).
    f_equal. rewrite (Pos2Z.inj_xO p).
    replace (2 * Z.pos p) with (Z.pos p + Z.pos p) by lia.
    rewrite !Z.pow_add_r by lia. lia.
  - rewrite shr_1_m by assumption. reflexivity.
Qed.

Lemma round_nearest_even_bounds (m : Z) (l : SpecFloat.location) :
  m <= round_nearest_even m l <= m + 1.
Proof.
  destruct l as [|[| |]]; cbn [round_nearest_even]; try destruct (Z.even m); lia.
Qed.

Lemma shr_m_of_loc (m : Z) (l : SpecFloat.location) : shr_m (shr_record_of_loc m l) = m.
Proof. destruct l as [|[| |]]; reflexivity. Qed.

Lemma fexp_normal (x : Z) : -1074 <= x - 53 -> fexp F64.prec F64.emax x = x - 53.
Proof. unfold fexp, emin, F64.prec, F64.emax. lia. Qed.

(** One step of [shr_fexp] at a positive mantissa. *)
Lemma shr_fexp_pos (m : positive) (e : Z) (l : SpecFloat.location) :
  let n := fexp F64.prec F64.emax (Z.pos (digits2_pos m) + e) - e in
  (n <= 0 -> shr_fexp F64.prec F64.emax (Z.pos m) e l = (shr_record_of_loc (Z.pos m) l, e))
  /\ (0 < n ->
      shr_m (fst (shr_fexp F64.prec F64.emax (Z.pos m) e l)) = Z.pos m / 2 ^ n
      /\ snd (shr_fexp F64.prec F64.emax (Z.pos m) e l) = e + n).
Proof.
  intros n. unfold shr_fexp, shr. cbn [Zdigits2]. fold n.
  destruct n as [|p|p] eqn:Hn; split; intros H; try lia; try reflexivity.
  cbn [fst snd]. split; [|reflexivity].
  rewrite iter_shr_m; rewrite shr_m_of_loc; [reflexivity|lia].
Qed.

Lemma binary_round_aux_normal (m : positive) (e : Z) :
  -1074 <= Z.pos (digits2_pos m) + e - 53 ->
  bra_post m e (binary_round_aux F64.prec F64.emax false (Z.pos m) e loc_Exact).
Proof.
  intros Hn. unfold binary_round_aux, bra_post.
  pose proof (digits2_pos_bounds m) as [Dlo Dhi].
  pose proof (shr_fexp_pos m e loc_Exact) as [Hnoshift Hshift]. cbv zeta in *.
  rewrite fexp_normal in Hnoshift, Hshift by lia.
  set (d := Z.pos (digits2_pos m)) in *.
  destruct (Z_le_gt_dec d 53) as [Hd|Hd].
  - (* the mantissa fits: nothing is shifted out *)
    rewrite Hnoshift by lia.
    cbn [shr_record_of_loc shr_m loc_of_shr_record round_nearest_even].
    rewrite Hnoshift by lia. cbn [shr_record_of_loc shr_m].
    change (F64.emax - F64.prec) with 971.
    destruct (Z.leb_spec e 971) as [He|He].
    + rewrite Z.sub_diag. change (2 ^ 0) with 1.
      repeat split; try lia.
    + split; [reflexivity|lia].
  - (* [d - 53] bits are shifted out, then the mantissa is rounded *)
    destruct (Hshift ltac:(lia)) as [Hm1 He1]. clear Hshift Hnoshift.
    destruct (shr_fexp F64.prec F64.emax (Z.pos m) e loc_Exact) as [mrs1 e1].
    cbn [fst snd] in Hm1, He1.
    replace (d + e - 53 - e) with (d - 53) in Hm1, He1 by lia.
    set (n := d - 53) in *. set (N := 2 ^ n) in *.
    assert (HN : 0 < N) by (apply Z.pow_pos_nonneg; lia).
    assert (Hd1 : 2 ^ (d - 1) = N * 2 ^ 52).
    { unfold N. rewrite <- Z.pow_add_r by lia. f_equal. lia. }
    assert (Hd2 : 2 ^ d = N * 2 ^ 53).
    { unfold N. rewrite <- Z.pow_add_r by lia. f_equal. lia. }
    assert (Hlo1 : 2 ^ 52 <= shr_m mrs1).
    { rewrite Hm1. apply Z.div_le_lower_bound; lia. }
    assert (Hhi1 : shr_m mrs1 < 2 ^ 53).
    { rewrite Hm1. apply Z.div_lt_upper_bound; lia. }
    assert (Hmul1 : N * shr_m mrs1 <= Z.pos m).
    { rewrite Hm1. apply Z.mul_div_le. assumption. }
    pose proof (round_nearest_even_bounds (shr_m mrs1) (loc_of_shr_record mrs1))
      as [Hr1 Hr2].
    set (m2 := round_nearest_even (shr_m mrs1) (loc_of_shr_record mrs1)) in *.
    assert (Hm2N : N * m2 <= Z.pos m + N) by nia.
    destruct m2 as [|q|q] eqn:Hq; try lia.
    pose proof (shr_fexp_pos q e1 loc_Exact) as [Hnoshift Hshift]. cbv zeta in *.
    change (F64.emax - F64.prec) with 971.
    destruct (Z_lt_ge_dec (Z.pos q) (2 ^ 53)) as [Hlt|Hge].
    + assert (Hdq : Z.pos (digits2_pos q) = 53)
        by (apply digits2_pos_unique; change (53 - 1) with 52; lia).
      rewrite Hdq in Hnoshift. rewrite fexp_normal in Hnoshift by lia.
      rewrite Hnoshift by lia. cbn [shr_record_of_loc shr_m].
      destruct (Z.leb_spec e1 971) as [He|He].
      * replace (e1 - e) with n by lia. fold N.
        repeat split; try lia.
      * split; [reflexivity|lia].
    + assert (Hq53 : Z.pos q = 2 ^ 53) by lia.
      assert (Hdq : Z.pos (digits2_pos q) = 54).
      { apply digits2_pos_unique. rewrite Hq53. change (54 - 1) with 53.
        split; [lia|]. apply Z.pow_lt_mono_r; lia. }
      rewrite Hdq in Hshift. rewrite fexp_normal in Hshift by lia.
      destruct (Hshift ltac:(lia)) as [Hm3 He3]. clear Hshift Hnoshift.
      destruct (shr_fexp F64.prec F64.emax (Z.pos q) e1 loc_Exact) as [mrs2 e2].
      cbn [fst snd] in Hm3, He3.
      replace (54 + e1 - 53 - e1) with 1 in Hm3, He3 by lia.
      rewrite Hq53 in Hm3. change (2 ^ 53 / 2 ^ 1) with (2 ^ 52) in Hm3.
      rewrite Hm3. change (2 ^ 52) with (Z.pos (2 ^ 52)%positive).
      destruct (Z.leb_spec e2 971) as [He|He].
      * replace (e2 - e) with (n + 1) by lia.
        rewrite Z.pow_add_r by lia. fold N. change (2 ^ 1) with 2.
        repeat split; try lia.
        vm_compute. discriminate.
      * split; [reflexivity|lia].
Qed.

Lemma pos_iter_xO (p k : positive) :
  Z.pos (Pos.iter xO p k) = Z.pos p * 2 ^ Z.pos k.
Proof.
  induction k as [|k IH] using Pos.peano_ind.
  - cbn [Pos.iter]. rewrite (Pos2Z.inj_xO p). change (2 ^ 1) with 2. lia.
  - rewrite Pos.iter_succ, (Pos2Z.inj_xO (Pos.iter xO p k)), IH.
    rewrite Pos2Z.inj_succ, Z.pow_succ_r by lia. lia.
Qed.

(** A mantissa of fewer than 53 digits shifted left to 53. *)
Lemma shift_to_full (m k : positive) :
  Z.pos k = 53 - Z.pos (digits2_pos m) ->
  Z.pos (Pos.iter xO m k) = Z.pos m * 2 ^ (53 - Z.pos (digits2_pos m))
  /\ Z.pos (digits2_pos (Pos.iter xO m k)) = 53
  /\ 2 ^ (53 - Z.pos (digits2_pos m)) * 2 ^ (Z.pos (digits2_pos m) - 1)
     = 2 ^ 52.
Proof.
  intros Hk. pose proof (digits2_pos_bounds m) as [Dlo Dhi].
  set (d := Z.pos (digits2_pos m)) in *.
  assert (Hmz : Z.pos (Pos.iter xO m k) = Z.pos m * 2 ^ (53 - d))
    by (rewrite pos_iter_xO, Hk; reflexivity).
  assert (Hpow : 2 ^ (53 - d) * 2 ^ (d - 1) = 2 ^ 52).
  { rewrite <- Z.pow_add_r by lia. f_equal. lia. }
  assert (Hpow' : 2 ^ (53 - d) * 2 ^ d = 2 ^ 53).
  { rewrite <- Z.pow_add_r by lia. f_equal. lia. }
  assert (HK : 0 < 2 ^ (53 - d)) by (apply Z.pow_pos_nonneg; lia).
  split; [exact Hmz|]. split; [|exact Hpow].
  apply digits2_pos_unique. rewrite Hmz. change (53 - 1) with 52. nia.
Qed.

Lemma of_Z_pos (p : positive) : of_Z_post (Z.pos p) (F64.of_Z (Z.pos p)).
Proof.
  unfold F64.of_Z, binary_normalize, binary_round, shl_align.
  pose proof (digits2_pos_bounds p) as [Dlo Dhi].
  rewrite fexp_normal by lia.
  set (d := Z.pos (digits2_pos p)) in *.
  destruct (d + 0 - 53 - 0) as [|k|k] eqn:Hk.
  - pose proof (binary_round_aux_normal p 0 ltac:(fold d; lia)) as H.
    destruct (binary_round_aux _ _ _ _ _ _) as [s|s| |s mx ex];
      cbn [bra_post of_Z_post] in *; fold d in H; try contradiction.
    + destruct H as [_ H]. lia.
    + destruct H as (-> & Hdig & He & _ & Hv & _).
      rewrite Z.sub_0_r in Hv. rewrite Z.pow_add_r by lia.
      repeat split; try lia.
  - pose proof (binary_round_aux_normal p 0 ltac:(fold d; lia)) as H.
    destruct (binary_round_aux _ _ _ _ _ _) as [s|s| |s mx ex];
      cbn [bra_post of_Z_post] in *; fold d in H; try contradiction.
    + destruct H as [_ H].
      assert (2 ^ 1023 <= 2 ^ (d - 1)) by (apply Z.pow_le_mono_r; lia). lia.
    + destruct H as (-> & Hdig & He & _ & Hv & _).
      rewrite Z.sub_0_r in Hv. rewrite Z.pow_add_r by lia.
      repeat split; try lia.
  - destruct (shift_to_full p k ltac:(fold d; lia)) as (Hmz & Hdz & Hpow).
    fold d in Hmz, Hpow.
    pose proof (binary_round_aux_normal (Pos.iter xO p k) (d + 0 - 53)
                  ltac:(rewrite Hdz; lia)) as H.
    destruct (binary_round_aux _ _ _ _ _ _) as [s|s| |s mx ex];
      cbn [bra_post of_Z_post] in *; try contradiction; rewrite Hdz in H.
    + destruct H as [_ H]. lia.
    + destruct H as (-> & Hdig & He & _ & _ & Hex).
      destruct (Hex ltac:(lia)) as [-> ->].
      replace (d + 0 - 53 + 52) with (d - 1) by lia.
      rewrite Hmz. repeat split; try lia. nia.
Qed.

(** A product by a double of exponent -54 with a full mantissa. *)
Lemma mul_by_literal (mx c : positive) (ex : Z) :
  Z.pos (digits2_pos mx) <= 53 -> -52 <= ex <= 971 ->
  2 ^ 52 <= Z.pos c < 2 ^ 53 ->
  mul_post mx ex c
    (F64.mul (S754_finite false mx ex) (S754_finite false c (-54))).
Proof.
  intros Hdx Hex [Hclo Hchi]. unfold F64.mul, SFmul. cbn [xorb].
  pose proof (digits2_pos_bounds mx) as [Xlo Xhi].
  pose proof (digits2_pos_bounds (mx * c)) as [Plo Phi].
  set (dx := Z.pos (digits2_pos mx)) in *.
  set (d := Z.pos (digits2_pos (mx * c))) in *.
  rewrite Pos2Z.inj_mul in Plo, Phi.
  assert (Hdx1 : 1 <= dx) by (unfold dx; lia).
  assert (Hp1 : 0 < 2 ^ (dx - 1)) by (apply Z.pow_pos_nonneg; lia).
  assert (Hlow : dx + 52 <= d).
  { destruct (Z_lt_ge_dec d (dx + 52)) as [Hlt|]; [|lia].
    assert (2 ^ d <= 2 ^ (dx + 51)) by (apply Z.pow_le_mono_r; lia).
    assert (2 ^ (dx + 51) = 2 ^ (dx - 1) * 2 ^ 52)
      by (rewrite <- Z.pow_add_r by lia; f_equal; lia).
    nia. }
  assert (Hhigh : d <= dx + 53).
  { destruct (Z_lt_ge_dec (dx + 53) d) as [Hlt|]; [|lia].
    assert (2 ^ (dx + 53) <= 2 ^ (d - 1)) by (apply Z.pow_le_mono_r; lia).
    assert (2 ^ (dx + 53) = 2 ^ dx * 2 ^ 53)
      by (rewrite <- Z.pow_add_r by lia; f_equal; lia).
    nia. }
  pose proof (binary_round_aux_normal (mx * c) (ex + -54)
                ltac:(fold d; lia)) as H.
  destruct (binary_round_aux _ _ _ _ _ _) as [s|s| |s m' e'];
    cbn [bra_post mul_post] in *; fold d in H; try contradiction.
  - destruct H as [_ H]. lia.
  - destruct H as (-> & _ & He & Hmax & Hv & _).
    replace (ex + -54) with (ex - 54) in * by lia.
    rewrite Pos2Z.inj_mul in Hv. repeat split; try lia.
Qed.

Lemma to_Q_lt (m : positive) (e T : Z) :
  -106 <= e -> Z.pos m * 2 ^ (e + 106) < T * 2 ^ 106 ->
  (F64.to_Q (S754_finite false m e) < inject_Z T)%Q.
Proof.
  intros He H. unfold F64.to_Q.
  destruct e as [|p|p].
  - rewrite <- Zlt_Qlt. change (2 ^ 0) with 1.
    change (0 + 106) with 106 in H.
    assert (0 < 2 ^ 106) by (apply Z.pow_pos_nonneg; lia). nia.
  - rewrite <- Zlt_Qlt. rewrite Z.pow_add_r in H by lia.
    assert (0 < 2 ^ 106) by (apply Z.pow_pos_nonneg; lia). nia.
  - unfold Qlt. cbn [Qnum Qden inject_Z]. rewrite Pos2Z.inj_pow.
    assert (HA : 0 < 2 ^ (Z.neg p + 106)) by (apply Z.pow_pos_nonneg; lia).
    assert (HB : 2 ^ 106 = 2 ^ (Z.neg p + 106) * 2 ^ Z.pos p).
    { rewrite <- Z.pow_add_r by lia. f_equal. lia. }
    rewrite HB in H. nia.
Qed.

Lemma discount_of_positive (p : positive) (x : F64.float) :
  F64.float_of_int (Z.pos p) = Ok x ->
  exists (m' : positive) (e' : Z),
    F64.mul x F64.lit_0_3 = S754_finite false m' e'
    /\ (F64.to_Q (S754_finite false m' e') < inject_Z (Z.pos p))%Q.
Proof.
  unfold F64.float_of_int. pose proof (of_Z_pos p) as Hx.
  destruct (F64.of_Z (Z.pos p)) as [s|s| |s mx ex]; cbn [F64.is_finite];
    try discriminate; cbn [of_Z_post] in Hx; try contradiction.
  intros Heq. injection Heq as <-.
  destruct Hx as (-> & Hdig & Hex & Hv).
  pose proof (mul_by_literal mx 5404319552844595 ex Hdig Hex
                ltac:(vm_compute; split; [discriminate|reflexivity])) as Hr.
  unfold F64.lit_0_3.
  destruct (F64.mul _ _) as [s|s| |s m' e']; cbn [mul_post] in Hr;
    try contradiction.
  destruct Hr as (-> & He' & Hv'). exists m', e'. split; [reflexivity|].
  apply to_Q_lt; [lia|].
  replace (e' + 106) with ((e' - (ex - 54)) + (ex + 52)) by lia.
  rewrite Z.pow_add_r by lia.
  assert (HA : 0 < 2 ^ (e' - (ex - 54))) by (apply Z.pow_pos_nonneg; lia).
  assert (HB : 0 < 2 ^ (ex + 52)) by (apply Z.pow_pos_nonneg; lia).
  change (2 ^ 106) with (2 ^ 54 * 2 ^ 52).
  set (A := 2 ^ (e' - (ex - 54))) in *. set (B := 2 ^ (ex + 52)) in *.
  assert (H1 : 4 * (Z.pos m' * A * B) <= 6 * (Z.pos mx * 5404319552844595) * B).
  { nia. }
  assert (H2 : 6 * (Z.pos mx * 5404319552844595) * B
               <= 9 * 5404319552844595 * (Z.pos p * 2 ^ 52)).
  { nia. }
  assert (H3 : 9 * 5404319552844595 * (Z.pos p * 2 ^ 52)
               < 4 * (Z.pos p * (2 ^ 54 * 2 ^ 52))).
  { assert (9 * 5404319552844595 < 4 * 2 ^ 54) by (vm_compute; reflexivity).
    assert (0 < Z.pos p * 2 ^ 52) by lia. nia. }
  lia.
Qed.

(** ** Magnitudes of sums and products *)

Lemma pos_fin_weaken (lo hi lo' hi' : Z) (f : spec_float) :
  lo' <= lo -> hi <= hi' -> pos_fin lo hi f -> pos_fin lo' hi' f.
Proof.
  intros Hlo Hhi. destruct f as [s|s| |[|] m e]; cbn [pos_fin]; try tauto.
  intros (Hd & He & Hm). repeat split; lia.
Qed.

Lemma binary_round_aux_pos_fin (m : positive) (e : Z) :
  -1074 <= Z.pos (digits2_pos m) + e - 53 ->
  Z.max e (Z.pos (digits2_pos m) + e - 52) <= 971 ->
  pos_fin e (Z.pos (digits2_pos m) + e + 1)
    (binary_round_aux F64.prec F64.emax false (Z.pos m) e loc_Exact).
Proof.
  intros Hn Hmax. pose proof (binary_round_aux_normal m e Hn) as H.
  destruct (binary_round_aux _ _ _ _ _ _) as [s|s| |s m' e'];
    cbn [bra_post pos_fin] in *; try contradiction.
  - destruct H as [_ H]. lia.
  - destruct H as (-> & Hd & He & Hem & _ & Hex).
    split; [assumption|]. split; [lia|].
    destruct (Z_le_gt_dec (Z.pos (digits2_pos m)) 53) as [Hle|Hgt].
    + destruct (Hex Hle) as [-> ->]. lia.
    + lia.
Qed.

Lemma digits_le (m : positive) (k : Z) :
  Z.pos m < 2 ^ k -> Z.pos (digits2_pos m) <= k.
Proof.
  intros H. pose proof (digits2_pos_bounds m) as [Dlo _].
  destruct (Z_le_gt_dec (Z.pos (digits2_pos m)) k) as [|Hgt]; [assumption|].
  assert (0 <= k).
  { destruct (Z_le_gt_dec 0 k); [assumption|].
    rewrite Z.pow_neg_r in H by lia. lia. }
  assert (2 ^ k <= 2 ^ (Z.pos (digits2_pos m) - 1))
    by (apply Z.pow_le_mono_r; lia).
  lia.
Qed.

Lemma mul_pos_fin (x y : spec_float) (lox hix loy hiy : Z) :
  pos_fin lox hix x -> pos_fin loy hiy y ->
  -1022 <= lox + loy -> hix + hiy <= 973 ->
  pos_fin (lox + loy) (hix + hiy + 1) (F64.mul x y).
Proof.
  destruct x as [sx|sx| |[|] mx ex]; cbn [pos_fin]; try tauto.
  destruct y as [sy|sy| |[|] my ey]; cbn [pos_fin]; try tauto.
  intros (Hdx & Hex & Hmx) (Hdy & Hey & Hmy) Hlo Hhi.
  unfold F64.mul, SFmul. cbn [xorb].
  pose proof (digits2_pos_bounds mx) as [_ Xhi].
  pose proof (digits2_pos_bounds my) as [_ Yhi].
  assert (Hd : Z.pos (digits2_pos (mx * my))
               <= Z.pos (digits2_pos mx) + Z.pos (digits2_pos my)).
  { apply digits_le. rewrite Pos2Z.inj_mul, Z.pow_add_r by lia. nia. }
  eapply pos_fin_weaken; [| |apply binary_round_aux_pos_fin]; lia.
Qed.

Lemma binary_round_pos_fin (m : positive) (e : Z) :
  -1074 <= Z.pos (digits2_pos m) + e - 53 ->
  Z.max e (Z.pos (digits2_pos m) + e - 52) <= 971 ->
  pos_fin (Z.min e (Z.pos (digits2_pos m) + e - 53))
    (Z.pos (digits2_pos m) + e + 1)
    (binary_round F64.prec F64.emax false m e).
Proof.
  intros Hn Hmax. unfold binary_round, shl_align.
  pose proof (digits2_pos_bounds m) as [Dlo Dhi].
  rewrite fexp_normal by lia.
  set (d := Z.pos (digits2_pos m)) in *.
  destruct (d + e - 53 - e) as [|k|k] eqn:Hk.
  - eapply pos_fin_weaken; [| |apply binary_round_aux_pos_fin]; fold d; lia.
  - eapply pos_fin_weaken; [| |apply binary_round_aux_pos_fin]; fold d; lia.
  - destruct (shift_to_full m k ltac:(fold d; lia)) as (Hmz & Hdz & Hpow).
    fold d in Hmz, Hpow.
    eapply pos_fin_weaken; [| |apply binary_round_aux_pos_fin];
      rewrite ?Hdz; lia.
Qed.

Lemma shl_align_fst (m : positive) (e e' : Z) :
  e' <= e -> Z.pos (fst (shl_align m e e')) = Z.pos m * 2 ^ (e - e').
Proof.
  intros He. unfold shl_align. destruct (e' - e) as [|k|k] eqn:Hk; cbn [fst].
  - replace (e - e') with 0 by lia. change (2 ^ 0) with 1. lia.
  - lia.
  - rewrite pos_iter_xO. do 2 f_equal. lia.
Qed.

Lemma add_pos_fin (x y : spec_float) (lox hix loy hiy : Z) :
  pos_fin lox hix x -> pos_fin loy hiy y ->
  -1022 <= Z.min lox loy -> Z.max hix hiy <= 972 ->
  pos_fin (Z.min lox loy - 52) (Z.max hix hiy + 2) (F64.add x y).
Proof.
  destruct x as [sx|sx| |[|] mx ex]; cbn [pos_fin]; try tauto.
  destruct y as [sy|sy| |[|] my ey]; cbn [pos_fin]; try tauto.
  intros (Hdx & Hex & Hmx) (Hdy & Hey & Hmy) Hlo Hhi.
  unfold F64.add, SFadd. cbn [cond_Zopp].
  set (ez := Z.min ex ey).
  pose proof (shl_align_fst mx ex ez ltac:(unfold ez; lia)) as Ha.
  pose proof (shl_align_fst my ey ez ltac:(unfold ez; lia)) as Hb.
  set (a := fst (shl_align mx ex ez)) in *.
  set (b := fst (shl_align my ey ez)) in *.
  change (Z.pos a + Z.pos b) with (Z.pos (a + b)). cbn [binary_normalize].
  pose proof (digits2_pos_bounds mx) as [_ Xhi].
  pose proof (digits2_pos_bounds my) as [_ Yhi].
  set (dx := Z.pos (digits2_pos mx)) in *.
  set (dy := Z.pos (digits2_pos my)) in *.
  set (M := Z.max (dx + ex) (dy + ey)).
  assert (Hdx1 : 1 <= dx) by (unfold dx; lia).
  assert (Hdy1 : 1 <= dy) by (unfold dy; lia).
  assert (Hsum : Z.pos (a + b) < 2 ^ (M - ez + 1)).
  { rewrite Pos2Z.inj_add, Ha, Hb.
    assert (H1 : Z.pos mx * 2 ^ (ex - ez) < 2 ^ (M - ez)).
    { apply Z.lt_le_trans with (2 ^ dx * 2 ^ (ex - ez)).
      - apply Z.mul_lt_mono_pos_r; [apply Z.pow_pos_nonneg; unfold ez; lia|lia].
      - rewrite <- Z.pow_add_r by (unfold ez; lia).
        apply Z.pow_le_mono_r; unfold M; lia. }
    assert (H2 : Z.pos my * 2 ^ (ey - ez) < 2 ^ (M - ez)).
    { apply Z.lt_le_trans with (2 ^ dy * 2 ^ (ey - ez)).
      - apply Z.mul_lt_mono_pos_r; [apply Z.pow_pos_nonneg; unfold ez; lia|lia].
      - rewrite <- Z.pow_add_r by (unfold ez; lia).
        apply Z.pow_le_mono_r; unfold M; lia. }
    rewrite Z.pow_add_r by (unfold M, ez; lia). change (2 ^ 1) with 2. lia. }
  apply digits_le in Hsum.
  assert (Hds1 : 1 <= Z.pos (digits2_pos (a + b))) by lia.
  eapply pos_fin_weaken; [| |apply binary_round_pos_fin]; unfold M, ez in *; lia.
Qed.

Lemma of_Z_pos_fin (p : positive) (n : Z) :
  Z.pos p < 2 ^ n -> n <= 970 -> pos_fin (-52) (n + 1) (F64.of_Z (Z.pos p)).
Proof.
  intros Hp Hn. apply digits_le in Hp.
  unfold F64.of_Z, binary_normalize.
  assert (1 <= Z.pos (digits2_pos p)) by lia.
  eapply pos_fin_weaken; [| |apply binary_round_pos_fin]; lia.
Qed.

Lemma pos_fin_is_finite (lo hi : Z) (f : spec_float) :
  pos_fin lo hi f -> F64.is_finite f = true.
Proof. destruct f as [s|s| |[|] m e]; cbn; tauto. Qed.

Lemma float_of_int_pos_fin (z n : Z) :
  0 < z < 2 ^ n -> n <= 970 ->
  F64.float_of_int z = Ok (F64.of_Z z) /\ pos_fin (-52) (n + 1) (F64.of_Z z).
Proof.
  intros [Hz Hlt] Hn. destruct z as [|p|p]; try lia.
  pose proof (of_Z_pos_fin p n Hlt Hn) as H. split; [|assumption].
  unfold F64.float_of_int. now rewrite (pos_fin_is_finite _ _ _ H).
Qed.

(** [1 + 0.2 * k] for a count below [2^32]. *)
Lemma multiplier_pos_fin (k : Z) :
  0 <= k < 2 ^ 32 ->
  exists kf : F64.float,
    F64.float_of_int k = Ok kf
    /\ pos_fin (-159) 35 (F64.add (F64.of_Z 1) (F64.mul F64.lit_0_2 kf)).
Proof.
  intros [Hk0 Hk]. destruct (Z.eq_dec k 0) as [->|Hne].
  - eexists. split; [reflexivity|]. vm_compute. repeat split; discriminate.
  - destruct (float_of_int_pos_fin k 32 ltac:(lia) ltac:(lia)) as [Hkf Hp].
    eexists. split; [exact Hkf|].
    assert (H02 : pos_fin (-55) (-2) F64.lit_0_2)
      by (vm_compute; repeat split; discriminate).
    assert (H1 : pos_fin (-52) 1 (F64.of_Z 1))
      by (vm_compute; repeat split; discriminate).
    pose proof (mul_pos_fin _ _ _ _ _ _ H02 Hp ltac:(lia) ltac:(lia)) as Hm.
    pose proof (add_pos_fin _ _ _ _ _ _ H1 Hm ltac:(lia) ltac:(lia)) as Ha.
    eapply pos_fin_weaken; [| |exact Ha]; lia.
Qed.

Lemma amplified_returns (raw k : Z) :
  0 <= raw < 2 ^ 40 -> 0 <= k < 2 ^ 32 -> exists n : Z, amplified raw k = Ok n.
Proof.
  intros [Hr0 Hr] Hk. unfold amplified.
  destruct (multiplier_pos_fin k Hk) as (kf & -> & Hm).
  cbn [mbind outcome_bind].
  change (F64.float_of_int 1) with (Ok (F64.of_Z 1)). cbn [mbind outcome_bind].
  set (multiplier := F64.add (F64.of_Z 1) (F64.mul F64.lit_0_2 kf)) in *.
  destruct (Z.eq_dec raw 0) as [->|Hne].
  - change (F64.float_of_int 0) with (Ok (S754_zero false)).
    cbn [mbind outcome_bind].
    destruct multiplier as [s|s| |[|] m e]; cbn [pos_fin] in Hm;
      try contradiction.
    eexists. reflexivity.
  - destruct (float_of_int_pos_fin raw 40 ltac:(lia) ltac:(lia)) as [-> Hp].
    cbn [mbind outcome_bind].
    pose proof (mul_pos_fin _ _ _ _ _ _ Hp Hm ltac:(lia) ltac:(lia)) as Hf.
    destruct (F64.mul (F64.of_Z raw) multiplier) as [s|s| |[|] m e];
      cbn [pos_fin] in Hf; try contradiction.
    eexists. reflexivity.
Qed.

(** ** Permission score *)

Lemma F64_mul_comm (x y : F64.float) : F64.mul x y = F64.mul y x.
Proof.
  unfold F64.mul, SFmul.
  destruct x as [sx|sx| |sx mx ex], y as [sy|sy| |sy my ey];
    try reflexivity; try (now rewrite xorb_comm).
  now rewrite xorb_comm, Pos.mul_comm, Z.add_comm.
Qed.

Lemma fold_permission_step (permissions : list string) (score : Z)
    (high : list string) :
  fold_left permission_step permissions (score, high)
  = (score + raw_sum permissions, (high ++ high_risk permissions)%list).
Proof.
  revert score high.
  induction permissions as [|p rest IH]; intros score high.
  - cbn. now rewrite Z.add_0_r, List.app_nil_r.
  - cbn [fold_left permission_step]. rewrite IH.
    unfold raw_sum, high_risk. cbn [map fold_right List.filter].
    destruct (100 <=? table_score p); f_equal; try lia.
    now rewrite <- List.app_assoc.
Qed.

Lemma calculate_permission_score_amplified (permissions : list string) :
  calculate_permission_score permissions
  = (n ← amplified (raw_sum permissions)
           (Z.of_nat (length (high_risk permissions)));
     Ok (n, high_risk permissions)).
Proof.
  unfold calculate_permission_score, amplified.
  rewrite fold_permission_step, Z.add_0_l. cbn [app].
  destruct (F64.float_of_int (Z.of_nat (length (high_risk permissions))))
    as [kf|e]; [|reflexivity].
  cbn [mbind outcome_bind].
  destruct (F64.float_of_int 1) as [one|e]; [|reflexivity].
  cbn [mbind outcome_bind].
  destruct (F64.float_of_int (raw_sum permissions)) as [rf|e]; [|reflexivity].
  cbn [mbind outcome_bind]. now rewrite (F64_mul_comm kf).
Qed.

Lemma permission_table_bounds :
  Forall (fun entry : string * Z => 0 <= snd entry <= 200) permission_table.
Proof. apply (bool_decide_unpack _). vm_compute. exact I. Qed.

Lemma table_score_bounds (p : string) : 0 <= table_score p <= 200.
Proof.
  unfold table_score, PERMISSION_SCORES.
  destruct (list_to_map permission_table !! p) as [v|] eqn:Hv; cbn; [|lia].
  apply elem_of_list_to_map_2 in Hv.
  exact (proj1 (Forall_forall _ _) permission_table_bounds (p, v) Hv).
Qed.

Lemma raw_sum_bounds (permissions : list string) :
  0 <= raw_sum permissions <= 200 * Z.of_nat (length permissions).
Proof.
  unfold raw_sum. induction permissions as [|p rest IH].
  - cbn. lia.
  - cbn [map fold_right length]. pose proof (table_score_bounds p).
    rewrite Nat2Z.inj_succ. lia.
Qed.

Lemma high_risk_length (permissions : list string) :
  (length (high_risk permissions) <= length permissions)%nat.
Proof. apply List.filter_length_le. Qed.

(** C3.  For every sequence of permissions, [calculate_permission_score]
    gives [int(raw_sum * (1 + 0.2 * k))] together with [H], where [raw_sum]
    is the sum of the table scores (0 for a permission the table does not
    list), [H] the permissions of score at least 100 in input order and [k]
    the length of [H]; the arithmetic is Python's, on doubles, and the call
    returns for every sequence of fewer than [2^32] permissions.  For
    READ_SMS and SEND_SMS, each of score 200, the raw sum is 400, both are
    high risk, the multiplier is the double nearest 1.4 and the score is
    560. *)
Theorem calculate_permission_score_formula :
  (forall permissions : list string,
      calculate_permission_score permissions
      = (n ← amplified (raw_sum permissions)
               (Z.of_nat (length (high_risk permissions)));
         Ok (n, high_risk permissions)))
  /\ (forall permissions : list string,
      Z.of_nat (length permissions) < 2 ^ 32 ->
      exists n : Z,
        amplified (raw_sum permissions)
          (Z.of_nat (length (high_risk permissions))) = Ok n
        /\ calculate_permission_score permissions
           = Ok (n, high_risk permissions))
  /\ (forall p : string, PERMISSION_SCORES !! p = None -> table_score p = 0)
  /\ (let sms := ["android.permission.READ_SMS"; "android.permission.SEND_SMS"] in
      map table_score sms = [200; 200]
      /\ raw_sum sms = 400
      /\ high_risk sms = sms
      /\ F64.add (F64.of_Z 1) (F64.mul F64.lit_0_2 (F64.of_Z 2))
         = F64.div (F64.of_Z 14) (F64.of_Z 10)
      /\ calculate_permission_score sms = Ok (560, sms)).
Proof.
  split; [exact calculate_permission_score_amplified|]. split; [|split].
  - intros permissions Hlen.
    pose proof (raw_sum_bounds permissions) as Hraw.
    pose proof (high_risk_length permissions) as Hk.
    destruct (amplified_returns (raw_sum permissions)
                (Z.of_nat (length (high_risk permissions))))
      as [n Hn].
    + change (2 ^ 40) with (256 * 2 ^ 32). lia.
    + lia.
    + exists n. split; [exact Hn|].
      rewrite calculate_permission_score_amplified, Hn. reflexivity.
  - exact table_score_absent.
  - vm_compute. repeat split; reflexivity.
Qed.

(** On doubles the product is not always the exact one: 325 * 1.4 falls
    just below 455. *)
Example calculate_permission_score_rounding :
  calculate_permission_score
    ["android.permission.READ_SMS"; "android.permission.READ_CONTACTS";
     "android.permission.ACCESS_NETWORK_STATE"]
  = Ok (454, ["android.permission.READ_SMS"; "android.permission.READ_CONTACTS"]).
Proof. vm_compute. reflexivity. Qed.

(** ** The allowlist discount *)

Lemma float_of_int_small (T : Z) :
  0 <= T < 2 ^ 1023 -> exists x : F64.float, F64.float_of_int T = Ok x.
Proof.
  intros [Hlo Hhi]. unfold F64.float_of_int.
  destruct T as [|p|p]; [eexists; reflexivity| |lia].
  pose proof (of_Z_pos p) as Hx.
  destruct (F64.of_Z (Z.pos p)) as [s|s| |s mx ex]; cbn [of_Z_post] in Hx;
    try contradiction; try lia; eexists; reflexivity.
Qed.

(** C2, as stated, fails at [T = 0]: the package is allowlisted and the
    discounted total, 0, is not below [T]. *)
Lemma discount_of_zero_not_strict :
  ~ (forall (T : Z) (total : pynum) (note : string),
        0 <= T -> apply_discount true T = Ok (total, note) ->
        (py_value total < inject_Z T)%Q).
Proof.
  intros H.
  specialize (H 0 (PyInt 0) "Known safe app (score reduced)"
                ltac:(lia) eq_refl).
  vm_compute in H. discriminate.
Qed.

(** C2, amended.  For every non-negative pre-discount total [T] the
    post-discount total never exceeds [T]; for an allowlisted package it is
    strictly below [T] when [T] is positive and equal to [T] (both 0) when
    [T] is 0; for a package that is not allowlisted it is [T].  So for a
    positive [T] the total equals [T] exactly when the package is not
    allowlisted.  The discount returns for every [T] below [2^1023]. *)
Theorem apply_discount_reduces (safe : bool) (T : Z) :
  0 <= T ->
  (forall (total : pynum) (note : string),
      apply_discount safe T = Ok (total, note) ->
      py_is_finite total = true
      /\ (py_value total <= inject_Z T)%Q
      /\ (safe = true -> 0 < T -> (py_value total < inject_Z T)%Q)
      /\ (safe = true -> T = 0 -> total = PyInt 0)
      /\ (safe = false -> total = PyInt T)
      /\ (0 < T -> ((py_value total == inject_Z T)%Q <-> safe = false)))
  /\ (T < 2 ^ 1023 ->
      exists (total : pynum) (note : string),
        apply_discount safe T = Ok (total, note)).
Proof.
  intros HT. split.
  - intros total note. unfold apply_discount. destruct safe.
    + destruct (F64.float_of_int T) as [x|e] eqn:Hx; [|discriminate].
      cbn [mbind outcome_bind]. intros Heq. injection Heq as <- <-.
      destruct T as [|p|p]; [| |lia].
      * vm_compute in Hx. injection Hx as <-. vm_compute.
        repeat split; intros; try discriminate; try lia; try reflexivity.
      * destruct (discount_of_positive p x Hx) as (m' & e' & -> & Hlt).
        unfold max_0.
        destruct (py_gt (PyFloat (S754_finite false m' e')) 0);
          cbn [py_value py_is_finite F64.is_finite].
        -- split; [reflexivity|]. split; [apply Qlt_le_weak; exact Hlt|].
           split; [auto|]. split; [intros _ H0; discriminate|].
           split; [discriminate|]. intros _. split; [|discriminate].
           intros Heq. rewrite Heq in Hlt. exfalso. exact (Qlt_irrefl _ Hlt).
        -- split; [reflexivity|]. split; [rewrite <- Zle_Qle; lia|].
           split; [intros _ _; rewrite <- Zlt_Qlt; lia|].
           split; [intros _ H0; discriminate|].
           split; [discriminate|]. intros _. split; [|discriminate].
           intros Heq. apply inject_Z_injective in Heq. discriminate.
    + intros Heq. injection Heq as <- <-. cbn [py_value py_is_finite].
      split; [reflexivity|]. split; [apply Qle_refl|].
      repeat split; intros; try discriminate; try reflexivity.
  - intros Hhi. unfold apply_discount. destruct safe; [|eauto].
    destruct (float_of_int_small T ltac:(lia)) as [x ->].
    cbn [mbind outcome_bind]. eauto.
Qed.

Lemma apply_discount_reduces_witness :
  (forall (total : pynum) (note : string),
      apply_discount true 600 = Ok (total, note) ->
      py_is_finite total = true
      /\ (py_value total <= inject_Z 600)%Q
      /\ (true = true -> 0 < 600 -> (py_value total < inject_Z 600)%Q)
      /\ (true = true -> 600 = 0 -> total = PyInt 0)
      /\ (true = false -> total = PyInt 600)
      /\ (0 < 600 -> ((py_value total == inject_Z 600)%Q <-> true = false)))
  /\ (600 < 2 ^ 1023 ->
      exists (total : pynum) (note : string),
        apply_discount true 600 = Ok (total, note)).
Proof.
  apply (apply_discount_reduces true 600). lia.
Defined.

(** ** Risk tiers *)

Lemma shr_fexp_nonneg (m e : Z) (l : SpecFloat.location) :
  0 <= m -> 0 <= shr_m (fst (shr_fexp F64.prec F64.emax m e l)).
Proof.
  intros Hm. unfold shr_fexp, shr.
  destruct (fexp F64.prec F64.emax (Zdigits2 m + e) - e) as [|p|p];
    cbn [fst]; rewrite ?iter_shr_m; rewrite ?shr_m_of_loc; try lia.
  apply Z.div_pos; [lia|]. apply Z.pow_pos_nonneg; lia.
Qed.

Lemma binary_round_aux_not_nan (s : bool) (m e : Z) (l : SpecFloat.location) :
  0 <= m -> F64.is_nan (binary_round_aux F64.prec F64.emax s m e l) = false.
Proof.
  intros Hm. unfold binary_round_aux.
  pose proof (shr_fexp_nonneg m e l Hm) as H1.
  destruct (shr_fexp F64.prec F64.emax m e l) as [mrs1 e1]. cbn [fst] in H1.
  pose proof (round_nearest_even_bounds (shr_m mrs1) (loc_of_shr_record mrs1))
    as [Hr _].
  pose proof (shr_fexp_nonneg
                (round_nearest_even (shr_m mrs1) (loc_of_shr_record mrs1))
                e1 loc_Exact ltac:(lia)) as H2.
  destruct (shr_fexp F64.prec F64.emax _ e1 loc_Exact) as [mrs2 e2].
  cbn [fst] in H2.
  destruct (shr_m mrs2) as [|q|q]; [reflexivity| |lia].
  destruct (e2 <=? F64.emax - F64.prec); reflexivity.
Qed.

Lemma of_Z_not_nan (z : Z) : F64.is_nan (F64.of_Z z) = false.
Proof.
  unfold F64.of_Z, binary_normalize, binary_round.
  destruct z as [|p|p]; [reflexivity| |].
  - destruct (shl_align p 0 _) as [mz ez].
    apply binary_round_aux_not_nan. lia.
  - destruct (shl_align p 0 _) as [mz ez].
    apply binary_round_aux_not_nan. lia.
Qed.

Lemma mul_literal_not_nan (x : F64.float) :
  F64.is_nan x = false -> F64.is_nan (F64.mul x F64.lit_0_3) = false.
Proof.
  unfold F64.mul, F64.lit_0_3, SFmul.
  destruct x as [s|s| |s m e]; try reflexivity; try discriminate.
  intros _. apply binary_round_aux_not_nan. lia.
Qed.

Lemma apply_discount_not_nan (safe : bool) (T : Z) (total : pynum)
    (note : string) :
  apply_discount safe T = Ok (total, note) -> py_is_nan total = false.
Proof.
  unfold apply_discount, F64.float_of_int. destruct safe.
  - pose proof (of_Z_not_nan T) as Hn.
    destruct (F64.is_finite (F64.of_Z T)); [|discriminate].
    cbn [mbind outcome_bind]. intros Heq. injection Heq as <- _.
    unfold max_0. destruct (py_gt _ 0); [|reflexivity].
    cbn [py_is_nan]. now apply mul_literal_not_nan.
  - intros Heq. injection Heq as <- _. reflexivity.
Qed.

Lemma SFcompare_swap (x y : spec_float) :
  SFcompare y x = CompOpp <$> SFcompare x y.
Proof.
  destruct x as [sx|sx| |sx mx ex], y as [sy|sy| |sy my ey];
    try reflexivity;
    try (destruct sx; reflexivity); try (destruct sy; reflexivity);
    try (destruct sx, sy; reflexivity).
  cbn [SFcompare fmap option_fmap option_map].
  assert (Hp : Pos.compare_cont Eq my mx = CompOpp (Pos.compare_cont Eq mx my))
    by (rewrite Pos.compare_cont_antisym; reflexivity).
  assert (Hz : (ey ?= ex) = CompOpp (ex ?= ey)) by apply Z.compare_antisym.
  change (IntDef.Z.compare ey ex) with (ey ?= ex).
  change (IntDef.Z.compare ex ey) with (ex ?= ey).
  change (PosDef.Pos.compare_cont Eq my mx) with (Pos.compare_cont Eq my mx).
  change (PosDef.Pos.compare_cont Eq mx my) with (Pos.compare_cont Eq mx my).
  rewrite Hz, Hp.
  destruct sx, sy; try reflexivity;
    destruct (ex ?= ey); cbn [CompOpp]; try reflexivity;
    destruct (Pos.compare_cont Eq mx my); reflexivity.
Qed.

Lemma leb_negb_ltb (f c : F64.float) :
  F64.is_nan f = false -> F64.is_nan c = false ->
  F64.leb f c = negb (F64.ltb c f).
Proof.
  intros Hf Hc. unfold F64.leb, F64.ltb, SFleb, SFltb.
  rewrite (SFcompare_swap f c).
  destruct (SFcompare f c) as [[| |]|] eqn:Hcmp; try reflexivity.
  destruct f, c; try discriminate; cbn in Hcmp; discriminate.
Qed.

Lemma py_le_negb_gt (total : pynum) (c : Z) :
  py_is_nan total = false -> py_le total c = negb (py_gt total c).
Proof.
  destruct total as [z|f]; cbn [py_is_nan py_le py_gt].
  - intros _. destruct (Z.leb_spec z c), (Z.ltb_spec c z); try reflexivity; lia.
  - intros Hf. apply leb_negb_ltb; [assumption|apply of_Z_not_nan].
Qed.

Lemma of_Z_500 : F64.of_Z 500 = S754_finite false 8796093022208000 (-44).
Proof. vm_compute. reflexivity. Qed.

Lemma of_Z_200 : F64.of_Z 200 = S754_finite false 7036874417766400 (-45).
Proof. vm_compute. reflexivity. Qed.

Lemma of_Z_50 : F64.of_Z 50 = S754_finite false 7036874417766400 (-47).
Proof. vm_compute. reflexivity. Qed.

(** A float above a double of smaller exponent is above any positive
    double of a still smaller exponent. *)
Lemma ltb_lower_exponent (f : F64.float) (m1 m2 : positive) (e1 e2 : Z) :
  e2 < e1 ->
  F64.ltb (S754_finite false m1 e1) f = true ->
  F64.ltb (S754_finite false m2 e2) f = true.
Proof.
  intros He. unfold F64.ltb, SFltb.
  destruct f as [s|s| |s m e]; cbn [SFcompare]; try discriminate.
  - destruct s; auto.
  - destruct s; try discriminate.
    destruct (Z.compare_spec e1 e) as [Heq|Hlt|Hgt]; try discriminate.
    + intros _. destruct (Z.compare_spec e2 e); try reflexivity; lia.
    + intros _. destruct (Z.compare_spec e2 e); try reflexivity; lia.
Qed.

Lemma py_gt_500_200 (total : pynum) :
  py_gt total 500 = true -> py_gt total 200 = true.
Proof.
  destruct total as [z|f]; cbn [py_gt].
  - intros H. apply Z.ltb_lt in H. apply Z.ltb_lt. lia.
  - rewrite of_Z_500, of_Z_200. apply ltb_lower_exponent. lia.
Qed.

Lemma py_gt_200_50 (total : pynum) :
  py_gt total 200 = true -> py_gt total 50 = true.
Proof.
  destruct total as [z|f]; cbn [py_gt].
  - intros H. apply Z.ltb_lt in H. apply Z.ltb_lt. lia.
  - rewrite of_Z_200, of_Z_50. apply ltb_lower_exponent. lia.
Qed.

(** C4.  The tier is computed from the post-discount total by the fixed
    thresholds: above 500 "Dangerous", above 200 and at most 500
    "Potentially Risky", above 50 and at most 200 "Moderate Risk", at most
    50 "Likely Safe".  In every run that ends with a report the tier is
    that of the discounted sum of the four sub-scores.  A pre-discount
    total of 600 for an allowlisted package becomes 180.0, which is
    "Moderate Risk", where 600 itself is "Dangerous". *)
Theorem risk_level_by_thresholds :
  (forall total : pynum,
      py_is_nan total = false ->
      (determine_risk_level total = Dangerous <-> py_gt total 500 = true)
      /\ (determine_risk_level total = PotentiallyRisky
          <-> py_gt total 200 = true /\ py_le total 500 = true)
      /\ (determine_risk_level total = ModerateRisk
          <-> py_gt total 50 = true /\ py_le total 200 = true)
      /\ (determine_risk_level total = LikelySafe <-> py_le total 50 = true))
  /\ (forall (safe : bool) (T : Z) (total : pynum) (note : string),
      apply_discount safe T = Ok (total, note) -> py_is_nan total = false)
  /\ (forall (w : world) (path : string) (m m' : machine) (r : scan_report),
      analyze_apk w path m = (Report r, m') ->
      exists total : pynum,
        apply_discount (is_known_safe_app r)
          (permission_score r + url_score r + code_analysis_score r
           + certificate_score r)
        = Ok (total, risk_note r)
        /\ overall_risk r = determine_risk_level total)
  /\ (apply_discount true 600
      = Ok (PyFloat (F64.of_Z 180), "Known safe app (score reduced)")
      /\ determine_risk_level (PyFloat (F64.of_Z 180)) = ModerateRisk
      /\ risk_level_text ModerateRisk = "Moderate Risk"
      /\ determine_risk_level (PyInt 600) = Dangerous).
Proof.
  split; [|split; [exact apply_discount_not_nan|split]].
  - intros total Hnan.
    pose proof (py_gt_500_200 total) as H52.
    pose proof (py_gt_200_50 total) as H25.
    rewrite !(py_le_negb_gt total) by assumption.
    unfold determine_risk_level.
    destruct (py_gt total 500), (py_gt total 200), (py_gt total 50);
      cbn [negb]; repeat split; intros; try discriminate; try reflexivity;
      try (specialize (H52 eq_refl); discriminate);
      try (specialize (H25 eq_refl); discriminate);
      try (destruct H; discriminate).
  - intros w path m m' r Hrun.
    apply analyze_apk_report_inv in Hrun
      as (a & total & _ & _ & _ & _ & _ & _ & _ & _ & _ & _ & Hd & Hl & _).
    exists total. auto.
  - vm_compute. repeat split; reflexivity.
Qed.

(** * Further properties *)

Lemma safe_app_step_ok (acc : gset string) (app : json) :
  entry_ok app = true ->
  exists s : gset string,
    safe_app_step acc app = Ok s
    /\ forall q, q ∈ s <-> q ∈ acc \/ listed [app] q.
Proof.
  unfold entry_ok, safe_app_step, listed.
  destruct app as [| | | |items|members]; try discriminate.
  destruct (members_get "package" members) as [package|] eqn:Hget.
  - destruct package as [|b|z|p|items|ms]; cbn [truthy];
      intros Hok;
      try (exists acc; split;
           [first [reflexivity | now apply negb_true_iff in Hok; rewrite Hok]|];
           intros q; split; [auto|];
           intros [Hq|(ms' & p' & [Hin|[]] & Hg & _)]; [exact Hq|];
           injection Hin as <-; rewrite Hget in Hg; discriminate).
    destruct (String.eqb_spec p "") as [->|Hne]; cbn [negb].
    + exists acc. split; [reflexivity|]. intros q. split; [auto|].
      intros [Hq|(ms' & p' & [Hin|[]] & Hg & Hp & _)]; [exact Hq|].
      injection Hin as <-. rewrite Hget in Hg. injection Hg as <-.
      now destruct Hp.
    + exists ({[ normalize p ]} ∪ acc). split; [reflexivity|].
      intros q. rewrite elem_of_union, elem_of_singleton. split.
      * intros [->|Hq]; [right|now left].
        exists members, p. repeat split; auto. now left.
      * intros [Hq|(ms' & p' & [Hin|[]] & Hg & Hp & ->)]; [now right|].
        injection Hin as <-. rewrite Hget in Hg. injection Hg as <-. now left.
  - intros _. exists acc. split; [reflexivity|]. intros q. split; [auto|].
    intros [Hq|(ms' & p' & [Hin|[]] & Hg & _)]; [exact Hq|].
    injection Hin as <-. rewrite Hget in Hg. discriminate.
Qed.

Lemma listed_cons (app : json) (rest : list json) (q : string) :
  listed (app :: rest) q <-> listed [app] q \/ listed rest q.
Proof.
  unfold listed. split.
  - intros (ms & p & [Hin|Hin] & H); [left|right]; exists ms, p;
      (split; [|exact H]); [now left|exact Hin].
  - intros [(ms & p & [Hin|[]] & H)|(ms & p & Hin & H)]; exists ms, p;
      (split; [|exact H]); [now left|now right].
Qed.

Lemma safe_apps_loop_ok (apps : list json) (acc : gset string) :
  forallb entry_ok apps = true ->
  exists s : gset string,
    safe_apps_loop apps acc = Ok s
    /\ forall q, q ∈ s <-> q ∈ acc \/ listed apps q.
Proof.
  revert acc. induction apps as [|app rest IH]; intros acc Hok.
  - exists acc. split; [reflexivity|]. intros q. split; [auto|].
    intros [Hq|(ms & p & [] & _)]. exact Hq.
  - cbn [forallb] in Hok. apply andb_true_iff in Hok as [Ha Hr].
    destruct (safe_app_step_ok acc app Ha) as (s1 & Hs1 & Hq1).
    destruct (IH s1 Hr) as (s & Hs & Hq).
    exists s. cbn [safe_apps_loop]. rewrite Hs1. cbn [mbind outcome_bind].
    split; [exact Hs|]. intros q.
    pose proof (Hq q) as H1. pose proof (Hq1 q) as H2.
    pose proof (listed_cons app rest q) as H3. tauto.
Qed.

(** An entry the loop cannot get through makes it raise. *)
Lemma safe_apps_loop_raises (apps : list json) (acc : gset string) :
  forallb entry_ok apps = false -> is_ok (safe_apps_loop apps acc) = false.
Proof.
  revert acc. induction apps as [|app rest IH]; intros acc Hbad;
    [discriminate|].
  cbn [forallb] in Hbad. cbn [safe_apps_loop].
  destruct (entry_ok app) eqn:Ha.
  - destruct (safe_app_step_ok acc app Ha) as (s1 & -> & _).
    cbn [mbind outcome_bind]. apply IH. exact Hbad.
  - clear Hbad IH. unfold entry_ok, safe_app_step in *.
    destruct app as [| | | |items|members]; try reflexivity.
    destruct (members_get "package" members) as [package|]; [|discriminate].
    destruct package as [|b|z|p|items|ms]; try discriminate;
      cbn [truthy] in *; apply negb_false_iff in Ha; rewrite ?Ha;
      reflexivity.
Qed.

(** The machine after one more reading of the clock. *)
Lemma load_safe_apps_refresh_run (w : world) (m : machine) (doc : json)
    (apps : list json) :
  cache_valid w m = false ->
  safe_apps_json w = FileJson doc ->
  iterate doc = Ok apps ->
  forallb entry_ok apps = true ->
  exists (s : gset string) (n : nat),
    load_safe_apps w m
    = (Ok s, MkMachine (Some s) (Some (now w n)) (S n) (calls m))
    /\ (clock_reads m <= n <= S (clock_reads m))%nat
    /\ forall q, q ∈ s <-> listed apps q.
Proof.
  intros Hv Hsrc Hit Hok.
  destruct (safe_apps_loop_ok apps ∅ Hok) as (s & Hs & Hq).
  assert (Hq' : forall q, q ∈ s <-> listed apps q).
  { intros q. rewrite Hq. split; [intros [H|H]; [set_solver|exact H]|auto]. }
  assert (Href : forall m0, or_empty (refresh w) m0
            = (Ok s, MkMachine (Some s) (Some (now w (clock_reads m0)))
                       (S (clock_reads m0)) (calls m0))).
  { intros m0. unfold or_empty, refresh. rewrite Hsrc.
    unfold mbind, M_bind, lift, outcome_bind, read_clock, store_cache, mret, M_ret.
    rewrite Hit, Hs. reflexivity. }
  unfold load_safe_apps, cache_valid in *.
  destruct (_safe_apps_cache m) as [cache|] eqn:Hc;
    [destruct (_safe_apps_last_loaded m) as [loaded|] eqn:Hl|].
  - unfold mbind, M_bind, read_clock. cbn [fst snd]. rewrite Hv.
    rewrite Href. cbn [clock_reads calls].
    exists s, (S (clock_reads m)). split; [reflexivity|]. split; [lia|exact Hq'].
  - rewrite Href. exists s, (clock_reads m). split; [reflexivity|].
    split; [lia|exact Hq'].
  - rewrite Href. exists s, (clock_reads m). split; [reflexivity|].
    split; [lia|exact Hq'].
Qed.

(** X1.  When the cache is not used (unset, or 300 seconds old or more) and
    the allowlist file parses to entries the loop gets through,
    [load_safe_apps] returns exactly the normal forms (lower case, no
    surrounding white space) of the non-empty ["package"] texts; it stores
    that set together with the time of the last clock reading.  A package
    is then found under any spelling with the same normal form. *)
Theorem load_safe_apps_reads_file (w : world) (m : machine) (doc : json)
    (apps : list json) :
  cache_valid w m = false ->
  safe_apps_json w = FileJson doc ->
  iterate doc = Ok apps ->
  forallb entry_ok apps = true ->
  exists s : gset string,
    fst (load_safe_apps w m) = Ok s
    /\ (forall q : string, q ∈ s <-> listed apps q)
    /\ (forall (members : list (string * json)) (p p' : string),
        In (JObject members) apps ->
        members_get "package" members = Some (JString p) ->
        p <> "" -> normalize p' = normalize p -> normalize p' ∈ s)
    /\ _safe_apps_cache (snd (load_safe_apps w m)) = Some s
    /\ _safe_apps_last_loaded (snd (load_safe_apps w m))
       = Some (now w (Nat.pred (clock_reads (snd (load_safe_apps w m))))).
Proof.
  intros Hv Hsrc Hit Hok.
  destruct (load_safe_apps_refresh_run w m doc apps Hv Hsrc Hit Hok)
    as (s & n & -> & _ & Hq).
  exists s. cbn [fst snd _safe_apps_cache _safe_apps_last_loaded clock_reads
                 Nat.pred].
  repeat split; try apply Hq; auto.
  intros members p p' Hin Hget Hp Hn. apply Hq. exists members, p. auto.
Qed.

(** X2.  After a refresh from the file, a call made less than 300 seconds
    after the stored time returns the same set and stores nothing, whatever
    the allowlist file holds by then (changed, unreadable or gone). *)
Theorem load_safe_apps_serves_cache (w w' : world) (m : machine) (doc : json)
    (apps : list json) (loaded : Z) :
  cache_valid w m = false ->
  safe_apps_json w = FileJson doc ->
  iterate doc = Ok apps ->
  forallb entry_ok apps = true ->
  _safe_apps_last_loaded (snd (load_safe_apps w m)) = Some loaded ->
  now w' (clock_reads (snd (load_safe_apps w m))) - loaded < ttl_microseconds ->
  fst (load_safe_apps w' (snd (load_safe_apps w m))) = fst (load_safe_apps w m)
  /\ _safe_apps_cache (snd (load_safe_apps w' (snd (load_safe_apps w m))))
     = _safe_apps_cache (snd (load_safe_apps w m))
  /\ _safe_apps_last_loaded (snd (load_safe_apps w' (snd (load_safe_apps w m))))
     = Some loaded.
Proof.
  intros Hv Hsrc Hit Hok.
  destruct (load_safe_apps_refresh_run w m doc apps Hv Hsrc Hit Hok)
    as (s & n & -> & _ & _).
  cbn [fst snd]. intros Hl Hage. cbn in Hl. injection Hl as <-.
  cbn [clock_reads] in Hage. apply Z.ltb_lt in Hage.
  unfold load_safe_apps. cbn [_safe_apps_cache _safe_apps_last_loaded].
  unfold mbind, M_bind, read_clock, mret, M_ret.
  cbn [clock_reads _safe_apps_cache _safe_apps_last_loaded calls].
  rewrite Hage. repeat split.
Qed.

(** X3.  [load_safe_apps] never raises and makes none of the aggregator's
    calls.  The set it returns is empty or is the set now cached; the cache
    and its time are as before or are both set, so the two globals stay set
    together; the clock is read at most twice. *)
Theorem load_safe_apps_discipline (w : world) (m : machine) :
  exists (s : gset string) (m' : machine),
    load_safe_apps w m = (Ok s, m')
    /\ calls m' = calls m
    /\ (s = ∅ \/ _safe_apps_cache m' = Some s)
    /\ ((_safe_apps_cache m' = _safe_apps_cache m
         /\ _safe_apps_last_loaded m' = _safe_apps_last_loaded m)
        \/ (_safe_apps_cache m' = Some s
            /\ is_Some (_safe_apps_last_loaded m')))
    /\ (globals_paired m -> globals_paired m')
    /\ (clock_reads m <= clock_reads m' <= clock_reads m + 2)%nat.
Proof.
  assert (Href : forall m0 : machine,
             exists (s : gset string) (m' : machine),
               or_empty (refresh w) m0 = (Ok s, m')
               /\ calls m' = calls m0
               /\ (s = ∅ \/ _safe_apps_cache m' = Some s)
               /\ ((m' = m0 /\ s = ∅)
                   \/ (_safe_apps_cache m' = Some s
                       /\ is_Some (_safe_apps_last_loaded m')))
               /\ (clock_reads m0 <= clock_reads m' <= clock_reads m0 + 1)%nat).
  { intros m0. unfold or_empty, refresh.
    destruct (safe_apps_json w) as [|e|doc].
    - exists ∅, m0. repeat split; auto; lia.
    - exists ∅, m0. repeat split; auto; lia.
    - unfold mbind, M_bind, lift, outcome_bind, read_clock, store_cache,
        mret, M_ret.
      destruct (iterate doc) as [apps|e];
        [destruct (safe_apps_loop apps ∅) as [s|e]|].
      + eexists s, _. split; [reflexivity|].
        cbn [calls _safe_apps_cache _safe_apps_last_loaded clock_reads].
        repeat split; eauto; lia.
      + exists ∅, m0. repeat split; auto; lia.
      + exists ∅, m0. repeat split; auto; lia. }
  unfold load_safe_apps, globals_paired.
  destruct (_safe_apps_cache m) as [cache|] eqn:Hc;
    [destruct (_safe_apps_last_loaded m) as [loaded|] eqn:Hl|].
  - unfold mbind, M_bind, read_clock. cbn [fst snd]. rewrite Hc, Hl.
    destruct (_ <? _).
    + unfold mret, M_ret. eexists cache, _. split; [reflexivity|].
      cbn [calls _safe_apps_cache _safe_apps_last_loaded clock_reads].
      repeat split; eauto; lia.
    + match goal with |- context [or_empty (refresh w) ?m0] =>
        destruct (Href m0) as (s & m' & -> & Hcalls & Hs & Hst & Hck) end.
      exists s, m'. split; [reflexivity|].
      cbn [calls clock_reads] in Hcalls, Hck.
      split; [exact Hcalls|]. split; [exact Hs|].
      split; [|split; [|lia]].
      * destruct Hst as [[-> _]|Hst]; [left; split; reflexivity|right; exact Hst].
      * intros _. destruct Hst as [[-> _]|[Hc' Hl']]; cbn.
        -- split; eauto.
        -- rewrite Hc'. split; eauto.
  - destruct (Href m) as (s & m' & -> & Hcalls & Hs & Hst & Hck).
    exists s, m'. split; [reflexivity|]. split; [exact Hcalls|].
    split; [exact Hs|]. split; [|split; [|lia]].
    + destruct Hst as [[-> _]|Hst]; [left; rewrite Hc, Hl; split; reflexivity
                                    |right; exact Hst].
    + intros Hp. destruct Hst as [[-> _]|[Hc' Hl']].
      * rewrite Hc, Hl. exact Hp.
      * rewrite Hc'. split; eauto.
  - destruct (Href m) as (s & m' & -> & Hcalls & Hs & Hst & Hck).
    exists s, m'. split; [reflexivity|]. split; [exact Hcalls|].
    split; [exact Hs|]. split; [|split; [|lia]].
    + destruct Hst as [[-> _]|Hst]; [left; rewrite Hc; split; reflexivity
                                    |right; exact Hst].
    + intros Hp. destruct Hst as [[-> _]|[Hc' Hl']].
      * rewrite Hc. exact Hp.
      * rewrite Hc'. split; eauto.
Qed.

Lemma load_safe_apps_reads_file_witness :
  exists s : gset string,
    fst (load_safe_apps sample_world fresh_machine) = Ok s
    /\ (forall q : string,
        q ∈ s
        <-> listed [JObject [("package", JString "com.bank.APP  ")];
                    JObject [("name", JString "no package")]] q)
    /\ (forall (members : list (string * json)) (p p' : string),
        In (JObject members)
          [JObject [("package", JString "com.bank.APP  ")];
           JObject [("name", JString "no package")]] ->
        members_get "package" members = Some (JString p) ->
        p <> "" -> normalize p' = normalize p -> normalize p' ∈ s)
    /\ _safe_apps_cache (snd (load_safe_apps sample_world fresh_machine))
       = Some s
    /\ _safe_apps_last_loaded (snd (load_safe_apps sample_world fresh_machine))
       = Some (now sample_world
                 (Nat.pred (clock_reads
                              (snd (load_safe_apps sample_world fresh_machine))))).
Proof.
  apply (load_safe_apps_reads_file sample_world fresh_machine
           (JArray [JObject [("package", JString "com.bank.APP  ")];
                    JObject [("name", JString "no package")]])
           [JObject [("package", JString "com.bank.APP  ")];
            JObject [("name", JString "no package")]]);
    reflexivity.
Defined.

Lemma load_safe_apps_serves_cache_witness :
  fst (load_safe_apps world_without_file_later
         (snd (load_safe_apps sample_world fresh_machine)))
  = fst (load_safe_apps sample_world fresh_machine)
  /\ _safe_apps_cache
       (snd (load_safe_apps world_without_file_later
               (snd (load_safe_apps sample_world fresh_machine))))
     = _safe_apps_cache (snd (load_safe_apps sample_world fresh_machine))
  /\ _safe_apps_last_loaded
       (snd (load_safe_apps world_without_file_later
               (snd (load_safe_apps sample_world fresh_machine))))
     = Some 0.
Proof.
  apply (load_safe_apps_serves_cache sample_world world_without_file_later
           fresh_machine
           (JArray [JObject [("package", JString "com.bank.APP  ")];
                    JObject [("name", JString "no package")]])
           [JObject [("package", JString "com.bank.APP  ")];
            JObject [("name", JString "no package")]] 0);
    try reflexivity.
Defined.

(** ** Normal form of a package name *)

Lemma rev_app_spec (s1 s2 : string) :
  String.rev_app s1 s2 = (String.rev s1 ++ s2)%string.
Proof.
  unfold String.rev. revert s2.
  induction s1 as [|a s1 IH]; intros s2; cbn [String.rev_app].
  - now rewrite append_nil_l.
  - rewrite (IH (String a s2)), (IH (String a "")).
    now rewrite append_assoc', append_cons, append_nil_l.
Qed.

Lemma rev_cons (a : ascii) (s : string) :
  String.rev (String a s) = (String.rev s ++ String a "")%string.
Proof. unfold String.rev at 1. cbn [String.rev_app]. apply rev_app_spec. Qed.

Lemma rev_append (s1 s2 : string) :
  String.rev (s1 ++ s2) = (String.rev s2 ++ String.rev s1)%string.
Proof.
  induction s1 as [|a s1 IH].
  - now rewrite append_nil_l, append_nil_r.
  - now rewrite append_cons, !rev_cons, IH, append_assoc'.
Qed.

Lemma rev_rev (s : string) : String.rev (String.rev s) = s.
Proof.
  induction s as [|a s IH]; [reflexivity|].
  rewrite rev_cons, rev_append, IH. reflexivity.
Qed.

Lemma lstrip_pad (pad s : string) :
  all_space pad = true -> lstrip (pad ++ s) = lstrip s.
Proof.
  induction pad as [|c pad IH]; intros Hp.
  - now rewrite append_nil_l.
  - cbn [all_space] in Hp. apply andb_true_iff in Hp as [Hc Hp].
    rewrite append_cons. cbn [lstrip]. rewrite Hc. auto.
Qed.

Lemma lstrip_all_space (s : string) : all_space s = true -> lstrip s = "".
Proof.
  intros H. rewrite <- (append_nil_r s). now rewrite lstrip_pad.
Qed.

(** What [lstrip] leaves is empty or begins with a character it keeps. *)
Lemma lstrip_head (s : string) :
  match lstrip s with
  | EmptyString => all_space s = true
  | String c _ => is_space c = false
  end.
Proof.
  induction s as [|c r IH]; [reflexivity|].
  cbn [lstrip all_space]. destruct (is_space c) eqn:Hc; [exact IH|exact Hc].
Qed.

Lemma lstrip_fixed (c : ascii) (r : string) :
  is_space c = false -> lstrip (String c r) = String c r.
Proof. intros Hc. cbn [lstrip]. now rewrite Hc. Qed.

Lemma lstrip_idem (s : string) : lstrip (lstrip s) = lstrip s.
Proof.
  pose proof (lstrip_head s) as H.
  destruct (lstrip s) as [|c r]; [reflexivity|now apply lstrip_fixed].
Qed.

(** Stripping on the left keeps what follows a character that stays. *)
Lemma lstrip_app_kept (s : string) (c : ascii) (t : string) :
  is_space c = false ->
  lstrip (s ++ String c t) = (lstrip s ++ String c t)%string.
Proof.
  intros Hc. induction s as [|d s IH].
  - rewrite !append_nil_l. now apply lstrip_fixed.
  - rewrite append_cons. cbn [lstrip]. destruct (is_space d).
    + exact IH.
    + now rewrite append_cons.
Qed.

Lemma all_space_rev (s : string) : all_space (String.rev s) = all_space s.
Proof.
  assert (Happ : forall s1 s2,
             all_space (s1 ++ s2) = all_space s1 && all_space s2).
  { induction s1 as [|a s1 IH]; intros s2.
    - now rewrite append_nil_l.
    - rewrite append_cons. cbn [all_space]. now rewrite IH, andb_assoc. }
  induction s as [|a s IH]; [reflexivity|].
  rewrite rev_cons, Happ, IH. cbn [all_space].
  now rewrite andb_true_r, andb_comm.
Qed.

Lemma strip_lstrip (s : string) : strip (lstrip s) = strip s.
Proof. unfold strip. now rewrite lstrip_idem. Qed.

(** [strip] takes white space off both ends. *)
Lemma strip_pad (pad1 pad2 s : string) :
  all_space pad1 = true -> all_space pad2 = true ->
  strip (pad1 ++ s ++ pad2) = strip s.
Proof.
  intros H1 H2. unfold strip. rewrite lstrip_pad by exact H1.
  pose proof (lstrip_head s) as Hs.
  destruct (lstrip s) as [|c t] eqn:Hl.
  - rewrite (lstrip_all_space (s ++ pad2)); [reflexivity|].
    clear Hl. induction s as [|a s IH]; [now rewrite append_nil_l|].
    cbn [all_space] in Hs. apply andb_true_iff in Hs as [Ha Hs].
    rewrite append_cons. cbn [all_space]. now rewrite Ha, IH.
  - assert (Hsplit : exists pre, s = (pre ++ String c t)%string
                                 /\ all_space pre = true).
    { clear Hs. induction s as [|a s IH]; [discriminate|].
      cbn [lstrip] in Hl. destruct (is_space a) eqn:Ha.
      - destruct (IH Hl) as (pre & -> & Hp). exists (String a pre).
        rewrite append_cons. cbn [all_space]. now rewrite Ha, Hp.
      - exists "". now rewrite append_nil_l. }
    destruct Hsplit as (pre & -> & Hpre).
    rewrite append_assoc', lstrip_pad by exact Hpre.
    rewrite append_cons, lstrip_fixed by exact Hs.
    rewrite <- append_cons, rev_append, lstrip_pad; [reflexivity|].
    now rewrite all_space_rev.
Qed.

(** What [strip] returns has no white space at either end. *)
Lemma strip_ends (s : string) :
  is_space <$> head_char (strip s) <> Some true
  /\ is_space <$> last_char (strip s) <> Some true.
Proof.
  assert (Hlast : forall u, last_char u = head_char (String.rev u)).
  { induction u as [|a u IH]; [reflexivity|].
    rewrite rev_cons. cbn [last_char]. rewrite IH.
    destruct u as [|b u]; [reflexivity|].
    rewrite rev_cons. destruct (String.rev u); reflexivity. }
  unfold strip. split.
  - pose proof (lstrip_head s) as Hs.
    destruct (lstrip s) as [|c t]; [cbn; discriminate|].
    rewrite rev_cons, lstrip_app_kept by exact Hs.
    rewrite rev_append. change (String.rev (String c "")) with (String c "").
    rewrite append_cons. cbn. rewrite Hs. discriminate.
  - rewrite Hlast, rev_rev.
    pose proof (lstrip_head (String.rev (lstrip s))) as Hr.
    destruct (lstrip (String.rev (lstrip s))) as [|c t]; [cbn; discriminate|].
    cbn. rewrite Hr. discriminate.
Qed.

Lemma strip_idem (s : string) : strip (strip s) = strip s.
Proof.
  pose proof (lstrip_head s) as Hs.
  assert (Hstrip : strip s = String.rev (lstrip (String.rev (lstrip s))))
    by reflexivity.
  destruct (lstrip s) as [|c t]; rewrite Hstrip; [reflexivity|].
  rewrite rev_cons, lstrip_app_kept by exact Hs.
  rewrite rev_append. change (String.rev (String c "")) with (String c "").
  rewrite append_cons, append_nil_l.
  unfold strip. rewrite lstrip_fixed by exact Hs.
  rewrite rev_cons, rev_rev, lstrip_app_kept by exact Hs.
  rewrite lstrip_idem, rev_append.
  change (String.rev (String c "")) with (String c "").
  now rewrite append_cons, append_nil_l.
Qed.

Lemma is_space_lower_char (c : ascii) : is_space (lower_char c) = is_space c.
Proof. destruct c as [[] [] [] [] [] [] [] []]; reflexivity. Qed.

Lemma lower_append (s1 s2 : string) :
  lower (s1 ++ s2) = (lower s1 ++ lower s2)%string.
Proof.
  induction s1 as [|a s1 IH]; [now rewrite !append_nil_l|].
  rewrite append_cons. cbn [lower]. now rewrite IH, append_cons.
Qed.

Lemma lower_rev (s : string) : lower (String.rev s) = String.rev (lower s).
Proof.
  induction s as [|a s IH]; [reflexivity|].
  cbn [lower]. now rewrite !rev_cons, lower_append, IH.
Qed.

Lemma lower_lstrip (s : string) : lower (lstrip s) = lstrip (lower s).
Proof.
  induction s as [|a s IH]; [reflexivity|].
  cbn [lstrip lower]. rewrite is_space_lower_char.
  destruct (is_space a); [exact IH|reflexivity].
Qed.

Lemma lower_strip (s : string) : lower (strip s) = strip (lower s).
Proof. unfold strip. now rewrite lower_rev, lower_lstrip, lower_rev, lower_lstrip. Qed.

Lemma lower_idem (s : string) : lower (lower s) = lower s.
Proof.
  induction s as [|a s IH]; [reflexivity|].
  cbn [lower]. now rewrite lower_char_idem, IH.
Qed.

Lemma all_space_lower (s : string) : all_space (lower s) = all_space s.
Proof.
  induction s as [|a s IH]; [reflexivity|].
  cbn [lower all_space]. now rewrite is_space_lower_char, IH.
Qed.

Lemma no_upper_lower (s : string) : no_upper (lower s) = true.
Proof.
  induction s as [|a s IH]; [reflexivity|].
  cbn [lower no_upper]. rewrite IH, andb_true_r.
  destruct a as [[] [] [] [] [] [] [] []]; reflexivity.
Qed.

Lemma no_upper_append (s1 s2 : string) :
  no_upper (s1 ++ s2) = no_upper s1 && no_upper s2.
Proof.
  induction s1 as [|a s1 IH]; [now rewrite append_nil_l|].
  rewrite append_cons. cbn [no_upper]. now rewrite IH, andb_assoc.
Qed.

Lemma no_upper_rev (s : string) : no_upper (String.rev s) = no_upper s.
Proof.
  induction s as [|a s IH]; [reflexivity|].
  rewrite rev_cons, no_upper_append, IH. cbn [no_upper].
  now rewrite andb_true_r, andb_comm.
Qed.

Lemma no_upper_lstrip (s : string) : no_upper s = true -> no_upper (lstrip s) = true.
Proof.
  induction s as [|a s IH]; [reflexivity|].
  cbn [lstrip]. destruct (is_space a); [|auto].
  cbn [no_upper]. intros H. apply andb_true_iff in H as [_ H]. auto.
Qed.

(** X4.  The normal form [package.lower().strip()] under which packages
    are stored in the allowlist and looked up: taking it twice changes
    nothing, it is the same for two spellings that differ in letter case or
    in white space around the name, and it has no capital A to Z and no
    white space at either end. *)
Theorem normalize_normal_form :
  (forall p : string, normalize (normalize p) = normalize p)
  /\ (forall p q : string, lower p = lower q -> normalize p = normalize q)
  /\ (forall pad1 pad2 p : string,
      all_space pad1 = true -> all_space pad2 = true ->
      normalize (pad1 ++ p ++ pad2) = normalize p)
  /\ (forall p : string,
      no_upper (normalize p) = true
      /\ is_space <$> head_char (normalize p) <> Some true
      /\ is_space <$> last_char (normalize p) <> Some true).
Proof.
  unfold normalize. split; [|split; [|split]].
  - intros p. now rewrite lower_strip, lower_idem, strip_idem.
  - intros p q ->. reflexivity.
  - intros pad1 pad2 p H1 H2. rewrite !lower_append.
    apply strip_pad; now rewrite all_space_lower.
  - intros p. split; [|apply strip_ends].
    unfold strip. rewrite no_upper_rev. apply no_upper_lstrip.
    rewrite no_upper_rev. apply no_upper_lstrip. apply no_upper_lower.
Qed.

(** ** What the URL pattern extracts *)

Lemma strip_prefix_inv (p s r : string) :
  strip_prefix p s = Some r -> s = (p ++ r)%string.
Proof.
  revert s. induction p as [|a p IH]; intros s H.
  - cbn in H. injection H as ->. now rewrite append_nil_l.
  - destruct s as [|b s]; [discriminate|]. cbn [strip_prefix] in H.
    destruct (Ascii.eqb_spec a b) as [->|]; [|discriminate].
    rewrite append_cons. f_equal. auto.
Qed.

Lemma span_host_inv (s h t : string) :
  span_host s = (h, t) ->
  s = (h ++ t)%string /\ all_host_chars h = true.
Proof.
  revert h t. induction s as [|c r IH]; intros h t H; cbn [span_host] in H.
  - injection H as <- <-. split; reflexivity.
  - destruct (is_host_char c) eqn:Hc.
    + destruct (span_host r) as [h' t']. injection H as <- <-.
      destruct (IH h' t' eq_refl) as [-> Hh]. rewrite append_cons.
      split; [reflexivity|]. cbn [all_host_chars]. now rewrite Hc.
    + injection H as <- <-. rewrite append_nil_l. split; reflexivity.
Qed.

Lemma match_url_at_inv (s host : string) (n : nat) :
  match_url_at s = Some (host, n) ->
  exists (scheme rest : string) (c : ascii),
    (scheme = "http://" \/ scheme = "https://")
    /\ s = (scheme ++ host ++ String c rest)%string
    /\ host <> "" /\ all_host_chars host = true /\ is_url_end c = true.
Proof.
  unfold match_url_at, match_scheme.
  assert (Hbody : forall (scheme r : string) (k : nat),
             s = (scheme ++ r)%string ->
             match span_host r with
             | (EmptyString, _) => None
             | (h, String c _) =>
                 if is_url_end c
                 then Some (h, (k + String.length h + 1)%nat)
                 else None
             | (_, EmptyString) => None
             end = Some (host, n) ->
             exists (rest : string) (c : ascii),
               s = (scheme ++ host ++ String c rest)%string
               /\ host <> "" /\ all_host_chars host = true
               /\ is_url_end c = true).
  { intros scheme r k -> H.
    destruct (span_host r) as [h t] eqn:Hspan.
    apply span_host_inv in Hspan as [-> Hh].
    destruct h as [|a h]; [discriminate|].
    destruct t as [|c t]; [discriminate|].
    destruct (is_url_end c) eqn:Hc; [|discriminate].
    injection H as <- _. exists t, c. repeat split; auto. }
  destruct (strip_prefix "https://" s) as [r|] eqn:H8.
  - apply strip_prefix_inv in H8. intros H.
    destruct (Hbody "https://" r 8%nat H8 H) as (rest & c & Hs & H').
    exists "https://", rest, c. auto.
  - destruct (strip_prefix "http://" s) as [r|] eqn:H7; [|discriminate].
    apply strip_prefix_inv in H7. intros H.
    destruct (Hbody "http://" r 7%nat H7 H) as (rest & c & Hs & H').
    exists "http://", rest, c. auto.
Qed.

Lemma findall_from_sound (s : string) (skip : nat) (host : string) :
  In host (findall_from skip s) ->
  exists (pre scheme rest : string) (c : ascii),
    (scheme = "http://" \/ scheme = "https://")
    /\ s = (pre ++ scheme ++ host ++ String c rest)%string
    /\ host <> "" /\ all_host_chars host = true /\ is_url_end c = true.
Proof.
  revert skip. induction s as [|a s IH]; intros skip Hin; [destruct Hin|].
  assert (Hlater : forall k, In host (findall_from k s) ->
            exists (pre scheme rest : string) (c : ascii),
              (scheme = "http://" \/ scheme = "https://")
              /\ String a s = (pre ++ scheme ++ host ++ String c rest)%string
              /\ host <> "" /\ all_host_chars host = true
              /\ is_url_end c = true).
  { intros k Hk. destruct (IH k Hk) as (pre & scheme & rest & c & Hs & -> & H).
    exists (String a pre), scheme, rest, c. rewrite append_cons. auto. }
  cbn [findall_from] in Hin. destruct skip as [|k]; [|eauto].
  destruct (match_url_at (String a s)) as [[h n]|] eqn:Hm; [|eauto].
  destruct Hin as [->|Hin]; [|eauto].
  apply match_url_at_inv in Hm as (scheme & rest & c & Hs & Heq & H).
  exists "", scheme, rest, c. rewrite append_nil_l. auto.
Qed.

(** X5.  Every host the URL pattern extracts from a text stands in the
    text after [http://] or [https://] and before [/] or [?]; it is not
    empty and is made of letters, digits, dots and hyphens only.  So a
    finding of the domain scanner always names such a host, of length 5
    or more. *)
Theorem findall_hosts_occur :
  (forall text host : string,
      In host (findall text) ->
      exists (pre scheme rest : string) (c : ascii),
        (scheme = "http://" \/ scheme = "https://")
        /\ text = (pre ++ scheme ++ host ++ String c rest)%string
        /\ host <> "" /\ all_host_chars host = true /\ is_url_end c = true)
  /\ (forall (a : apk) (f : url_finding),
      In f (analyze_urls a) ->
      exists (pool : list pool_item) (text : string),
        get_strings a = Ok pool
        /\ In (Decoded text) pool
        /\ In (url f) (findall text)
        /\ (5 <= String.length (url f))%nat).
Proof.
  split; [intros text host; apply findall_from_sound|].
  intros a f Hin. unfold analyze_urls in Hin.
  destruct (get_strings a) as [pool|e]; [|destruct Hin].
  rewrite urls_loop_flat_map in Hin. cbn [app] in Hin.
  apply in_flat_map in Hin as (text & Htext & Hin).
  apply in_flat_map in Hin as (d & Hd & Hin).
  exists pool, text. split; [reflexivity|].
  assert (Hpool : In (Decoded text) pool).
  { clear -Htext. induction pool as [|[t|e] pool IH]; [destruct Htext| |].
    - cbn [scanned_texts] in Htext. destruct Htext as [->|H]; [now left|right; auto].
    - cbn [scanned_texts] in Htext. destruct (is_skipped e); [right; auto|destruct Htext]. }
  split; [exact Hpool|].
  unfold classify_domain in Hin.
  destruct (Nat.ltb_spec (String.length d) 5) as [|Hlen]; [destruct Hin|].
  destruct (bool_decide (d ∈ KNOWN_BAD_DOMAINS)).
  - destruct Hin as [<-|[]]. cbn [url]. auto.
  - destruct (_ && _); [|destruct Hin].
    destruct Hin as [<-|[]]. cbn [url]. auto.
Qed.

(** ** A scan that meets an exception *)

Lemma scanned_texts_unhandled (pre rest : list pool_item) (e : exn) :
  is_skipped e = false ->
  scanned_texts (pre ++ Undecoded e :: rest)%list = scanned_texts pre.
Proof.
  intros He. induction pre as [|[t|e'] pre IH]; cbn [app scanned_texts].
  - now rewrite He.
  - now rewrite IH.
  - destruct (is_skipped e'); [exact IH|reflexivity].
Qed.

Lemma scanned_texts_handled (pre rest : list pool_item) (e : exn) :
  is_skipped e = true ->
  scanned_texts (pre ++ Undecoded e :: rest)%list = scanned_texts (pre ++ rest)%list.
Proof.
  intros He. induction pre as [|[t|e'] pre IH]; cbn [app scanned_texts].
  - now rewrite He.
  - now rewrite IH.
  - destruct (is_skipped e'); [exact IH|reflexivity].
Qed.

Lemma analyze_code_patterns_flat_map (a : apk) (pool : list pool_item) :
  get_strings a = Ok pool ->
  analyze_code_patterns (Ok a) = flat_map pattern_findings (scanned_texts pool).
Proof.
  intros Hs. unfold analyze_code_patterns. rewrite Hs.
  now rewrite code_loop_flat_map.
Qed.

(** X6.  An exception in the two scanners.  When the string pool cannot
    be obtained, or the package cannot be opened again, the scan returns no
    finding.  A pool entry whose conversion raises an exception other than
    the two handled ones ends the scan: the findings of the entries before
    it are returned and the entries after it are never examined.  An entry
    that raises one of the two handled exceptions changes nothing: the
    findings are those of the pool without it. *)
Theorem scans_and_exceptions :
  (forall (a : apk) (e : exn),
      get_strings a = Raise e ->
      analyze_urls a = [] /\ analyze_code_patterns (Ok a) = [])
  /\ (forall e : exn, analyze_code_patterns (Raise e) = [])
  /\ (forall (a : apk) (pre rest : list pool_item) (e : exn),
      is_skipped e = false ->
      get_strings a = Ok (pre ++ Undecoded e :: rest)%list ->
      analyze_urls a = analyze_urls (with_strings a (Ok pre))
      /\ analyze_code_patterns (Ok a)
         = analyze_code_patterns (Ok (with_strings a (Ok pre))))
  /\ (forall (a : apk) (pre rest : list pool_item) (e : exn),
      is_skipped e = true ->
      get_strings a = Ok (pre ++ Undecoded e :: rest)%list ->
      analyze_urls a = analyze_urls (with_strings a (Ok (pre ++ rest)%list))
      /\ analyze_code_patterns (Ok a)
         = analyze_code_patterns (Ok (with_strings a (Ok (pre ++ rest)%list)))).
Proof.
  split; [|split; [reflexivity|split]].
  - intros a e Hs. unfold analyze_urls, analyze_code_patterns. now rewrite Hs.
  - intros a pre rest e He Hs.
    rewrite (analyze_urls_flat_map a _ Hs),
      (analyze_urls_flat_map (with_strings a (Ok pre)) pre eq_refl),
      (analyze_code_patterns_flat_map a _ Hs),
      (analyze_code_patterns_flat_map (with_strings a (Ok pre)) pre eq_refl).
    now rewrite (scanned_texts_unhandled pre rest e He).
  - intros a pre rest e He Hs.
    rewrite (analyze_urls_flat_map a _ Hs),
      (analyze_urls_flat_map (with_strings a (Ok (pre ++ rest)%list)) _ eq_refl),
      (analyze_code_patterns_flat_map a _ Hs),
      (analyze_code_patterns_flat_map (with_strings a (Ok (pre ++ rest)%list)) _ eq_refl).
    now rewrite (scanned_texts_handled pre rest e He).
Qed.

(** ** The catalogue patterns as substring tests *)





(** ** The two patterns that end in a word boundary *)





(** ** The high-risk list and the annotations *)

Lemma high_risk_by_label (permissions : list string) :
  high_risk permissions
  = List.filter (fun p => is_high (get_permission_risk p)) permissions.
Proof.
  unfold high_risk. apply List.filter_ext. intros p.
  unfold get_permission_risk.
  destruct (100 <=? table_score p); [reflexivity|].
  destruct (50 <=? table_score p); reflexivity.
Qed.

(** X9.  The high-risk list [calculate_permission_score] returns holds
    exactly the permissions [get_permission_risk] annotates "High Risk", in
    input order and with repetitions; so in every report the field
    [high_risk_permissions] lists the entries of [permissions] whose risk is
    "High Risk". *)
Theorem high_risk_list_is_annotation :
  (forall (perms hi : list string) (n : Z),
      calculate_permission_score perms = Ok (n, hi) ->
      hi = List.filter (fun p => is_high (get_permission_risk p)) perms)
  /\ (forall (w : world) (path : string) (m m' : machine) (r : scan_report),
      analyze_apk w path m = (Report r, m') ->
      high_risk_permissions r
      = map fst (List.filter (fun entry => is_high (snd entry)) (permissions r))
      /\ forall p : string,
           In p (high_risk_permissions r) <-> In (p, HighRisk) (permissions r)).
Proof.
  assert (Hfun : forall (perms hi : list string) (n : Z),
             calculate_permission_score perms = Ok (n, hi) ->
             hi = List.filter (fun p => is_high (get_permission_risk p)) perms).
  { intros perms hi n. rewrite calculate_permission_score_amplified.
    destruct (amplified _ _) as [k|e]; [|discriminate].
    cbn [mbind outcome_bind]. intros H. injection H as _ <-.
    apply high_risk_by_label. }
  split; [exact Hfun|].
  intros w path m m' r Hrun.
  apply analyze_apk_report_inv in Hrun
    as (a & total & _ & _ & _ & _ & Hp & _ & _ & _ & _ & _ & _ & _ & _ & Hperms & _).
  apply Hfun in Hp. rewrite Hp, Hperms.
  generalize (default [] (get_permissions a)). intros perms.
  split.
  - induction perms as [|p perms IH]; [reflexivity|].
    cbn [map List.filter snd].
    destruct (is_high (get_permission_risk p)); cbn [map fst]; now rewrite IH.
  - intros p. rewrite filter_In, in_map_iff. split.
    + intros [Hin Hh]. exists p. split; [|exact Hin]. f_equal.
      destruct (get_permission_risk p); try discriminate. reflexivity.
    + intros (q & Heq & Hin). injection Heq as -> Hl. split; [exact Hin|].
      now rewrite Hl.
Qed.

(** ** The errors of a run *)







(** ** Rounding to nearest, in full *)

Lemma shifted_start (M : Z) :
  0 <= M -> shifted M 0 (shr_record_of_loc M loc_Exact).
Proof.
  intros HM. split; [exact HM|]. exists 0. cbn. split; [lia|].
  split; [lia|]. split; [discriminate|lia].
Qed.

Lemma shifted_shr_1 (M j : Z) (mrs : shr_record) :
  0 <= j -> shifted M j mrs -> shifted M (j + 1) (shr_1 mrs).
Proof.
  intros Hj [Hq (v & HM & Hv & Hs)].
  destruct mrs as [q r s]. cbn [shr_m shr_r shr_s] in *.
  assert (HJ : 0 < 2 ^ j) by (apply Z.pow_pos_nonneg; lia).
  assert (HJ1 : 2 ^ (j + 1) = 2 * 2 ^ j)
    by (rewrite Z.pow_add_r by lia; change (2 ^ 1) with 2; lia).
  assert (Hst : forall v' : Z,
             v' = (if r then 2 ^ j else 0) + v ->
             0 <= v' < 2 ^ (j + 1) /\ (r || s = true <-> 0 < v')).
  { intros v' ->. rewrite HJ1. destruct r; cbn [orb].
    - split; [lia|]. split; [lia|reflexivity].
    - split; [lia|]. rewrite Hs. split; intros; lia. }
  destruct q as [|[p|p|]|p]; try lia; unfold shifted;
    cbn [shr_1 shr_m shr_r shr_s];
    (split; [lia|]); exists ((if r then 2 ^ j else 0) + v);
    (split; [|exact (Hst _ eq_refl)]); rewrite HJ1.
  - lia.
  - rewrite (Pos2Z.inj_xI p) in HM. lia.
  - rewrite (Pos2Z.inj_xO p) in HM. lia.
  - lia.
Qed.

Lemma shifted_iter (p : positive) (M j : Z) (mrs : shr_record) :
  0 <= j -> shifted M j mrs ->
  shifted M (j + Z.pos p) (@SpecFloat.iter_pos shr_record shr_1 p mrs).
Proof.
  revert j mrs. induction p as [p IH|p IH|]; intros j mrs Hj H;
    cbn [SpecFloat.iter_pos].
  - replace (j + Z.pos p~1) with (j + 1 + Z.pos p + Z.pos p) by lia.
    apply IH; [lia|]. apply IH; [lia|]. now apply shifted_shr_1.
  - replace (j + Z.pos p~0) with (j + Z.pos p + Z.pos p) by lia.
    apply IH; [lia|]. now apply IH.
  - now apply shifted_shr_1.
Qed.

(** Rounding the shifted record to nearest, ties to even. *)
Lemma round_nearest_even_shifted (M j : Z) (mrs : shr_record) :
  0 <= j -> shifted M j mrs ->
  let m2 := round_nearest_even (shr_m mrs) (loc_of_shr_record mrs) in
  shr_m mrs = M / 2 ^ j
  /\ shr_m mrs <= m2 <= shr_m mrs + 1
  /\ 2 * M - 2 ^ j <= 2 * (m2 * 2 ^ j) <= 2 * M + 2 ^ j.
Proof.
  intros Hj [Hq (v & HM & Hv & Hs)].
  destruct mrs as [q r s]. cbn [shr_m shr_r shr_s] in *.
  assert (HJ : 0 < 2 ^ j) by (apply Z.pow_pos_nonneg; lia).
  cbv zeta. split.
  - apply Z.div_unique with (M - q * 2 ^ j).
    + left. destruct r; lia.
    + lia.
  - destruct r, s; cbn [loc_of_shr_record round_nearest_even].
    + assert (0 < v) by (apply Hs; reflexivity). split; lia.
    + assert (~ 0 < v) by (intros H; apply Hs in H; discriminate).
      change (IntDef.Z.even q) with (Z.even q).
      destruct (Z.even q); split; lia.
    + assert (0 < v) by (apply Hs; reflexivity). split; lia.
    + assert (~ 0 < v) by (intros H; apply Hs in H; discriminate). split; lia.
Qed.

(** The record [shr_fexp] leaves, when bits are shifted out. *)
Lemma shr_fexp_shifted (m : positive) (e : Z) :
  let n := fexp F64.prec F64.emax (Z.pos (digits2_pos m) + e) - e in
  0 < n ->
  shifted (Z.pos m) n (fst (shr_fexp F64.prec F64.emax (Z.pos m) e loc_Exact))
  /\ snd (shr_fexp F64.prec F64.emax (Z.pos m) e loc_Exact) = e + n.
Proof.
  intros n. unfold shr_fexp, shr. cbn [Zdigits2]. fold n.
  destruct n as [|p|p] eqn:Hn; intros H; try lia.
  cbn [fst snd]. split; [|reflexivity].
  apply (shifted_iter p (Z.pos m) 0); [lia|]. apply shifted_start. lia.
Qed.

Lemma binary_round_aux_nearest (m : positive) (e : Z) :
  53 <= Z.pos (digits2_pos m) ->
  -1074 <= Z.pos (digits2_pos m) + e - 53 ->
  nearest m e (binary_round_aux F64.prec F64.emax false (Z.pos m) e loc_Exact).
Proof.
  intros Hd Hn. unfold binary_round_aux, nearest.
  pose proof (digits2_pos_bounds m) as [Dlo Dhi].
  pose proof (shr_fexp_pos m e loc_Exact) as [Hnoshift _].
  pose proof (shr_fexp_shifted m e) as Hshift. cbv zeta in *.
  rewrite fexp_normal in Hnoshift, Hshift by lia.
  set (d := Z.pos (digits2_pos m)) in *.
  change (F64.emax - F64.prec) with 971.
  destruct (Z.eq_dec d 53) as [Hd53|Hd53].
  - (* exactly 53 digits: nothing is shifted out *)
    rewrite Hnoshift by lia.
    cbn [shr_record_of_loc shr_m loc_of_shr_record round_nearest_even].
    rewrite Hnoshift by lia. cbn [shr_record_of_loc shr_m].
    destruct (Z.leb_spec e 971) as [He|He]; [|split; [reflexivity|lia]].
    replace (e - e) with 0 by lia. replace (d - 53) with 0 by lia.
    change (2 ^ 0) with 1.
    split; [reflexivity|]. split; [exact Hd53|]. split; [lia|].
    split; [lia|]. lia.
  - destruct (Hshift ltac:(lia)) as [Hsh He1]. clear Hshift Hnoshift.
    destruct (shr_fexp F64.prec F64.emax (Z.pos m) e loc_Exact) as [mrs1 e1].
    cbn [fst snd] in Hsh, He1.
    replace (d + e - 53 - e) with (d - 53) in Hsh, He1 by lia.
    set (n := d - 53) in *. set (N := 2 ^ n) in *.
    assert (HN : 0 < N) by (apply Z.pow_pos_nonneg; lia).
    assert (Hd1 : 2 ^ (d - 1) = N * 2 ^ 52).
    { unfold N. rewrite <- Z.pow_add_r by lia. f_equal. lia. }
    assert (Hd2 : 2 ^ d = N * 2 ^ 53).
    { unfold N. rewrite <- Z.pow_add_r by lia. f_equal. lia. }
    destruct (round_nearest_even_shifted (Z.pos m) n mrs1 ltac:(lia) Hsh)
      as (Hq & Hr & Hnear). fold N in Hq, Hnear.
    assert (Hlo1 : 2 ^ 52 <= shr_m mrs1).
    { rewrite Hq. apply Z.div_le_lower_bound; lia. }
    assert (Hhi1 : shr_m mrs1 < 2 ^ 53).
    { rewrite Hq. apply Z.div_lt_upper_bound; lia. }
    set (m2 := round_nearest_even (shr_m mrs1) (loc_of_shr_record mrs1)) in *.
    destruct m2 as [|q|q] eqn:Hm2; try lia.
    pose proof (shr_fexp_pos q e1 loc_Exact) as [Hnoshift Hshift].
    cbv zeta in *.
    destruct (Z_lt_ge_dec (Z.pos q) (2 ^ 53)) as [Hlt|Hge].
    + assert (Hdq : Z.pos (digits2_pos q) = 53)
        by (apply digits2_pos_unique; change (53 - 1) with 52; lia).
      rewrite Hdq in Hnoshift. rewrite fexp_normal in Hnoshift by lia.
      rewrite Hnoshift by lia. cbn [shr_record_of_loc shr_m].
      destruct (Z.leb_spec e1 971) as [He|He]; [|split; [reflexivity|lia]].
      replace (e1 - e) with n by lia. fold N.
      split; [reflexivity|]. split; [exact Hdq|]. split; [lia|].
      split; [lia|]. lia.
    + assert (Hq53 : Z.pos q = 2 ^ 53) by lia.
      assert (Hdq : Z.pos (digits2_pos q) = 54).
      { apply digits2_pos_unique. rewrite Hq53. change (54 - 1) with 53.
        split; [lia|]. apply Z.pow_lt_mono_r; lia. }
      rewrite Hdq in Hshift. rewrite fexp_normal in Hshift by lia.
      destruct (Hshift ltac:(lia)) as [Hm3 He3]. clear Hshift Hnoshift.
      destruct (shr_fexp F64.prec F64.emax (Z.pos q) e1 loc_Exact) as [mrs2 e2].
      cbn [fst snd] in Hm3, He3.
      replace (54 + e1 - 53 - e1) with 1 in Hm3, He3 by lia.
      rewrite Hq53 in Hm3. change (2 ^ 53 / 2 ^ 1) with (2 ^ 52) in Hm3.
      rewrite Hm3. change (2 ^ 52) with (Z.pos (2 ^ 52)%positive).
      destruct (Z.leb_spec e2 971) as [He|He]; [|split; [reflexivity|lia]].
      replace (e2 - e) with (n + 1) by lia.
      rewrite Z.pow_add_r by lia. fold N. change (2 ^ 1) with 2.
      split; [reflexivity|]. split; [reflexivity|]. split; [lia|].
      split; [lia|].
      change (Z.pos (2 ^ 52)%positive) with (2 ^ 52).
      change (2 ^ 53) with (2 ^ 52 * 2) in Hq53. lia.
Qed.

(** The double of a positive integer has a mantissa of 53 digits. *)
Lemma of_Z_canonical (p : positive) :
  match F64.of_Z (Z.pos p) with
  | S754_finite s m e =>
      s = false /\ Z.pos (digits2_pos m) = 53 /\ -52 <= e <= 971
      /\ (Z.pos p < 2 ^ 53 -> e <= 0 /\ Z.pos m = Z.pos p * 2 ^ (- e))
  | S754_infinity s => s = false /\ 2 ^ 53 <= Z.pos p
  | _ => False
  end.
Proof.
  unfold F64.of_Z, binary_normalize, binary_round, shl_align.
  pose proof (digits2_pos_bounds p) as [Dlo Dhi].
  rewrite fexp_normal by lia.
  set (d := Z.pos (digits2_pos p)) in *.
  assert (Hbig : 53 <= d -> 2 ^ 52 <= Z.pos p).
  { intros H. assert (2 ^ 52 <= 2 ^ (d - 1)) by (apply Z.pow_le_mono_r; lia).
    lia. }
  assert (Hsame : forall (e' : Z) (m' : positive),
             Z.pos (digits2_pos m') = 53 -> d = 53 ->
             (e' = 0 + d - 53 \/ e' = 0 + d - 52) ->
             2 * Z.pos p - 2 ^ (d - 53) <= 2 * (Z.pos m' * 2 ^ (e' - 0))
               <= 2 * Z.pos p + 2 ^ (d - 53) ->
             e' <= 0 /\ Z.pos m' = Z.pos p * 2 ^ (- e')).
  { intros e' m' Hdm Hd53 He Hnear. rewrite Hd53 in *.
    pose proof (digits2_pos_bounds m') as [Mlo Mhi]. rewrite Hdm in Mlo, Mhi.
    change (53 - 1) with 52 in *. change (2 ^ (53 - 53)) with 1 in Hnear.
    destruct He as [->| ->].
    - change (2 ^ (0 + 53 - 53 - 0)) with 1 in Hnear.
      change (2 ^ (- (0 + 53 - 53))) with 1. lia.
    - change (2 ^ (0 + 53 - 52 - 0)) with 2 in Hnear.
      change (2 ^ 53) with (2 * 2 ^ 52) in *. lia. }
  assert (Hcase : forall k : Z, k = 0 \/ 0 < k -> d + 0 - 53 - 0 = k ->
             match binary_round_aux F64.prec F64.emax false (Z.pos p) 0 loc_Exact with
             | S754_finite s m e =>
                 s = false /\ Z.pos (digits2_pos m) = 53 /\ -52 <= e <= 971
                 /\ (Z.pos p < 2 ^ 53 -> e <= 0 /\ Z.pos m = Z.pos p * 2 ^ (- e))
             | S754_infinity s => s = false /\ 2 ^ 53 <= Z.pos p
             | _ => False
             end).
  { intros k Hk0 Hk.
    pose proof (binary_round_aux_nearest p 0 ltac:(fold d; lia)
                  ltac:(fold d; lia)) as H.
    unfold nearest in H. cbv zeta in H. fold d in H.
    destruct (binary_round_aux _ _ _ _ _ _) as [s|s| |s m e];
      cbv beta iota in H; try contradiction.
    - destruct H as [-> H]. split; [reflexivity|].
      assert (2 ^ 53 <= 2 ^ (d - 1)) by (apply Z.pow_le_mono_r; lia). lia.
    - destruct H as (-> & Hdm & He & He9 & Hnear).
      split; [reflexivity|]. split; [exact Hdm|]. split; [lia|].
      intros Hsmall.
      assert (d = 53).
      { destruct (Z.eq_dec d 53); [assumption|].
        assert (2 ^ 53 <= 2 ^ (d - 1)) by (apply Z.pow_le_mono_r; lia). lia. }
      now apply Hsame. }
  destruct (d + 0 - 53 - 0) as [|k|k] eqn:Hk.
  - apply (Hcase 0); [now left|reflexivity].
  - apply (Hcase (Z.pos k)); [right; lia|reflexivity].
  - clear Hcase.
    destruct (shift_to_full p k ltac:(fold d; lia)) as (Hmz & Hdz & Hpow).
    fold d in Hmz, Hpow.
    change (PosDef.Pos.iter xO p k) with (Pos.iter xO p k).
    pose proof (binary_round_aux_nearest (Pos.iter xO p k) (d + 0 - 53)
                  ltac:(rewrite Hdz; lia) ltac:(rewrite Hdz; lia)) as H.
    unfold nearest in H. cbv zeta in H. rewrite Hdz in H.
    destruct (binary_round_aux _ _ _ _ _ _) as [s|s| |s m e];
      cbv beta iota in H; try contradiction.
    + destruct H as [_ H]. lia.
    + destruct H as (-> & Hdm & He & He9 & Hnear).
      split; [reflexivity|]. split; [exact Hdm|]. split; [lia|]. intros _.
      pose proof (digits2_pos_bounds m) as [Mlo Mhi]. rewrite Hdm in Mlo, Mhi.
      change (53 - 1) with 52 in *. change (2 ^ (53 - 53)) with 1 in Hnear.
      rewrite Hmz in Hnear.
      assert (HK : 0 < 2 ^ (53 - d)) by (apply Z.pow_pos_nonneg; lia).
      assert (Hp53 : Z.pos p * 2 ^ (53 - d) < 2 ^ 53).
      { assert (2 ^ (53 - d) * 2 ^ d = 2 ^ 53)
          by (rewrite <- Z.pow_add_r by lia; f_equal; lia).
        nia. }
      destruct He as [->| ->].
      * replace (d + 0 - 53 + 53 - 53 - (d + 0 - 53)) with 0 in Hnear by lia.
        change (2 ^ 0) with 1 in Hnear.
        replace (- (d + 0 - 53 + 53 - 53)) with (53 - d) by lia.
        split; lia.
      * replace (d + 0 - 53 + 53 - 52 - (d + 0 - 53)) with 1 in Hnear by lia.
        change (2 ^ 1) with 2 in Hnear.
        change (2 ^ 53) with (2 * 2 ^ 52) in *. lia.
Qed.

(** The product of two doubles with mantissas of 53 digits. *)
Lemma mul_canonical (mx my : positive) (ex ey : Z) :
  Z.pos (digits2_pos mx) = 53 -> Z.pos (digits2_pos my) = 53 ->
  -1126 <= ex + ey ->
  105 <= Z.pos (digits2_pos (mx * my)) <= 106
  /\ nearest (mx * my) (ex + ey)
       (F64.mul (S754_finite false mx ex) (S754_finite false my ey)).
Proof.
  intros Hdx Hdy He.
  pose proof (digits2_pos_bounds mx) as [Xlo Xhi]. rewrite Hdx in Xlo, Xhi.
  pose proof (digits2_pos_bounds my) as [Ylo Yhi]. rewrite Hdy in Ylo, Yhi.
  change (53 - 1) with 52 in *.
  assert (Hd : 105 <= Z.pos (digits2_pos (mx * my)) <= 106).
  { assert (Z.pos (digits2_pos (mx * my)) = 105
            \/ Z.pos (digits2_pos (mx * my)) = 106); [|lia].
    destruct (Z_lt_ge_dec (Z.pos (mx * my)) (2 ^ 105)) as [Hlt|Hge].
    - left. apply digits2_pos_unique. rewrite Pos2Z.inj_mul in *.
      change (105 - 1) with 104. change (2 ^ 104) with (2 ^ 52 * 2 ^ 52).
      split; [nia|exact Hlt].
    - right. apply digits2_pos_unique. rewrite Pos2Z.inj_mul in *.
      change (106 - 1) with 105. change (2 ^ 106) with (2 ^ 53 * 2 ^ 53).
      split; [lia|nia]. }
  split; [exact Hd|].
  unfold F64.mul, SFmul. cbn [xorb].
  apply binary_round_aux_nearest; lia.
Qed.

(** ** The numbers of a report *)

Lemma binary_round_aux_sign (m e : Z) (l : SpecFloat.location) :
  not_negative (binary_round_aux F64.prec F64.emax false m e l) = true.
Proof.
  unfold binary_round_aux.
  destruct (shr_fexp F64.prec F64.emax m e l) as [mrs1 e1].
  destruct (shr_fexp F64.prec F64.emax _ e1 loc_Exact) as [mrs2 e2].
  destruct (shr_m mrs2); try reflexivity.
  destruct (e2 <=? F64.emax - F64.prec); reflexivity.
Qed.

Lemma of_Z_sign (z : Z) : 0 <= z -> not_negative (F64.of_Z z) = true.
Proof.
  intros Hz. unfold F64.of_Z, binary_normalize, binary_round.
  destruct z as [|p|p]; [reflexivity| |lia].
  destruct (shl_align p 0 _) as [mz ez]. apply binary_round_aux_sign.
Qed.

Lemma mul_sign (x y : F64.float) :
  not_negative x = true -> not_negative y = true ->
  not_negative (F64.mul x y) = true.
Proof.
  unfold F64.mul, SFmul.
  destruct x as [sx|[|]| |[|] mx ex]; try discriminate; try reflexivity;
    destruct y as [sy|[|]| |[|] my ey]; try discriminate; try reflexivity.
  intros _ _. apply binary_round_aux_sign.
Qed.

Lemma add_sign (x y : F64.float) :
  not_negative x = true -> not_negative y = true ->
  not_negative (F64.add x y) = true.
Proof.
  unfold F64.add, SFadd.
  destruct x as [sx|[|]| |[|] mx ex]; try discriminate; try reflexivity;
    destruct y as [sy|[|]| |[|] my ey]; try discriminate; try reflexivity;
    try (destruct sx; reflexivity); try (destruct sx, sy; reflexivity).
  intros _ _. cbn [cond_Zopp].
  change (Z.pos (fst (shl_align mx ex (IntDef.Z.min ex ey)))
          + Z.pos (fst (shl_align my ey (IntDef.Z.min ex ey))))
    with (Z.pos (fst (shl_align mx ex (IntDef.Z.min ex ey))
                 + fst (shl_align my ey (IntDef.Z.min ex ey)))).
  cbn [binary_normalize]. unfold binary_round.
  destruct (shl_align _ _ _) as [mz ez]. apply binary_round_aux_sign.
Qed.

Lemma trunc_sign (f : F64.float) (n : Z) :
  not_negative f = true -> F64.trunc f = Ok n -> 0 <= n.
Proof.
  destruct f as [s|s| |[|] m e]; try discriminate; cbn [F64.trunc].
  - intros _ H. injection H as <-. lia.
  - intros _ H. injection H as <-. destruct e as [|p|p].
    + lia.
    + assert (0 < 2 ^ Z.pos p) by (apply Z.pow_pos_nonneg; lia). nia.
    + apply Z.div_pos; [lia|]. apply Z.pow_pos_nonneg; lia.
Qed.

Lemma float_of_int_sign (z : Z) (f : F64.float) :
  0 <= z -> F64.float_of_int z = Ok f -> not_negative f = true.
Proof.
  intros Hz. unfold F64.float_of_int.
  destruct (F64.is_finite _); [|discriminate].
  intros H. injection H as <-. now apply of_Z_sign.
Qed.

Lemma raw_sum_nonneg (perms : list string) : 0 <= raw_sum perms.
Proof. apply raw_sum_bounds. Qed.

(** The permission score is never negative. *)
Lemma calculate_permission_score_sign (perms hi : list string) (n : Z) :
  calculate_permission_score perms = Ok (n, hi) -> 0 <= n.
Proof.
  rewrite calculate_permission_score_amplified. unfold amplified.
  destruct (F64.float_of_int (Z.of_nat _)) as [kf|e] eqn:Hk; [|discriminate].
  cbn [mbind outcome_bind].
  destruct (F64.float_of_int 1) as [one|e] eqn:H1; [|discriminate].
  cbn [mbind outcome_bind].
  destruct (F64.float_of_int (raw_sum perms)) as [rf|e] eqn:Hr; [|discriminate].
  cbn [mbind outcome_bind].
  destruct (F64.trunc _) as [k|e] eqn:Ht; [|discriminate].
  cbn [mbind outcome_bind]. intros H. injection H as <- _.
  refine (trunc_sign _ _ _ Ht).
  apply mul_sign; [exact (float_of_int_sign _ _ (raw_sum_nonneg perms) Hr)|].
  apply add_sign; [exact (float_of_int_sign 1 _ ltac:(lia) H1)|].
  apply mul_sign; [reflexivity|].
  exact (float_of_int_sign _ _ (Nat2Z.is_nonneg _) Hk).
Qed.

Lemma sum_scores_bounds {A : Type} (score : A -> Z) (lo hi : Z)
    (findings : list A) :
  (forall f : A, In f findings -> lo <= score f <= hi) ->
  lo * Z.of_nat (length findings) <= sum_scores score findings
  <= hi * Z.of_nat (length findings).
Proof.
  unfold sum_scores.
  assert (Hgen : forall (l : list A) (acc : Z),
             fold_left (fun acc f => acc + score f) l acc
             = acc + fold_left (fun acc f => acc + score f) l 0).
  { induction l as [|f l IH]; intros acc; cbn [fold_left]; [lia|].
    rewrite (IH (acc + score f)), (IH (0 + score f)). lia. }
  induction findings as [|f rest IH]; intros Hall.
  - cbn. lia.
  - cbn [fold_left length]. rewrite Hgen, Nat2Z.inj_succ.
    pose proof (Hall f (or_introl eq_refl)).
    pose proof (IH (fun g Hg => Hall g (or_intror Hg))). lia.
Qed.

Lemma analyze_urls_scores (a : apk) (f : url_finding) :
  In f (analyze_urls a) -> 50 <= url_finding_score f <= 200.
Proof.
  unfold analyze_urls. destruct (get_strings a) as [pool|e]; [|intros []].
  rewrite urls_loop_flat_map. cbn [app]. intros Hin.
  apply in_flat_map in Hin as (text & _ & Hin).
  apply in_flat_map in Hin as (d & _ & Hin).
  unfold classify_domain in Hin.
  destruct (String.length d <? 5)%nat; [destruct Hin|].
  destruct (bool_decide (d ∈ KNOWN_BAD_DOMAINS)).
  - destruct Hin as [<-|[]]. cbn. lia.
  - destruct (_ && _); [|destruct Hin]. destruct Hin as [<-|[]]. cbn. lia.
Qed.

Lemma catalogue_scores :
  Forall (fun entry : string * Z => 30 <= snd entry <= 200) MALICIOUS_PATTERNS.
Proof. repeat constructor; cbn; lia. Qed.

Lemma analyze_code_patterns_scores (opened : outcome apk) (f : pattern_finding) :
  In f (analyze_code_patterns opened) ->
  In (pattern f, pattern_finding_score f) MALICIOUS_PATTERNS
  /\ 30 <= pattern_finding_score f <= 200.
Proof.
  unfold analyze_code_patterns. destruct opened as [a|e]; [|intros []].
  destruct (get_strings a) as [pool|e]; [|intros []].
  rewrite code_loop_flat_map. cbn [app]. intros Hin.
  apply in_flat_map in Hin as (text & _ & Hin).
  unfold pattern_findings in Hin. apply in_map_iff in Hin as ([pat sc] & <- & Hin).
  apply filter_In in Hin as [Hin _]. cbn [pattern pattern_finding_score fst snd].
  split; [exact Hin|].
  exact (proj1 (List.Forall_forall _ _) catalogue_scores (pat, sc) Hin).
Qed.

(** What [int] makes of a positive double is not above it. *)
Lemma trunc_le_to_Q (m : positive) (e n : Z) :
  F64.trunc (S754_finite false m e) = Ok n ->
  (inject_Z n <= F64.to_Q (S754_finite false m e))%Q.
Proof.
  cbn [F64.trunc F64.to_Q]. intros H. injection H as <-.
  destruct e as [|p|p]; try apply Qle_refl.
  unfold Qle. cbn [Qnum Qden inject_Z]. rewrite Pos2Z.inj_pow, Z.mul_1_r.
  rewrite Z.mul_comm. apply Z.mul_div_le. apply Z.pow_pos_nonneg; lia.
Qed.

(** The discounted total of a non-negative sum, as an integer. *)
Lemma discounted_total (T n : Z) (total : pynum) (note : string) :
  0 <= T ->
  apply_discount true T = Ok (total, note) ->
  py_int total = Ok n ->
  note = "Known safe app (score reduced)"
  /\ 0 <= n <= T /\ (0 < T -> n < T).
Proof.
  intros HT. unfold apply_discount.
  destruct (F64.float_of_int T) as [x|e] eqn:Hx; [|discriminate].
  cbn [mbind outcome_bind]. intros H Hn. injection H as <- <-.
  split; [reflexivity|].
  destruct T as [|p|p]; [| |lia].
  - vm_compute in Hx. injection Hx as <-. vm_compute in Hn.
    injection Hn as <-. lia.
  - destruct (discount_of_positive p x Hx) as (m' & e' & Hmul & Hlt).
    rewrite Hmul in Hn. unfold max_0 in Hn.
    destruct (py_gt _ 0); cbn [py_int] in Hn.
    + pose proof (trunc_le_to_Q m' e' n Hn) as Hle.
      pose proof (trunc_sign (S754_finite false m' e') n eq_refl Hn) as H0.
      assert (Hq : (inject_Z n < inject_Z (Z.pos p))%Q)
        by (eapply Qle_lt_trans; eassumption).
      rewrite <- Zlt_Qlt in Hq. lia.
    + injection Hn as <-. lia.
Qed.

Lemma sample_run :
  analyze_apk sample_world "bank.apk" fresh_machine
  = (Report sample_report, sample_machine).
Proof.
  unfold sample_machine.
  rewrite (surjective_pairing (analyze_apk sample_world "bank.apk" fresh_machine))
    at 1.
  f_equal.
Qed.

(** The four sub-scores of a report. *)
Lemma report_parts (w : world) (path : string) (m m' : machine)
    (r : scan_report) :
  analyze_apk w path m = (Report r, m') ->
  0 <= permission_score r
  /\ 50 * Z.of_nat (length (suspicious_urls r)) <= url_score r
     <= 200 * Z.of_nat (length (suspicious_urls r))
  /\ 30 * Z.of_nat (length (suspicious_code_patterns r))
     <= code_analysis_score r
     <= 200 * Z.of_nat (length (suspicious_code_patterns r))
  /\ (certificate_score r = 0 \/ certificate_score r = 75
      \/ certificate_score r = 100).
Proof.
  intros Hrun.
  apply analyze_apk_report_inv in Hrun
    as (a & total & _ & _ & _ & _ & Hp & Hu & Hus & Hc & Hcs & Hcert & _).
  split; [exact (calculate_permission_score_sign _ _ _ Hp)|].
  split; [|split].
  - rewrite Hus. apply sum_scores_bounds. rewrite Hu.
    apply analyze_urls_scores.
  - rewrite Hcs. apply sum_scores_bounds. rewrite Hc.
    intros f Hf. now apply analyze_code_patterns_scores in Hf.
  - unfold calculate_certificate_risk in Hcert.
    destruct (get_certificates a) as [[|c cs]|e]; injection Hcert as <- _; auto.
Qed.

(** X11.  The numbers of a report.  The permission score is not negative;
    the URL score lies between 50 and 200 times the number of URL findings
    and the pattern score between 30 and 200 times the number of pattern
    findings, so each is 0 exactly when there is no finding; the
    certificate score is 0, 75 or 100.  For a package that is not
    allowlisted the total is the sum of the four and the note is
    "Unknown app"; for an allowlisted one the note is "Known safe app
    (score reduced)" and the total lies between 0 and the sum, below the
    sum when the sum is positive. *)
Theorem report_scores (w : world) (path : string) (m m' : machine)
    (r : scan_report) :
  analyze_apk w path m = (Report r, m') ->
  let T := permission_score r + url_score r + code_analysis_score r
           + certificate_score r in
  0 <= permission_score r
  /\ 50 * Z.of_nat (length (suspicious_urls r)) <= url_score r
     <= 200 * Z.of_nat (length (suspicious_urls r))
  /\ 30 * Z.of_nat (length (suspicious_code_patterns r))
     <= code_analysis_score r
     <= 200 * Z.of_nat (length (suspicious_code_patterns r))
  /\ (certificate_score r = 0 \/ certificate_score r = 75
      \/ certificate_score r = 100)
  /\ (is_known_safe_app r = false ->
      total_score r = T /\ risk_note r = "Unknown app")
  /\ (is_known_safe_app r = true ->
      risk_note r = "Known safe app (score reduced)"
      /\ 0 <= total_score r <= T /\ (0 < T -> total_score r < T)).
Proof.
  intros Hrun T.
  pose proof (report_parts w path m m' r Hrun) as (Hps & Hurl & Hcode & Hcr).
  apply analyze_apk_report_inv in Hrun
    as (a & total & _ & _ & _ & _ & _ & _ & _ & _ & _ & _ & Hd & _ & Hi & _).
  split; [exact Hps|]. split; [exact Hurl|]. split; [exact Hcode|].
  split; [exact Hcr|]. fold T in Hd. split.
  - intros Hsafe. rewrite Hsafe in Hd. cbn [apply_discount] in Hd.
    injection Hd as <- <-. cbn [py_int] in Hi. injection Hi as <-. auto.
  - intros Hsafe. rewrite Hsafe in Hd.
    apply (discounted_total T (total_score r) total (risk_note r)); auto.
    unfold T. lia.
Qed.

Lemma report_scores_witness :
  let r := sample_report in
  let T := permission_score r + url_score r + code_analysis_score r
           + certificate_score r in
  0 <= permission_score r
  /\ 50 * Z.of_nat (length (suspicious_urls r)) <= url_score r
     <= 200 * Z.of_nat (length (suspicious_urls r))
  /\ 30 * Z.of_nat (length (suspicious_code_patterns r))
     <= code_analysis_score r
     <= 200 * Z.of_nat (length (suspicious_code_patterns r))
  /\ (certificate_score r = 0 \/ certificate_score r = 75
      \/ certificate_score r = 100)
  /\ (is_known_safe_app r = false ->
      total_score r = T /\ risk_note r = "Unknown app")
  /\ (is_known_safe_app r = true ->
      risk_note r = "Known safe app (score reduced)"
      /\ 0 <= total_score r <= T /\ (0 < T -> total_score r < T)).
Proof.
  exact (report_scores sample_world "bank.apk" fresh_machine sample_machine
           sample_report sample_run).
Defined.

(** ** Runs that end with a report *)

Lemma trunc_pos_fin (lo hi : Z) (f : spec_float) :
  0 <= hi -> pos_fin lo hi f ->
  exists n : Z, F64.trunc f = Ok n /\ 0 <= n < 2 ^ hi.
Proof.
  intros H0.
  destruct f as [s|s| |[|] m e]; cbn [pos_fin]; try tauto.
  intros (Hd & Hlo & Hhi). cbn [F64.trunc]. eexists. split; [reflexivity|].
  pose proof (digits2_pos_bounds m) as [_ Dhi].
  set (d := Z.pos (digits2_pos m)) in *.
  assert (Hd1 : 1 <= d) by (unfold d; lia).
  destruct e as [|p|p].
  - assert (2 ^ d <= 2 ^ hi) by (apply Z.pow_le_mono_r; lia). lia.
  - assert (H2 : 2 ^ d * 2 ^ Z.pos p <= 2 ^ hi).
    { rewrite <- Z.pow_add_r by lia. apply Z.pow_le_mono_r; lia. }
    assert (0 < 2 ^ Z.pos p) by (apply Z.pow_pos_nonneg; lia). nia.
  - assert (Hp : 0 < 2 ^ Z.pos p) by (apply Z.pow_pos_nonneg; lia).
    split; [apply Z.div_pos; lia|].
    apply Z.div_lt_upper_bound; [exact Hp|].
    assert (2 ^ d <= 2 ^ (Z.pos p + hi)) by (apply Z.pow_le_mono_r; lia).
    rewrite <- Z.pow_add_r by lia. lia.
Qed.

Lemma amplified_bounded (raw k : Z) :
  0 <= raw < 2 ^ 40 -> 0 <= k < 2 ^ 32 ->
  exists n : Z, amplified raw k = Ok n /\ 0 <= n < 2 ^ 77.
Proof.
  intros [Hr0 Hr] Hk. unfold amplified.
  destruct (multiplier_pos_fin k Hk) as (kf & -> & Hm).
  cbn [mbind outcome_bind].
  change (F64.float_of_int 1) with (Ok (F64.of_Z 1)). cbn [mbind outcome_bind].
  set (multiplier := F64.add (F64.of_Z 1) (F64.mul F64.lit_0_2 kf)) in *.
  destruct (Z.eq_dec raw 0) as [->|Hne].
  - change (F64.float_of_int 0) with (Ok (S754_zero false)).
    cbn [mbind outcome_bind].
    destruct multiplier as [s|s| |[|] m e]; cbn [pos_fin] in Hm;
      try contradiction.
    exists 0. split; [reflexivity|]. split; [lia|]. apply Z.pow_pos_nonneg; lia.
  - destruct (float_of_int_pos_fin raw 40 ltac:(lia) ltac:(lia)) as [-> Hp].
    cbn [mbind outcome_bind].
    pose proof (mul_pos_fin _ _ _ _ _ _ Hp Hm ltac:(lia) ltac:(lia)) as Hf.
    refine (trunc_pos_fin _ (40 + 1 + 35 + 1) _ _ Hf). lia.
Qed.

(** Below [2^1023] the discount returns a total that [int] accepts. *)
Lemma apply_discount_total (safe : bool) (T : Z) :
  0 <= T < 2 ^ 1023 ->
  exists (total : pynum) (note : string) (n : Z),
    apply_discount safe T = Ok (total, note) /\ py_int total = Ok n.
Proof.
  intros [H0 Hhi]. unfold apply_discount. destruct safe; [|eauto].
  destruct (float_of_int_small T ltac:(lia)) as [x Hx]. rewrite Hx.
  cbn [mbind outcome_bind].
  destruct T as [|p|p]; [| |lia].
  - vm_compute in Hx. injection Hx as <-. eexists _, _, _.
    split; [reflexivity|]. vm_compute. reflexivity.
  - destruct (discount_of_positive p x Hx) as (m' & e' & -> & _).
    unfold max_0. destruct (py_gt _ 0); eexists _, _, _;
      (split; [reflexivity|]); reflexivity.
Qed.

(** X12.  A run of [analyze_apk] ends with a report, not an error record,
    whenever the file exists, the package opens and gives a package
    identifier other than "Unknown", the file can be hashed, the package
    declares fewer than [2^32] permissions and the finding scores sum to
    less than [2^1000]: no failure of the allowlist, of a scanner or of the
    certificate evaluator turns the run into an error.  The report carries
    the identifier and the hash. *)
Theorem analyze_apk_reports (w : world) (path : string) (m : machine)
    (a : apk) (h : string) :
  path_exists w path = true ->
  open_apk w path = Ok a ->
  or_default (get_package a) "Unknown" <> "Unknown" ->
  file_sha256 w path = Ok h ->
  Z.of_nat (length (default [] (get_permissions a))) < 2 ^ 32 ->
  sum_scores url_finding_score (analyze_urls a)
  + sum_scores pattern_finding_score (analyze_code_patterns (Ok a)) < 2 ^ 1000 ->
  exists (r : scan_report) (m' : machine),
    analyze_apk w path m = (Report r, m')
    /\ package r = or_default (get_package a) "Unknown"
    /\ apk_hash r = h.
Proof.
  intros Hex Hopen Hpkg Hh Hlen Hsum.
  set (perms := default [] (get_permissions a)) in *.
  destruct (amplified_bounded (raw_sum perms)
              (Z.of_nat (length (high_risk perms)))) as (n & Hn & Hn0 & Hn77).
  { pose proof (raw_sum_bounds perms).
    change (2 ^ 40) with (256 * 2 ^ 32). lia. }
  { pose proof (high_risk_length perms). lia. }
  assert (Hscore : calculate_permission_score perms
                   = Ok (n, high_risk perms)).
  { rewrite calculate_permission_score_amplified, Hn. reflexivity. }
  pose proof (sum_scores_bounds url_finding_score 50 200 (analyze_urls a)
                (analyze_urls_scores a)) as [Hu0 _].
  pose proof (sum_scores_bounds pattern_finding_score 30 200
                (analyze_code_patterns (Ok a))
                (fun f Hf => proj2 (analyze_code_patterns_scores _ f Hf)))
    as [Hc0 _].
  set (us := sum_scores url_finding_score (analyze_urls a)) in *.
  set (cs := sum_scores pattern_finding_score (analyze_code_patterns (Ok a))) in *.
  assert (Hcert : 0 <= fst (calculate_certificate_risk a) <= 100).
  { unfold calculate_certificate_risk.
    destruct (get_certificates a) as [[|c l]|e]; cbn; lia. }
  assert (HT : forall safe : bool,
             exists (total : pynum) (note : string) (k : Z),
               apply_discount safe
                 (n + us + cs + fst (calculate_certificate_risk a))
               = Ok (total, note) /\ py_int total = Ok k).
  { intros safe. apply apply_discount_total.
    assert (2 ^ 77 + 2 ^ 1000 + 100 < 2 ^ 1023) by (vm_compute; reflexivity).
    lia. }
  unfold analyze_apk, analyze_apk_body. unfold_run. step_run.
  rewrite Hex. step_run. rewrite Hopen. step_run.
  apply String.eqb_neq in Hpkg. rewrite Hpkg. step_run. rewrite Hh. step_run.
  match goal with
  | |- context [load_safe_apps w ?m0] =>
      destruct (load_safe_apps_returns w m0) as (sa & m1 & Hl & _);
      rewrite Hl
  end.
  step_run. fold perms. rewrite Hscore. step_run.
  fold us cs.
  destruct (calculate_certificate_risk a) as [cert note0]. cbn [fst] in HT.
  destruct (HT (bool_decide
                  (normalize (or_default (get_package a) "Unknown") ∈ sa)))
    as (total & note & k & Hd & Hk).
  rewrite Hd. cbn [lift mbind]. rewrite Hk.
  eexists _, _. split; [reflexivity|]. split; reflexivity.
Qed.

Lemma analyze_apk_reports_witness :
  exists (r : scan_report) (m' : machine),
    analyze_apk sample_world "bank.apk" fresh_machine = (Report r, m')
    /\ package r = or_default (get_package sample_apk) "Unknown"
    /\ apk_hash r = "9f86d081884c7d65".
Proof.
  apply (analyze_apk_reports sample_world "bank.apk" fresh_machine sample_apk
           "9f86d081884c7d65"); try reflexivity.
  vm_compute. discriminate.
Defined.

(** ** The tier and the reported total *)

(** A double with a full mantissa against the double of a threshold [c]
    that is [Mc * 2^-p]: above it, its integer part is at least [c]; with
    an integer part above [c], it is above it. *)
Lemma ltb_threshold (c : Z) (Mc p m : positive) (e n : Z) :
  F64.of_Z c = S754_finite false Mc (Z.neg p) ->
  Z.pos Mc = c * 2 ^ Z.pos p ->
  2 ^ 52 <= Z.pos Mc < 2 ^ 53 ->
  Z.pos (digits2_pos m) = 53 ->
  F64.trunc (S754_finite false m e) = Ok n ->
  (F64.ltb (F64.of_Z c) (S754_finite false m e) = true -> c <= n)
  /\ (c < n -> F64.ltb (F64.of_Z c) (S754_finite false m e) = true).
Proof.
  intros -> HMc [Mlo Mhi] Hdm Hn.
  pose proof (digits2_pos_bounds m) as [Dlo Dhi]. rewrite Hdm in Dlo, Dhi.
  change (53 - 1) with 52 in Dlo.
  assert (HP : 0 < 2 ^ Z.pos p) by (apply Z.pow_pos_nonneg; lia).
  assert (Hc0 : 0 < c) by nia.
  cbn [F64.trunc] in Hn. injection Hn as <-.
  unfold F64.ltb, SFltb. cbn [SFcompare].
  change (IntDef.Z.compare (Z.neg p) e) with (Z.neg p ?= e).
  change (PosDef.Pos.compare_cont Eq Mc m) with (Pos.compare Mc m).
  destruct (Z.compare_spec (Z.neg p) e) as [<-|Hlt|Hgt].
  - (* the same exponent: the mantissas decide *)
    destruct (Pos.compare_spec Mc m) as [Heq|Hlt|Hgt].
    + split; [discriminate|]. intros Hcn. exfalso. subst m.
      rewrite HMc, Z.div_mul in Hcn by lia. lia.
    + split; [|reflexivity]. intros _.
      apply Z.div_le_lower_bound; [exact HP|]. lia.
    + split; [discriminate|]. intros Hcn. exfalso.
      assert (Z.pos m / 2 ^ Z.pos p <= c); [|lia].
      apply Z.div_le_upper_bound; [exact HP|]. lia.
  - (* a higher exponent: above the threshold *)
    split; [|reflexivity]. intros _.
    destruct e as [|q|q].
    + change (2 ^ 0) with 1. change (2 ^ 53) with (2 * 2 ^ 52) in Mhi.
      assert (2 <= 2 ^ Z.pos p).
      { change 2 with (2 ^ 1) at 1. apply Z.pow_le_mono_r; lia. }
      nia.
    + assert (0 < 2 ^ Z.pos q) by (apply Z.pow_pos_nonneg; lia).
      change (2 ^ 53) with (2 * 2 ^ 52) in Mhi.
      assert (2 <= 2 ^ Z.pos p).
      { change 2 with (2 ^ 1) at 1. apply Z.pow_le_mono_r; lia. }
      nia.
    + assert (HQ : 0 < 2 ^ Z.pos q) by (apply Z.pow_pos_nonneg; lia).
      apply Z.div_le_lower_bound; [exact HQ|].
      assert (Hsplit : 2 ^ Z.pos p = 2 ^ Z.pos q * 2 ^ (Z.pos p - Z.pos q)).
      { rewrite <- Z.pow_add_r by lia. f_equal. lia. }
      assert (2 <= 2 ^ (Z.pos p - Z.pos q)).
      { change 2 with (2 ^ 1) at 1. apply Z.pow_le_mono_r; lia. }
      change (2 ^ 53) with (2 * 2 ^ 52) in Mhi. nia.
  - (* a lower exponent: below the threshold *)
    split; [discriminate|]. intros Hcn. exfalso.
    destruct e as [|q|q]; try lia.
    assert (HQ : 0 < 2 ^ Z.pos q) by (apply Z.pow_pos_nonneg; lia).
    assert (Z.pos m / 2 ^ Z.pos q <= c); [|lia].
    assert (Hsplit : 2 ^ Z.pos q = 2 ^ Z.pos p * 2 ^ (Z.pos q - Z.pos p)).
    { rewrite <- Z.pow_add_r by lia. f_equal. lia. }
    assert (2 <= 2 ^ (Z.pos q - Z.pos p)).
    { change 2 with (2 ^ 1) at 1. apply Z.pow_le_mono_r; lia. }
    assert (Z.pos m / 2 ^ Z.pos q < c + 1); [|lia].
    apply Z.div_lt_upper_bound; [exact HQ|].
    change (2 ^ 53) with (2 * 2 ^ 52) in Dhi. nia.
Qed.

Lemma discount_canonical (p : positive) (x : F64.float) :
  F64.float_of_int (Z.pos p) = Ok x ->
  exists (m' : positive) (e' : Z),
    F64.mul x F64.lit_0_3 = S754_finite false m' e'
    /\ Z.pos (digits2_pos m') = 53.
Proof.
  unfold F64.float_of_int. pose proof (of_Z_canonical p) as Hx.
  destruct (F64.of_Z (Z.pos p)) as [s|s| |s mt et]; cbn [F64.is_finite];
    try discriminate; try contradiction.
  intros H. injection H as <-. destruct Hx as (-> & Hdt & Het & _).
  unfold F64.lit_0_3.
  destruct (mul_canonical mt 5404319552844595 et (-54) Hdt eq_refl ltac:(lia))
    as [Hd Hnear].
  unfold nearest in Hnear. cbv zeta in Hnear.
  destruct (F64.mul _ _) as [s|s| |s m' e']; try contradiction.
  - destruct Hnear as [_ H]. lia.
  - destruct Hnear as (-> & Hdm & _). eauto.
Qed.

Lemma agrees_int (z : Z) : agrees (PyInt z) z.
Proof.
  intros c _. cbn [py_gt]. split.
  - intros H. apply Z.ltb_lt in H. lia.
  - intros H. now apply Z.ltb_lt.
Qed.

Lemma agrees_float (m : positive) (e n : Z) :
  Z.pos (digits2_pos m) = 53 ->
  F64.trunc (S754_finite false m e) = Ok n ->
  agrees (PyFloat (S754_finite false m e)) n.
Proof.
  intros Hd Hn c [->|[->| ->]]; cbn [py_gt].
  - apply (ltb_threshold 500 8796093022208000 44 m e n); auto;
      vm_compute; split; congruence.
  - apply (ltb_threshold 200 7036874417766400 45 m e n); auto;
      vm_compute; split; congruence.
  - apply (ltb_threshold 50 7036874417766400 47 m e n); auto;
      vm_compute; split; congruence.
Qed.

(** The total the discount returns agrees with its integer part. *)
Lemma apply_discount_agrees (safe : bool) (T n : Z) (total : pynum)
    (note : string) :
  0 <= T ->
  apply_discount safe T = Ok (total, note) ->
  py_int total = Ok n ->
  agrees total n.
Proof.
  intros HT. unfold apply_discount. destruct safe.
  - destruct (F64.float_of_int T) as [x|e] eqn:Hx; [|discriminate].
    cbn [mbind outcome_bind]. intros H Hn. injection H as <- _.
    destruct T as [|p|p]; [| |lia].
    + vm_compute in Hx. injection Hx as <-. vm_compute in Hn.
      injection Hn as <-. apply agrees_int.
    + destruct (discount_canonical p x Hx) as (m' & e' & Hmul & Hd).
      rewrite Hmul in *. unfold max_0 in *.
      destruct (py_gt _ 0); cbn [py_int] in Hn.
      * now apply agrees_float.
      * injection Hn as <-. apply agrees_int.
  - intros H Hn. injection H as <- _. cbn [py_int] in Hn. injection Hn as <-.
    apply agrees_int.
Qed.

Lemma tier_of_agreeing_total (total : pynum) (n : Z) :
  agrees total n ->
  (500 < n -> determine_risk_level total = Dangerous)
  /\ (determine_risk_level total = Dangerous -> 500 <= n)
  /\ (determine_risk_level total = PotentiallyRisky -> 200 <= n <= 500)
  /\ (determine_risk_level total = ModerateRisk -> 50 <= n <= 200)
  /\ (determine_risk_level total = LikelySafe -> n <= 50).
Proof.
  intros Hag.
  destruct (Hag 500 ltac:(auto)) as [H5a H5b].
  destruct (Hag 200 ltac:(auto)) as [H2a H2b].
  destruct (Hag 50 ltac:(auto)) as [H0a H0b].
  unfold determine_risk_level.
  destruct (py_gt total 500) eqn:G5; [|destruct (py_gt total 200) eqn:G2;
    [|destruct (py_gt total 50) eqn:G0]].
  - specialize (H5a eq_refl). repeat split; intros; try discriminate; lia.
  - specialize (H2a eq_refl).
    assert (~ 500 < n) by (intros Hx; apply H5b in Hx; discriminate).
    repeat split; intros; try discriminate; lia.
  - specialize (H0a eq_refl).
    assert (~ 500 < n) by (intros Hx; apply H5b in Hx; discriminate).
    assert (~ 200 < n) by (intros Hx; apply H2b in Hx; discriminate).
    repeat split; intros; try discriminate; lia.
  - assert (~ 500 < n) by (intros Hx; apply H5b in Hx; discriminate).
    assert (~ 200 < n) by (intros Hx; apply H2b in Hx; discriminate).
    assert (~ 50 < n) by (intros Hx; apply H0b in Hx; discriminate).
    repeat split; intros; try discriminate; lia.
Qed.

(** X13.  The tier of a report against its [total_score].  For a package
    that is not allowlisted the tier is the one the thresholds give the
    reported integer.  For an allowlisted one the tier is computed on the
    discounted float and the report shows its integer part, so the two can
    differ at a threshold: a total above 500 is "Dangerous" and a
    "Dangerous" report has a total of at least 500, "Potentially Risky"
    lies in 200 to 500, "Moderate Risk" in 50 to 200, "Likely Safe" is at
    most 50.  The boundary is met: an allowlisted package with sub-scores
    summing to 1667 is reported with total 500 and tier "Dangerous", where
    500 for any other package is "Potentially Risky". *)
Theorem tier_and_reported_total :
  (forall (w : world) (path : string) (m m' : machine) (r : scan_report),
      analyze_apk w path m = (Report r, m') ->
      (is_known_safe_app r = false ->
       overall_risk r = determine_risk_level (PyInt (total_score r)))
      /\ (500 < total_score r -> overall_risk r = Dangerous)
      /\ (overall_risk r = Dangerous -> 500 <= total_score r)
      /\ (overall_risk r = PotentiallyRisky -> 200 <= total_score r <= 500)
      /\ (overall_risk r = ModerateRisk -> 50 <= total_score r <= 200)
      /\ (overall_risk r = LikelySafe -> total_score r <= 50))
  /\ (exists r : scan_report,
        fst (analyze_apk boundary_world "bank.apk" fresh_machine) = Report r
        /\ is_known_safe_app r = true
        /\ permission_score r + url_score r + code_analysis_score r
           + certificate_score r = 1667
        /\ total_score r = 500
        /\ overall_risk r = Dangerous)
  /\ determine_risk_level (PyInt 500) = PotentiallyRisky.
Proof.
  split; [|split; [|reflexivity]].
  - intros w path m m' r Hrun.
    pose proof (report_parts w path m m' r Hrun) as (Hp & Hu & Hc & Hcert).
    apply analyze_apk_report_inv in Hrun
      as (a & total & _ & _ & _ & _ & _ & _ & _ & _ & _ & _ & Hd & Hl & Hi & _).
    rewrite Hl. split.
    + intros Hsafe. rewrite Hsafe in Hd. cbn [apply_discount] in Hd.
      injection Hd as <- _. cbn [py_int] in Hi. injection Hi as <-.
      reflexivity.
    + apply tier_of_agreeing_total.
      refine (apply_discount_agrees _ _ _ _ _ _ Hd Hi). lia.
  - eexists. split; [vm_compute; reflexivity|]. repeat split.
Qed.

(** ** Amplification never lowers the permission score *)

(** The sum of 1 and a positive double. *)
Lemma add_one_canonical (my : positive) (ey : Z) :
  -1074 <= ey ->
  match F64.add (F64.of_Z 1) (S754_finite false my ey) with
  | S754_finite s m e => s = false /\ Z.pos (digits2_pos m) = 53 /\ -52 <= e
  | S754_infinity s => True
  | _ => False
  end.
Proof.
  intros Hey.
  change (F64.of_Z 1) with (S754_finite false (2 ^ 52)%positive (-52)).
  unfold F64.add, SFadd. cbn [cond_Zopp].
  change (IntDef.Z.min (-52) ey) with (Z.min (-52) ey).
  set (ez := Z.min (-52) ey).
  pose proof (shl_align_fst (2 ^ 52) (-52) ez ltac:(unfold ez; lia)) as Ha.
  pose proof (shl_align_fst my ey ez ltac:(unfold ez; lia)) as Hb.
  set (a := fst (shl_align (2 ^ 52) (-52) ez)) in *.
  set (b := fst (shl_align my ey ez)) in *.
  change (Z.pos a + Z.pos b) with (Z.pos (a + b)). cbn [binary_normalize].
  assert (HA : 0 < 2 ^ (-52 - ez)) by (apply Z.pow_pos_nonneg; unfold ez; lia).
  assert (Hlow : 2 ^ (52 + (-52 - ez)) <= Z.pos (a + b)).
  { rewrite Pos2Z.inj_add, Ha, Z.pow_add_r by (unfold ez; lia).
    change (Z.pos (2 ^ 52)) with (2 ^ 52). lia. }
  pose proof (digits2_pos_bounds (a + b)) as [Dlo Dhi].
  set (d := Z.pos (digits2_pos (a + b))) in *.
  assert (Hd : 53 + (-52 - ez) <= d).
  { destruct (Z_lt_ge_dec d (53 + (-52 - ez))) as [Hlt|]; [|lia].
    assert (2 ^ d <= 2 ^ (52 + (-52 - ez)))
      by (apply Z.pow_le_mono_r; unfold ez in *; lia).
    lia. }
  unfold binary_round, shl_align. fold d. rewrite fexp_normal by (unfold ez in *; lia).
  destruct (d + ez - 53 - ez) as [|k|k] eqn:Hk; try (unfold ez in *; lia).
  - pose proof (binary_round_aux_nearest (a + b) ez ltac:(fold d; unfold ez in *; lia)
                  ltac:(fold d; unfold ez in *; lia)) as H.
    unfold nearest in H. cbv zeta in H. fold d in H.
    destruct (binary_round_aux _ _ _ _ _ _) as [s|s| |s m e];
      cbv beta iota in H; try contradiction; [exact I|].
    destruct H as (-> & Hdm & He & _). repeat split; [exact Hdm|].
    unfold ez in *. lia.
  - pose proof (binary_round_aux_nearest (a + b) ez ltac:(fold d; unfold ez in *; lia)
                  ltac:(fold d; unfold ez in *; lia)) as H.
    unfold nearest in H. cbv zeta in H. fold d in H.
    destruct (binary_round_aux _ _ _ _ _ _) as [s|s| |s m e];
      cbv beta iota in H; try contradiction; [exact I|].
    destruct H as (-> & Hdm & He & _). repeat split; [exact Hdm|].
    unfold ez in *. lia.
Qed.

(** [1 + 0.2 * k] is a double of full mantissa that is at least 1. *)
Lemma multiplier_canonical (k : Z) :
  0 <= k < 2 ^ 32 ->
  exists (kf : F64.float) (mm : positive) (em : Z),
    F64.float_of_int k = Ok kf
    /\ F64.add (F64.of_Z 1) (F64.mul F64.lit_0_2 kf) = S754_finite false mm em
    /\ Z.pos (digits2_pos mm) = 53 /\ -52 <= em
    /\ (k = 0 -> mm = (2 ^ 52)%positive /\ em = -52).
Proof.
  intros Hk. destruct (multiplier_pos_fin k Hk) as (kf & Hkf & Hfin).
  exists kf. destruct (Z.eq_dec k 0) as [->|Hne].
  - vm_compute in Hkf. injection Hkf as <-.
    exists (2 ^ 52)%positive, (-52). repeat split; reflexivity.
  - destruct k as [|p|p]; try lia.
    pose proof Hkf as Hkf0.
    unfold F64.float_of_int in Hkf. pose proof (of_Z_canonical p) as Hc.
    destruct (F64.of_Z (Z.pos p)) as [s|s| |s mk ek]; cbn [F64.is_finite] in Hkf;
      try discriminate; try contradiction.
    injection Hkf as <-. destruct Hc as (-> & Hdk & Hek & _).
    unfold F64.lit_0_2 in *.
    destruct (mul_canonical 7205759403792794 mk (-55) ek eq_refl Hdk ltac:(lia))
      as [Hd Hnear].
    unfold nearest in Hnear. cbv zeta in Hnear.
    destruct (F64.mul _ _) as [s|s| |s my ey] eqn:Hmul;
      cbv beta iota in Hnear; try contradiction.
    (* an infinite product would make the sum infinite: it is finite *)
    destruct Hnear as (-> & Hdy & Hey & _).
    pose proof (add_one_canonical my ey ltac:(lia)) as Ha.
    destruct (F64.add _ _) as [s|s| |s mm em]; try contradiction.
    destruct Ha as (-> & Hdm & Hem). exists mm, em.
    split; [exact Hkf0|]. split; [reflexivity|]. split; [exact Hdm|].
    split; [exact Hem|]. intros Hk0. discriminate Hk0.
Qed.

(** The amplified score is at least the raw sum, and is the raw sum when
    no permission is high-risk. *)
Lemma amplified_lower (raw k n : Z) :
  0 <= raw < 2 ^ 53 -> 0 <= k < 2 ^ 32 ->
  amplified raw k = Ok n ->
  raw <= n /\ (k = 0 -> n = raw).
Proof.
  intros [Hr0 Hr] Hk. unfold amplified.
  destruct (multiplier_canonical k Hk)
    as (kf & mm & em & -> & Hmult & Hdm & Hem & Hzero).
  cbn [mbind outcome_bind].
  change (F64.float_of_int 1) with (Ok (F64.of_Z 1)). cbn [mbind outcome_bind].
  rewrite Hmult.
  destruct raw as [|p|p]; [| |lia].
  - change (F64.float_of_int 0) with (Ok (S754_zero false)).
    cbn [mbind outcome_bind]. unfold F64.mul, SFmul. cbn [F64.trunc].
    intros H. injection H as <-. split; [lia|auto].
  - unfold F64.float_of_int. pose proof (of_Z_canonical p) as Hc.
    destruct (F64.of_Z (Z.pos p)) as [s|s| |s ms es]; cbn [F64.is_finite];
      try discriminate; try contradiction.
    cbn [mbind outcome_bind]. destruct Hc as (-> & Hds & Hes & Hexact).
    destruct (Hexact Hr) as [Hes0 Hms].
    destruct (mul_canonical ms mm es em Hds Hdm ltac:(lia)) as [Hd Hnear].
    unfold nearest in Hnear. cbv zeta in Hnear.
    pose proof (digits2_pos_bounds ms) as [Slo Shi]. rewrite Hds in Slo, Shi.
    pose proof (digits2_pos_bounds mm) as [Mlo Mhi]. rewrite Hdm in Mlo, Mhi.
    change (53 - 1) with 52 in *.
    set (d := Z.pos (digits2_pos (ms * mm))) in *.
    destruct (F64.mul (S754_finite false ms es) (S754_finite false mm em))
      as [s|s| |s m' e']; cbv beta iota in Hnear;
      try contradiction; cbn [F64.trunc]; try discriminate.
    destruct Hnear as (-> & Hdm' & He' & _ & Hlo & Hhi).
    pose proof (digits2_pos_bounds m') as [Plo Phi]. rewrite Hdm' in Plo, Phi.
    change (53 - 1) with 52 in *.
    rewrite Pos2Z.inj_mul in Hlo, Hhi.
    set (sh := e' - (es + em)) in *.
    assert (Hsh : sh = d - 53 \/ sh = d - 52) by (unfold sh; lia).
    set (a := em + sh).
    assert (Ha : 0 <= a) by (unfold a; lia).
    assert (He'a : e' = es + a) by (unfold a, sh; lia).
    assert (HS : 0 < 2 ^ (- es)) by (apply Z.pow_pos_nonneg; lia).
    assert (HA : 0 < 2 ^ a) by (apply Z.pow_pos_nonneg; lia).
    (* the rounded mantissa, on the grid of the raw sum *)
    assert (Hkey : Z.pos ms <= Z.pos m' * 2 ^ a).
    { destruct (Z.eq_dec a 0) as [Ha0|Ha0].
      - rewrite Ha0. change (2 ^ 0) with 1.
        assert (Hsh52 : sh = 52) by (unfold a in Ha0; lia).
        assert (Hd105 : d = 105) by lia.
        rewrite Hsh52, Hd105 in Hlo. change (105 - 53) with 52 in Hlo.
        assert (0 < 2 ^ 52) by (apply Z.pow_pos_nonneg; lia). nia.
      - assert (2 <= 2 ^ a).
        { change 2 with (2 ^ 1) at 1. apply Z.pow_le_mono_r; lia. }
        change (2 ^ 53) with (2 * 2 ^ 52) in Shi. nia. }
    assert (Hexactk : k = 0 -> Z.pos m' = Z.pos ms /\ a = 0).
    { intros Hk0. destruct (Hzero Hk0) as [-> ->].
      change (Z.pos (2 ^ 52)) with (2 ^ 52) in *.
      assert (Hd105 : d = 105).
      { unfold d. apply digits2_pos_unique. rewrite Pos2Z.inj_mul.
        change (Z.pos (2 ^ 52)) with (2 ^ 52). change (105 - 1) with 104.
        change (2 ^ 104) with (2 ^ 52 * 2 ^ 52).
        change (2 ^ 105) with (2 ^ 53 * 2 ^ 52). nia. }
      rewrite Hd105 in *. change (105 - 53) with 52 in *.
      destruct Hsh as [Hs|Hs]; rewrite Hs in *.
      - change (105 - 53) with 52 in *. split; [nia|unfold a; lia].
      - change (105 - 52) with 53 in *.
        change (2 ^ 53) with (2 * 2 ^ 52) in *. nia. }
    intros H. injection H as <-.
    assert (Htrunc : forall v : Z,
               v = match e' with
                   | Z.neg q => Z.pos m' / 2 ^ Z.pos q
                   | _ => Z.pos m' * 2 ^ e'
                   end ->
               Z.pos p <= v /\ (k = 0 -> v = Z.pos p)).
    { intros v ->. destruct (Z_lt_ge_dec e' 0) as [Hneg|Hpos].
      - destruct e' as [|q|q]; try lia.
        assert (HQ : 0 < 2 ^ Z.pos q) by (apply Z.pow_pos_nonneg; lia).
        assert (Hsplit : 2 ^ (- es) = 2 ^ Z.pos q * 2 ^ a).
        { rewrite <- Z.pow_add_r by lia. f_equal. lia. }
        split.
        + apply Z.div_le_lower_bound; [exact HQ|]. nia.
        + intros Hk0. destruct (Hexactk Hk0) as [Hm Ha0].
          rewrite Ha0 in Hsplit. change (2 ^ 0) with 1 in Hsplit.
          rewrite Hm, Hms, Hsplit, Z.mul_1_r, Z.div_mul by lia. reflexivity.
      - assert (HE : 0 < 2 ^ e') by (apply Z.pow_pos_nonneg; lia).
        assert (Hsplit : 2 ^ a = 2 ^ e' * 2 ^ (- es)).
        { rewrite <- Z.pow_add_r by lia. f_equal. lia. }
        assert (Hv : Z.pos p <= Z.pos m' * 2 ^ e') by nia.
        destruct e' as [|q|q]; try lia; (split; [exact Hv|]);
          intros Hk0; destruct (Hexactk Hk0) as [Hm Ha0];
          rewrite Ha0 in Hsplit; change (2 ^ 0) with 1 in Hsplit; nia. }
    apply Htrunc. reflexivity.
Qed.

(** X14.  For a list of fewer than [2^32] permissions
    [calculate_permission_score] returns a score that is at least the sum
    of the table scores: the amplification by the count of high-risk
    permissions, computed on doubles and truncated, never lowers it.  When
    no permission is high-risk the score is the sum itself (for the empty
    list, 0). *)
Theorem permission_score_amplifies (perms : list string) :
  Z.of_nat (length perms) < 2 ^ 32 ->
  exists n : Z,
    calculate_permission_score perms = Ok (n, high_risk perms)
    /\ raw_sum perms <= n
    /\ (high_risk perms = [] -> n = raw_sum perms).
Proof.
  intros Hlen.
  pose proof (raw_sum_bounds perms) as Hraw.
  pose proof (high_risk_length perms) as Hk.
  destruct (amplified_returns (raw_sum perms)
              (Z.of_nat (length (high_risk perms)))) as [n Hn].
  { change (2 ^ 40) with (256 * 2 ^ 32). lia. }
  { lia. }
  exists n. split.
  - rewrite calculate_permission_score_amplified, Hn. reflexivity.
  - assert (Hr53 : 0 <= raw_sum perms < 2 ^ 53).
    { change (2 ^ 53) with (2097152 * 2 ^ 32). lia. }
    assert (Hk32 : 0 <= Z.of_nat (length (high_risk perms)) < 2 ^ 32) by lia.
    destruct (amplified_lower _ _ _ Hr53 Hk32 Hn) as [Hlow Hzero].
    split; [exact Hlow|]. intros Hnil. apply Hzero. now rewrite Hnil.
Qed.

Lemma permission_score_amplifies_witness :
  exists n : Z,
    calculate_permission_score
      ["android.permission.READ_SMS"; "android.permission.INTERNET"]
    = Ok (n, high_risk ["android.permission.READ_SMS";
                        "android.permission.INTERNET"])
    /\ raw_sum ["android.permission.READ_SMS"; "android.permission.INTERNET"]
       <= n
    /\ (high_risk ["android.permission.READ_SMS"; "android.permission.INTERNET"]
        = [] ->
        n = raw_sum ["android.permission.READ_SMS";
                     "android.permission.INTERNET"]).
Proof.
  apply (permission_score_amplifies
           ["android.permission.READ_SMS"; "android.permission.INTERNET"]).
  reflexivity.
Defined.
